(** * ssosync: the reconciliation engine (internal/sync.go) over the
      AWS Identity Store client (internal/aws/client.go)

    A shallow embedding of [SyncUsers], [SyncGroups],
    [SyncMembershipsForGroup], [RemoveUsers] and [DoSync] together with the
    [aws.Client] wrapper they drive.  Go maps are [gmap string _], Go slices
    are lists, [*string] is [option string], a Go [error] value is
    [option error] ([None] is [nil]).  Every call made through the two client
    interfaces is recorded, in order, in the trace a computation returns. *)

From stdpp Require Import base strings gmap list.

(** ** Go values *)

Inductive error := Err (msg : string).

#[global] Instance error_eq_dec : EqDecision error.
Proof. solve_decision. Defined.

(** [awsutils.ToString]: a nil [*string] reads as the empty string. *)
Definition ToString (p : option string) : string := default EmptyString p.

(** [awsutils.String]. *)
Definition String (s : string) : option string := Some s.

(** [strings.Join] *)
Fixpoint Join (elems : list string) (sep : string) : string :=
  match elems with
  | [] => EmptyString
  | [e] => e
  | e :: rest => e +:+ sep +:+ Join rest sep
  end.

(** ** github.com/aws/aws-sdk-go-v2/service/identitystore/types *)
Module types.

Record Name := { FamilyName : option string; GivenName : option string }.

Record Email :=
  { Primary : bool; Type_ : option string; Value : option string }.

Record ExternalId := { Id : option string; Issuer : option string }.

Record User := {
  UserId : option string;
  UserName : option string;
  DisplayName : option string;
  User_Name : option Name;
  Emails : list Email;
  ExternalIds : list ExternalId;
}.

Record Group := {
  GroupId : option string;
  Group_DisplayName : option string;
  Description : option string;
}.

(** The [MemberId] union: the one known member and the SDK's catch-all. *)
Inductive MemberId :=
| MemberIdMemberUserId (Value : string)
| UnknownUnionMember (Tag : string).

(** [MemberId] is an interface value, so it may also be nil ([None]). *)
Record GroupMembership := {
  Membership_GroupId : option string;
  IdentityStoreId : option string;
  Membership_MemberId : option MemberId;
  MembershipId : option string;
}.

#[global] Instance Name_eq_dec : EqDecision Name.
Proof. solve_decision. Defined.
#[global] Instance Email_eq_dec : EqDecision Email.
Proof. solve_decision. Defined.
#[global] Instance ExternalId_eq_dec : EqDecision ExternalId.
Proof. solve_decision. Defined.
#[global] Instance User_eq_dec : EqDecision User.
Proof. solve_decision. Defined.
#[global] Instance Group_eq_dec : EqDecision Group.
Proof. solve_decision. Defined.
#[global] Instance MemberId_eq_dec : EqDecision MemberId.
Proof. solve_decision. Defined.
#[global] Instance GroupMembership_eq_dec : EqDecision GroupMembership.
Proof. solve_decision. Defined.

End types.

(** ** google.golang.org/api/admin/directory/v1 *)
Module admin.

(** Modelled from the spec: the declarations of the source directory's
    entities are not part of the sources at hand.  "Each SourceUser exposes:
    primary email, given/family name, suspended flag, source-native id.
    Each SourceGroup exposes: name, description, email.  Each SourceMember
    exposes: email." *)
Record UserName := { GivenName : string; FamilyName : string }.

Record User := {
  PrimaryEmail : string;
  Name : UserName;
  Suspended : bool;
  Id : string;
}.

Record Group := {
  Group_Name : string;
  Group_Description : string;
  Group_Email : string;
}.

Record Member := { Member_Email : string }.

#[global] Instance UserName_eq_dec : EqDecision UserName.
Proof. solve_decision. Defined.
#[global] Instance User_eq_dec : EqDecision User.
Proof. solve_decision. Defined.
#[global] Instance Group_eq_dec : EqDecision Group.
Proof. solve_decision. Defined.
#[global] Instance Member_eq_dec : EqDecision Member.
Proof. solve_decision. Defined.

End admin.

(** ** internal/config: the fields of [config.Config] the engine reads *)
Module config.

Record Config := {
  GoogleCredentials : string;
  GoogleAdmin : string;
  IsLambda : bool;
  IdentityStoreId : string;
  UserMatch : string;
  GroupMatch : string;
  IgnoreUsers : list string;
  IgnoreGroups : list string;
  IncludeGroups : list string;
}.

End config.

(** ** Calls through the client interfaces

    One constructor per method of [aws.Client] and per method of
    [google.Client] the engine uses, carrying the arguments of the call. *)
Inductive Call :=
| CreateUserCall (u : types.User)
| DeleteUserCall (u : types.User)
| DeleteGroupCall (g : types.Group)
| CreateGroupCall (name description : option string)
| AddUserToGroupCall (u : types.User) (g : types.Group)
| RemoveGroupMembershipCall (m : types.GroupMembership)
| GetGroupMembersCall (g : types.Group)
| GetGroupsCall
| GetUsersCall
| GoogleGetUsersCall (query : string)
| GoogleGetDeletedUsersCall
| GoogleGetGroupsCall (query : string)
| GoogleGetGroupMembersCall (g : admin.Group).

#[global] Instance Call_eq_dec : EqDecision Call.
Proof. solve_decision. Defined.

(** The six mutating methods of the target adapter. *)
Definition mutating (c : Call) : bool :=
  match c with
  | CreateUserCall _ | DeleteUserCall _ | DeleteGroupCall _
  | CreateGroupCall _ _ | AddUserToGroupCall _ _
  | RemoveGroupMembershipCall _ => true
  | _ => false
  end.

Definition mutations (t : list Call) : list Call :=
  filter (λ c, mutating c = true) t.

Definition isDeleteUser (c : Call) : bool :=
  match c with DeleteUserCall _ => true | _ => false end.

Definition isRemoveGroupMembership (c : Call) : bool :=
  match c with RemoveGroupMembershipCall _ => true | _ => false end.

Definition isAddUserToGroup (c : Call) : bool :=
  match c with AddUserToGroupCall _ _ => true | _ => false end.

(** ** The effect of running Go code

    A computation either returns or panics; in both cases it leaves a store
    state behind and has made a sequence of calls. *)
Inductive outcome (A : Type) :=
| Ok (a : A)
| Panic (msg : string).
Arguments Ok {A} a.
Arguments Panic {A} msg.

Definition nilDeref : string :=
  "invalid memory address or nil pointer dereference".

(** ** The Identity Store service behind [aws.Client]

    The SDK operations the wrapper calls.  A listing is what its paginator
    yields: a sequence of pages, each a page of items or an error; reading
    does not change the store. *)
Record IdentityStore (St : Type) := {
  sdk_CreateUser :
    option string → option string → option types.Name → list types.Email →
    St → (error + option string) * St;
  sdk_DeleteUser : option string → St → option error * St;
  sdk_DeleteGroup : option string → St → option error * St;
  sdk_CreateGroup :
    option string → option string → St → (error + option string) * St;
  sdk_CreateGroupMembership :
    option string → types.MemberId → St → (error + option string) * St;
  sdk_DeleteGroupMembership : option string → St → option error * St;
  sdk_ListGroupMemberships :
    option string → St → list (error + list types.GroupMembership);
  sdk_ListGroups : St → list (error + list types.Group);
  sdk_ListUsers : St → list (error + list types.User);
}.
Arguments sdk_CreateUser {St}.
Arguments sdk_DeleteUser {St}.
Arguments sdk_DeleteGroup {St}.
Arguments sdk_CreateGroup {St}.
Arguments sdk_CreateGroupMembership {St}.
Arguments sdk_DeleteGroupMembership {St}.
Arguments sdk_ListGroupMemberships {St}.
Arguments sdk_ListGroups {St}.
Arguments sdk_ListUsers {St}.

(** ** internal/google: the source adapter *)
Module google.

(** Modelled from the spec: the source adapter ([internal/google]) is not
    part of the sources at hand.  "ListUsers(filterQuery), ListDeletedUsers(),
    ListGroups(filterQuery), ListGroupMembers(sourceGroup)", each a finite
    sequence or a fetch error; read-only. *)
Record Client := {
  GetUsers : string → list admin.User * option error;
  GetDeletedUsers : list admin.User * option error;
  GetGroups : string → list admin.Group * option error;
  GetGroupMembers : admin.Group → list admin.Member * option error;
}.

End google.

(** The order in which a [for ... range] over a Go map visits its entries is
    chosen by the runtime. *)
Definition RangeOrder : Type := ∀ A : Type, gmap string A → list (string * A).

(** ** The engine, over an arbitrary store, source and runtime *)
Section Engine.

Context {St : Type}.

(** The [client] struct: the SDK handle and the identity store id. *)
Variable sdk : IdentityStore St.
Variable identityStoreId : option string.

(** A computation takes the store state and returns its outcome, the new
    store state and the calls it made. *)
Definition M (A : Type) : Type := St → outcome A * St * list Call.

Definition ret {A} (a : A) : M A := λ s, (Ok a, s, []).

Definition bind {A B} (m : M A) (f : A → M B) : M B :=
  λ s,
    match m s with
    | (Ok a, s', t) => let '(o, s'', t') := f a s' in (o, s'', t ++ t')
    | (Panic msg, s', t) => (Panic msg, s', t)
    end.

Definition panic {A} (msg : string) : M A := λ s, (Panic msg, s, []).

(** Record a call, then perform it on the store. *)
Definition call {A} (c : Call) (op : St → A * St) : M A :=
  λ s, let '(a, s') := op s in (Ok a, s', [c]).

(** Record a call that only reads the store. *)
Definition query {A} (c : Call) (rd : St → A) : M A :=
  λ s, (Ok (rd s), s, [c]).

Notation "'let*' p ':=' m 'in' k" := (bind m (λ p, k))
  (at level 10, p pattern, m at level 100, k at level 200).

(** *** internal/aws/client.go

    The methods that return a pointer and an error return [(nil, err)] or
    [(p, nil)]: a sum.  The listings return what they gathered and an error:
    a pair. *)

(** The paginator loop shared by [GetGroupMembers], [GetGroups] and
    [GetUsers]: append the pages to [res]; a failing page returns what was
    gathered so far together with the error. *)
Fixpoint drain {A} (res : list A) (pages : list (error + list A))
  : list A * option error :=
  match pages with
  | [] => (res, None)
  | inl err :: _ => (res, Some err)
  | inr output :: rest => drain (res ++ output) rest
  end.

Definition aws_CreateUser (u : types.User) : M (error + types.User) :=
  call (CreateUserCall u) (λ s,
    let '(res, s') :=
      sdk_CreateUser sdk (types.DisplayName u) (types.UserName u)
        (types.User_Name u) (types.Emails u) s in
    match res with
    | inl err => (inl err, s')
    | inr uid =>
        (inr {| types.UserId := uid;
                types.UserName := types.UserName u;
                types.DisplayName := types.DisplayName u;
                types.User_Name := types.User_Name u;
                types.Emails := types.Emails u;
                types.ExternalIds := types.ExternalIds u |}, s')
    end).

Definition aws_DeleteUser (u : types.User) : M (option error) :=
  call (DeleteUserCall u) (sdk_DeleteUser sdk (types.UserId u)).

Definition aws_DeleteGroup (g : types.Group) : M (option error) :=
  call (DeleteGroupCall g) (sdk_DeleteGroup sdk (types.GroupId g)).

Definition aws_CreateGroup (name description : option string)
  : M (error + types.Group) :=
  call (CreateGroupCall name description) (λ s,
    let '(res, s') := sdk_CreateGroup sdk name description s in
    match res with
    | inl err => (inl err, s')
    | inr gid =>
        (inr {| types.GroupId := gid;
                types.Group_DisplayName := name;
                types.Description := description |}, s')
    end).

Definition aws_AddUserToGroup (u : types.User) (g : types.Group)
  : M (error + types.GroupMembership) :=
  call (AddUserToGroupCall u g) (λ s,
    let memberId := types.MemberIdMemberUserId (ToString (types.UserId u)) in
    let '(res, s') :=
      sdk_CreateGroupMembership sdk (types.GroupId g) memberId s in
    match res with
    | inl err => (inl err, s')
    | inr mid =>
        (inr {| types.Membership_GroupId := types.GroupId g;
                types.IdentityStoreId := identityStoreId;
                types.Membership_MemberId := Some memberId;
                types.MembershipId := mid |}, s')
    end).

Definition aws_RemoveGroupMembership (membership : types.GroupMembership)
  : M (option error) :=
  call (RemoveGroupMembershipCall membership)
    (sdk_DeleteGroupMembership sdk (types.MembershipId membership)).

Definition aws_GetGroupMembers (g : types.Group)
  : M (list types.GroupMembership * option error) :=
  query (GetGroupMembersCall g)
    (λ s, drain [] (sdk_ListGroupMemberships sdk (types.GroupId g) s)).

Definition aws_GetGroups : M (list types.Group * option error) :=
  query GetGroupsCall (λ s, drain [] (sdk_ListGroups sdk s)).

Definition aws_GetUsers : M (list types.User * option error) :=
  query GetUsersCall (λ s, drain [] (sdk_ListUsers sdk s)).

(** *** internal/sync.go *)

Record UserSyncResult := {
  index : gmap string types.User;
  toDelete : list types.User;
  indexByUserId : gmap string types.User;
}.

(** The [syncGSuite] struct; its [aws] field is the client above. *)
Record syncGSuite := {
  google : google.Client;
  cfg : config.Config;
}.

Variable range : RangeOrder.

(** A call through the [google.Client] interface. *)
Definition google_call {A} (c : Call) (v : A) : M A := λ s, (Ok v, s, [c]).

Fixpoint ignoreUser_loop (l : list string) (name : string) : bool :=
  match l with
  | [] => false
  | u :: rest => if decide (u = name) then true else ignoreUser_loop rest name
  end.

Definition ignoreUser (s : syncGSuite) (name : string) : bool :=
  ignoreUser_loop (config.IgnoreUsers (cfg s)) name.

Fixpoint ignoreGroup_loop (l : list string) (name : string) : bool :=
  match l with
  | [] => false
  | g :: rest => if decide (g = name) then true else ignoreGroup_loop rest name
  end.

Definition ignoreGroup (s : syncGSuite) (name : string) : bool :=
  ignoreGroup_loop (config.IgnoreGroups (cfg s)) name.

(** [for _, u := range awsUsers] of [SyncUsers]. *)
Fixpoint SyncUsers_awsUsers (awsUsers : list types.User)
    (usersSyncResult : UserSyncResult) : UserSyncResult :=
  match awsUsers with
  | [] => usersSyncResult
  | u :: rest =>
      let userToAdd := u in
      SyncUsers_awsUsers rest
        {| index := <[ToString (types.UserName u) := userToAdd]>
                      (index usersSyncResult);
           toDelete := toDelete usersSyncResult;
           indexByUserId := <[ToString (types.UserId u) := userToAdd]>
                              (indexByUserId usersSyncResult) |}
  end.

(** [for _, u := range gcpDeletedUsers] of [SyncUsers]. *)
Fixpoint SyncUsers_gcpDeletedUsers (gcpDeletedUsers : list admin.User)
    (usersSyncResult : UserSyncResult) : UserSyncResult :=
  match gcpDeletedUsers with
  | [] => usersSyncResult
  | u :: rest =>
      match index usersSyncResult !! admin.PrimaryEmail u with
      | None => SyncUsers_gcpDeletedUsers rest usersSyncResult
      | Some userInAWS =>
          SyncUsers_gcpDeletedUsers rest
            {| index := index usersSyncResult;
               toDelete := toDelete usersSyncResult ++ [userInAWS];
               indexByUserId := indexByUserId usersSyncResult |}
      end
  end.

(** The [types.User] literal built for a user missing from the target. *)
Definition userToAdd (u : admin.User) : types.User :=
  {| types.UserId := None;
     types.UserName := String (admin.PrimaryEmail u);
     types.DisplayName :=
       String (Join [admin.GivenName (admin.Name u);
                     admin.FamilyName (admin.Name u)] " ");
     types.User_Name :=
       Some {| types.FamilyName := String (admin.FamilyName (admin.Name u));
               types.GivenName := String (admin.GivenName (admin.Name u)) |};
     types.Emails :=
       [ {| types.Primary := true;
            types.Type_ := String "work";
            types.Value := String (admin.PrimaryEmail u) |} ];
     types.ExternalIds :=
       [ {| types.Id := String (admin.Id u);
            types.Issuer := String "Google" |} ] |}.

(** The body of [for _, u := range googleUsers] of [SyncUsers]. *)
Definition SyncUsers_googleUser (s : syncGSuite) (u : admin.User)
    (usersSyncResult : UserSyncResult) : M UserSyncResult :=
  if ignoreUser s (admin.PrimaryEmail u) then ret usersSyncResult
  else
    match index usersSyncResult !! admin.PrimaryEmail u with
    | Some userInAWS =>
        if admin.Suspended u then
          ret {| index := index usersSyncResult;
                 toDelete := toDelete usersSyncResult ++ [userInAWS];
                 indexByUserId := indexByUserId usersSyncResult |}
        else ret usersSyncResult
    | None =>
        if admin.Suspended u then ret usersSyncResult
        else
          let* res := aws_CreateUser (userToAdd u) in
          match res with
          | inl err => ret usersSyncResult
          | inr added =>
              ret {| index := <[admin.PrimaryEmail u := added]>
                                (index usersSyncResult);
                     toDelete := toDelete usersSyncResult;
                     indexByUserId :=
                       <[ToString (types.UserId added) := added]>
                         (indexByUserId usersSyncResult) |}
          end
    end.

Fixpoint SyncUsers_googleUsers (s : syncGSuite) (googleUsers : list admin.User)
    (usersSyncResult : UserSyncResult) : M UserSyncResult :=
  match googleUsers with
  | [] => ret usersSyncResult
  | u :: rest =>
      let* usersSyncResult := SyncUsers_googleUser s u usersSyncResult in
      SyncUsers_googleUsers s rest usersSyncResult
  end.

Definition SyncUsers (s : syncGSuite) (query : string)
  : M (UserSyncResult * option error) :=
  let usersSyncResult :=
    {| index := ∅; toDelete := []; indexByUserId := ∅ |} in
  let* (awsUsers, err) := aws_GetUsers in
  match err with
  | Some err => ret (usersSyncResult, Some err)
  | None =>
      let usersSyncResult := SyncUsers_awsUsers awsUsers usersSyncResult in
      let* (gcpDeletedUsers, err) :=
        google_call GoogleGetDeletedUsersCall
          (google.GetDeletedUsers (google s)) in
      match err with
      | Some err => ret (usersSyncResult, Some err)
      | None =>
          let usersSyncResult :=
            SyncUsers_gcpDeletedUsers gcpDeletedUsers usersSyncResult in
          let* (googleUsers, err) :=
            google_call (GoogleGetUsersCall query)
              (google.GetUsers (google s) query) in
          match err with
          | Some err => ret (usersSyncResult, Some err)
          | None =>
              let* usersSyncResult :=
                SyncUsers_googleUsers s googleUsers usersSyncResult in
              ret (usersSyncResult, None)
          end
      end
  end.

(** [for _, m := range groupMembers] of [SyncMembershipsForGroup]. *)
Fixpoint SyncMembershipsForGroup_groupMembers
    (groupMembers : list admin.Member) (usersSyncResult : UserSyncResult)
    (memberList : gmap string types.User) : gmap string types.User :=
  match groupMembers with
  | [] => memberList
  | m :: rest =>
      match index usersSyncResult !! admin.Member_Email m with
      | Some val =>
          SyncMembershipsForGroup_groupMembers rest usersSyncResult
            (<[admin.Member_Email m := val]> memberList)
      | None =>
          SyncMembershipsForGroup_groupMembers rest usersSyncResult memberList
      end
  end.

(** [for _, m := range awsMembers] of [SyncMembershipsForGroup].  When the
    type assertion on [m.MemberId] fails, [userId] is a nil pointer and
    [userId.Value] is evaluated all the same. *)
Fixpoint SyncMembershipsForGroup_awsMembers
    (awsMembers : list types.GroupMembership)
    (usersSyncResult : UserSyncResult)
    (toDelete : list types.GroupMembership)
    (memberList : gmap string types.User)
  : outcome (list types.GroupMembership * gmap string types.User) :=
  match awsMembers with
  | [] => Ok (toDelete, memberList)
  | m :: rest =>
      let awsMember := m in
      match types.Membership_MemberId m with
      | Some (types.MemberIdMemberUserId userId_Value) =>
          match indexByUserId usersSyncResult !! userId_Value with
          | None =>
              SyncMembershipsForGroup_awsMembers rest usersSyncResult
                (toDelete ++ [awsMember]) memberList
          | Some user =>
              let toDelete :=
                match memberList !! ToString (types.UserName user) with
                | None => toDelete ++ [awsMember]
                | Some _ => toDelete
                end in
              SyncMembershipsForGroup_awsMembers rest usersSyncResult toDelete
                (delete (ToString (types.UserName user)) memberList)
          end
      | _ => Panic nilDeref
      end
  end.

(** [for _, val := range toDelete] of [SyncMembershipsForGroup]. *)
Fixpoint SyncMembershipsForGroup_remove
    (toDelete : list types.GroupMembership) : M (option error) :=
  match toDelete with
  | [] => ret None
  | val :: rest =>
      let* err := aws_RemoveGroupMembership val in
      match err with
      | Some err => ret (Some err)
      | None => SyncMembershipsForGroup_remove rest
      end
  end.

(** [for _, element := range memberList] of [SyncMembershipsForGroup]. *)
Fixpoint SyncMembershipsForGroup_add
    (memberList : list (string * types.User)) (awsGroup : types.Group)
  : M (option error) :=
  match memberList with
  | [] => ret None
  | (_, element) :: rest =>
      let* res := aws_AddUserToGroup element awsGroup in
      match res with
      | inl err => ret (Some err)
      | inr _ => SyncMembershipsForGroup_add rest awsGroup
      end
  end.

Definition SyncMembershipsForGroup (s : syncGSuite)
    (googleGroup : option admin.Group) (awsGroup : types.Group)
    (usersSyncResult : UserSyncResult) : M (option error) :=
  match googleGroup with
  | None => panic nilDeref (* googleGroup.Name *)
  | Some googleGroup =>
      let* (groupMembers, err) :=
        google_call (GoogleGetGroupMembersCall googleGroup)
          (google.GetGroupMembers (google s) googleGroup) in
      match err with
      | Some err => ret (Some err)
      | None =>
          let memberList :=
            SyncMembershipsForGroup_groupMembers groupMembers
              usersSyncResult ∅ in
          let* (awsMembers, err) := aws_GetGroupMembers awsGroup in
          match err with
          | Some err => ret (Some err)
          | None =>
              match SyncMembershipsForGroup_awsMembers awsMembers
                      usersSyncResult [] memberList with
              | Panic msg => panic msg
              | Ok (toDelete, memberList) =>
                  let* err := SyncMembershipsForGroup_remove toDelete in
                  match err with
                  | Some err => ret (Some err)
                  | None =>
                      SyncMembershipsForGroup_add (range _ memberList) awsGroup
                  end
              end
          end
      end
  end.

(** [for _, u := range awsGroups] of [SyncGroups] (the first one). *)
Fixpoint SyncGroups_awsGroups (awsGroups : list types.Group)
    (groupsIndex : gmap string types.Group) : gmap string types.Group :=
  match awsGroups with
  | [] => groupsIndex
  | u :: rest =>
      let grp := u in
      SyncGroups_awsGroups rest
        (<[ToString (types.Group_DisplayName u) := grp]> groupsIndex)
  end.

(** The body of [for _, g := range googleGroups] of [SyncGroups]. *)
Definition SyncGroups_googleGroup (s : syncGSuite) (g : admin.Group)
    (googleGroupsIndex : gmap string admin.Group)
    (groupsIndex : gmap string types.Group)
  : M (gmap string admin.Group * gmap string types.Group) :=
  if ignoreGroup s (admin.Group_Email g) then
    ret (googleGroupsIndex, groupsIndex)
  else
    let googleGroupsIndex := <[admin.Group_Name g := g]> googleGroupsIndex in
    match groupsIndex !! admin.Group_Name g with
    | Some _ => ret (googleGroupsIndex, groupsIndex)
    | None =>
        let* res :=
          aws_CreateGroup (String (admin.Group_Name g))
            (String (admin.Group_Description g)) in
        match res with
        | inl err => ret (googleGroupsIndex, groupsIndex)
        | inr gg =>
            ret (googleGroupsIndex,
                 <[ToString (types.Group_DisplayName gg) := gg]> groupsIndex)
        end
    end.

Fixpoint SyncGroups_googleGroups (s : syncGSuite)
    (googleGroups : list admin.Group)
    (googleGroupsIndex : gmap string admin.Group)
    (groupsIndex : gmap string types.Group)
  : M (gmap string admin.Group * gmap string types.Group) :=
  match googleGroups with
  | [] => ret (googleGroupsIndex, groupsIndex)
  | g :: rest =>
      let* (googleGroupsIndex, groupsIndex) :=
        SyncGroups_googleGroup s g googleGroupsIndex groupsIndex in
      SyncGroups_googleGroups s rest googleGroupsIndex groupsIndex
  end.

(** [for _, g := range awsGroups] of [SyncGroups] (the second one). *)
Fixpoint SyncGroups_groupsToDelete (awsGroups : list types.Group)
    (googleGroupsIndex : gmap string admin.Group)
    (groupsToDelete : list types.Group)
    (groupsIndex : gmap string types.Group)
  : list types.Group * gmap string types.Group :=
  match awsGroups with
  | [] => (groupsToDelete, groupsIndex)
  | g :: rest =>
      match googleGroupsIndex !! ToString (types.Group_DisplayName g) with
      | None =>
          let grp := g in
          SyncGroups_groupsToDelete rest googleGroupsIndex
            (groupsToDelete ++ [grp])
            (delete (ToString (types.Group_DisplayName g)) groupsIndex)
      | Some _ =>
          SyncGroups_groupsToDelete rest googleGroupsIndex groupsToDelete
            groupsIndex
      end
  end.

(** [for _, g := range groupsIndex] of [SyncGroups]. *)
Fixpoint SyncGroups_memberships (s : syncGSuite)
    (groupsIndex : list (string * types.Group))
    (googleGroupsIndex : gmap string admin.Group)
    (usersSyncResult : UserSyncResult) : M (option error) :=
  match groupsIndex with
  | [] => ret None
  | (_, g) :: rest =>
      let val := googleGroupsIndex !! ToString (types.Group_DisplayName g) in
      let* err := SyncMembershipsForGroup s val g usersSyncResult in
      match err with
      | Some err => ret (Some err)
      | None => SyncGroups_memberships s rest googleGroupsIndex usersSyncResult
      end
  end.

(** [for _, g := range groupsToDelete] of [SyncGroups]. *)
Fixpoint SyncGroups_delete (groupsToDelete : list types.Group)
  : M (option error) :=
  match groupsToDelete with
  | [] => ret None
  | g :: rest =>
      let* err := aws_DeleteGroup g in
      match err with
      | Some err => ret (Some err)
      | None => SyncGroups_delete rest
      end
  end.

Definition SyncGroups (s : syncGSuite) (query : string)
    (usersSyncResult : UserSyncResult) : M (option error) :=
  let* (awsGroups, err) := aws_GetGroups in
  match err with
  | Some err => ret (Some err)
  | None =>
      let groupsIndex := SyncGroups_awsGroups awsGroups ∅ in
      let* (googleGroups, err) :=
        google_call (GoogleGetGroupsCall query)
          (google.GetGroups (google s) query) in
      match err with
      | Some err => ret (Some err)
      | None =>
          let* (googleGroupsIndex, groupsIndex) :=
            SyncGroups_googleGroups s googleGroups ∅ groupsIndex in
          let '(groupsToDelete, groupsIndex) :=
            SyncGroups_groupsToDelete awsGroups googleGroupsIndex []
              groupsIndex in
          let* err :=
            SyncGroups_memberships s (range _ groupsIndex) googleGroupsIndex
              usersSyncResult in
          match err with
          | Some err => ret (Some err)
          | None => SyncGroups_delete groupsToDelete
          end
      end
  end.

Fixpoint RemoveUsers (usersList : list types.User) : M (option error) :=
  match usersList with
  | [] => ret None
  | u :: rest =>
      let* err := aws_DeleteUser u in
      match err with
      | Some err => ret (Some err)
      | None => RemoveUsers rest
      end
  end.

(** The part of [DoSync] that follows [c := New(cfg, awsClient,
    googleClient)]. *)
Definition DoSync_run (c : syncGSuite) : M (option error) :=
  let* (syncResult, err) := SyncUsers c (config.UserMatch (cfg c)) in
  match err with
  | Some err => ret (Some err)
  | None =>
      let* err := SyncGroups c (config.GroupMatch (cfg c)) syncResult in
      match err with
      | Some err => ret (Some err)
      | None => RemoveUsers (toDelete syncResult)
      end
  end.

(** What [DoSync] takes from its surroundings: the file system and the
    constructor of the source adapter. *)
Record Host := {
  ReadFile : string → string * option error;
  NewClient : string → string → error + google.Client;
}.

Definition DoSync (host : Host) (cfg : config.Config) : M (option error) :=
  let creds := config.GoogleCredentials cfg in
  let readCreds :=
    if negb (config.IsLambda cfg) then
      match ReadFile host (config.GoogleCredentials cfg) with
      | (_, Some err) => inl err
      | (b, None) => inr b
      end
    else inr creds in
  match readCreds with
  | inl err => ret (Some err)
  | inr creds =>
      match NewClient host (config.GoogleAdmin cfg) creds with
      | inl err => ret (Some err)
      | inr googleClient =>
          DoSync_run {| google := googleClient; cfg := cfg |}
      end
  end.

(** What a computation did from a given store state. *)
Definition result {A} (m : M A) (st : St) : outcome A := (m st).1.1.
Definition final {A} (m : M A) (st : St) : St := (m st).1.2.
Definition trace {A} (m : M A) (st : St) : list Call := (m st).2.

End Engine.

Arguments M St A : clear implicits.

(** ** internal/config/secrets.go *)
Module secrets.

(** The fields of [secretsmanager.GetSecretValueOutput] that [getSecret]
    reads.  A [[]byte] is a string. *)
Record GetSecretValueOutput := {
  SecretString : option string;
  SecretBinary : string;
}.

(** The [Secrets] struct: [svc] answers [GetSecretValue] for a secret id and
    a version stage with a reply or an error. *)
Record Secrets := {
  svc : string → string → error + GetSecretValueOutput;
}.

(** What [getSecret] uses of [base64.StdEncoding]: [DecodedLen], and
    [Decode dst src], which gives the number of bytes written, the error and
    [dst] as the call left it. *)
Record Encoding := {
  DecodedLen : nat → nat;
  Decode : string → string → (nat * option error) * string;
}.

(** [make([]byte, n)] *)
Fixpoint make (n : nat) : string :=
  match n with
  | 0 => EmptyString
  | S n => String.String Ascii.zero (make n)
  end.

(** [string(b[:l])]: slicing beyond the length of [b] panics. *)
Definition slice_to (b : string) (l : nat) : outcome string :=
  if decide (l ≤ String.length b) then Ok (String.substring 0 l b)
  else Panic "slice bounds out of range".

Definition getSecret (std : Encoding) (s : Secrets) (secretKey : string)
  : outcome (string * option error) :=
  match svc s secretKey "AWSCURRENT" with
  | inl err => Ok (EmptyString, Some err)
  | inr r =>
      match SecretString r with
      | Some secretString => Ok (secretString, None)
      | None =>
          let decodedBinarySecretBytes :=
            make (DecodedLen std (String.length (SecretBinary r))) in
          let '((l, err), decodedBinarySecretBytes) :=
            Decode std decodedBinarySecretBytes (SecretBinary r) in
          match err with
          | Some err => Ok (EmptyString, Some err)
          | None =>
              match slice_to decodedBinarySecretBytes l with
              | Ok secretString => Ok (secretString, None)
              | Panic msg => Panic msg
              end
          end
      end
  end.

Definition GoogleAdminEmail (std : Encoding) (s : Secrets)
  : outcome (string * option error) :=
  getSecret std s "SSOSyncGoogleAdminEmail".

Definition GoogleCredentials (std : Encoding) (s : Secrets)
  : outcome (string * option error) :=
  getSecret std s "SSOSyncGoogleCredentials".

End secrets.

(** ** An in-memory identity store

    A store that holds users, groups and memberships in lists and hands out
    the ids of [fresh], in order, to the entities it creates; a create fails
    when no id is left, a delete fails on an id the store does not hold.
    Each listing comes as a single page. *)
Module memstore.

Record state := {
  users : list types.User;
  groups : list types.Group;
  memberships : list types.GroupMembership;
  fresh : list string;
}.

Definition notFound : error := Err "ResourceNotFoundException".
Definition noId : error := Err "ServiceQuotaExceededException".

Definition hasId (id : option string) (x : option string) : bool :=
  bool_decide (x = id).

Definition memberOf (id : option string) (m : types.GroupMembership) : bool :=
  match types.Membership_MemberId m, id with
  | Some (types.MemberIdMemberUserId v), Some i => bool_decide (v = i)
  | _, _ => false
  end.

Definition CreateUser (displayName userName : option string)
    (name : option types.Name) (emails : list types.Email) (s : state)
  : (error + option string) * state :=
  match fresh s with
  | [] => (inl noId, s)
  | id :: rest =>
      (inr (Some id),
       {| users := users s ++
            [ {| types.UserId := Some id; types.UserName := userName;
                 types.DisplayName := displayName; types.User_Name := name;
                 types.Emails := emails; types.ExternalIds := [] |} ];
          groups := groups s; memberships := memberships s; fresh := rest |})
  end.

Definition DeleteUser (userId : option string) (s : state)
  : option error * state :=
  if existsb (λ u, hasId userId (types.UserId u)) (users s) then
    (None,
     {| users := filter (λ u, hasId userId (types.UserId u) = false) (users s);
        groups := groups s;
        memberships := filter (λ m, memberOf userId m = false) (memberships s);
        fresh := fresh s |})
  else (Some notFound, s).

Definition CreateGroup (displayName description : option string) (s : state)
  : (error + option string) * state :=
  match fresh s with
  | [] => (inl noId, s)
  | id :: rest =>
      (inr (Some id),
       {| users := users s;
          groups := groups s ++
            [ {| types.GroupId := Some id;
                 types.Group_DisplayName := displayName;
                 types.Description := description |} ];
          memberships := memberships s; fresh := rest |})
  end.

Definition DeleteGroup (groupId : option string) (s : state)
  : option error * state :=
  if existsb (λ g, hasId groupId (types.GroupId g)) (groups s) then
    (None,
     {| users := users s;
        groups :=
          filter (λ g, hasId groupId (types.GroupId g) = false) (groups s);
        memberships :=
          filter (λ m, hasId groupId (types.Membership_GroupId m) = false)
            (memberships s);
        fresh := fresh s |})
  else (Some notFound, s).

Definition CreateGroupMembership (groupId : option string)
    (memberId : types.MemberId) (s : state)
  : (error + option string) * state :=
  match fresh s with
  | [] => (inl noId, s)
  | id :: rest =>
      (inr (Some id),
       {| users := users s; groups := groups s;
          memberships := memberships s ++
            [ {| types.Membership_GroupId := groupId;
                 types.IdentityStoreId := None;
                 types.Membership_MemberId := Some memberId;
                 types.MembershipId := Some id |} ];
          fresh := rest |})
  end.

Definition DeleteGroupMembership (membershipId : option string) (s : state)
  : option error * state :=
  if existsb (λ m, hasId membershipId (types.MembershipId m)) (memberships s)
  then
    (None,
     {| users := users s; groups := groups s;
        memberships :=
          filter (λ m, hasId membershipId (types.MembershipId m) = false)
            (memberships s);
        fresh := fresh s |})
  else (Some notFound, s).

Definition sdk : IdentityStore state :=
  {| sdk_CreateUser := CreateUser;
     sdk_DeleteUser := DeleteUser;
     sdk_DeleteGroup := DeleteGroup;
     sdk_CreateGroup := CreateGroup;
     sdk_CreateGroupMembership := CreateGroupMembership;
     sdk_DeleteGroupMembership := DeleteGroupMembership;
     sdk_ListGroupMemberships := λ groupId s,
       [inr (filter (λ m, hasId groupId (types.Membership_GroupId m) = true)
               (memberships s))];
     sdk_ListGroups := λ s, [inr (groups s)];
     sdk_ListUsers := λ s, [inr (users s)] |}.

(** What a call does to the store. *)
Definition apply (c : Call) (s : state) : state :=
  match c with
  | CreateUserCall u =>
      (CreateUser (types.DisplayName u) (types.UserName u)
         (types.User_Name u) (types.Emails u) s).2
  | DeleteUserCall u => (DeleteUser (types.UserId u) s).2
  | DeleteGroupCall g => (DeleteGroup (types.GroupId g) s).2
  | CreateGroupCall name description => (CreateGroup name description s).2
  | AddUserToGroupCall u g =>
      (CreateGroupMembership (types.GroupId g)
         (types.MemberIdMemberUserId (ToString (types.UserId u))) s).2
  | RemoveGroupMembershipCall m =>
      (DeleteGroupMembership (types.MembershipId m) s).2
  | _ => s
  end.

(** The store after a sequence of calls. *)
Definition after (t : list Call) (s : state) : state :=
  foldl (λ s c, apply c s) s t.

(** The (group, member) pairs of the memberships the store holds. *)
Definition pairs (s : state)
  : list (option string * option types.MemberId) :=
  (λ m, (types.Membership_GroupId m, types.Membership_MemberId m))
    <$> memberships s.

(** The pair an addition brings. *)
Definition added (g : types.Group) (x : string * types.User)
  : option string * option types.MemberId :=
  (types.GroupId g,
   Some (types.MemberIdMemberUserId (ToString (types.UserId x.2)))).

(** The runtime that visits a map's entries in the order of
    [map_to_list]. *)
Definition range : RangeOrder := λ A m, map_to_list m.

(** The runtime that visits them in the opposite order. *)
Definition reversed : RangeOrder := λ A m, reverse (map_to_list m).

End memstore.

(** ** Scenarios *)
Module scenario.

Definition user (id name : string) : types.User :=
  {| types.UserId := Some id; types.UserName := Some name;
     types.DisplayName := Some name; types.User_Name := None;
     types.Emails := []; types.ExternalIds := [] |}.

Definition guser (email : string) (suspended : bool) : admin.User :=
  {| admin.PrimaryEmail := email;
     admin.Name := {| admin.GivenName := "Ada"; admin.FamilyName := "Lovelace" |};
     admin.Suspended := suspended; admin.Id := "g-" +:+ email |}.

Definition group (id name : string) : types.Group :=
  {| types.GroupId := Some id; types.Group_DisplayName := Some name;
     types.Description := None |}.

Definition ggroup (name email : string) : admin.Group :=
  {| admin.Group_Name := name; admin.Group_Description := EmptyString;
     admin.Group_Email := email |}.

Definition membership (id gid uid : string) : types.GroupMembership :=
  {| types.Membership_GroupId := Some gid; types.IdentityStoreId := None;
     types.Membership_MemberId := Some (types.MemberIdMemberUserId uid);
     types.MembershipId := Some id |}.

(** A source directory given by its four listings. *)
Definition source (deleted active : list admin.User)
    (groups : list admin.Group)
    (members : admin.Group → list admin.Member) : google.Client :=
  {| google.GetUsers := λ _, (active, None);
     google.GetDeletedUsers := (deleted, None);
     google.GetGroups := λ _, (groups, None);
     google.GetGroupMembers := λ g, (members g, None) |}.

Definition config (ignoreUsers ignoreGroups : list string) : config.Config :=
  {| config.GoogleCredentials := EmptyString;
     config.GoogleAdmin := EmptyString;
     config.IsLambda := true; config.IdentityStoreId := "d-1";
     config.UserMatch := EmptyString; config.GroupMatch := EmptyString;
     config.IgnoreUsers := ignoreUsers; config.IgnoreGroups := ignoreGroups;
     config.IncludeGroups := [] |}.

Definition store (users : list types.User) (groups : list types.Group)
    (memberships : list types.GroupMembership) (fresh : list string)
  : memstore.state :=
  {| memstore.users := users; memstore.groups := groups;
     memstore.memberships := memberships; memstore.fresh := fresh |}.

(** A host whose source adapter is the given one. *)
Definition host (googleClient : google.Client) : Host :=
  {| ReadFile := λ _, (EmptyString, None);
     NewClient := λ _ _, inr googleClient |}.

Definition no_users : UserSyncResult :=
  {| index := ∅; toDelete := []; indexByUserId := ∅ |}.

(** An engine over an empty source directory with the given ignore lists. *)
Definition ignoring (ignoreUsers ignoreGroups : list string) : syncGSuite :=
  {| google := source [] [] [] (λ _, []);
     cfg := config ignoreUsers ignoreGroups |}.

End scenario.

(** ** Vocabulary of the statements *)

(** Every entry of a target index sits under its group's display name. *)
Definition keyed (groupsIndex : gmap string types.Group) : Prop :=
  ∀ k g, groupsIndex !! k = Some g → ToString (types.Group_DisplayName g) = k.

(** The source groups the ignore list lets through. *)
Definition kept (s : syncGSuite) (googleGroups : list admin.Group)
    (k : string) : Prop :=
  ∃ g, g ∈ googleGroups ∧
       (admin.Group_Email g ∉ config.IgnoreGroups (cfg s)) ∧
       admin.Group_Name g = k.



(** A runtime visits entries of the map it ranges over. *)
Definition visits_entries (range : RangeOrder) : Prop :=
  ∀ A (m : gmap string A) k v, (k, v) ∈ range A m → m !! k = Some v.

(** What [SyncUsers] may call: the three listings, and [CreateUser] for a
    listed source user that is neither ignored nor suspended. *)
Definition SyncUsers_call (s : syncGSuite) (query : string) (c : Call)
  : Prop :=
  match c with
  | GetUsersCall | GoogleGetDeletedUsersCall => True
  | GoogleGetUsersCall q => q = query
  | CreateUserCall u =>
      ∃ g, g ∈ (google.GetUsers (google s) query).1 ∧
           (admin.PrimaryEmail g ∉ config.IgnoreUsers (cfg s)) ∧
           admin.Suspended g = false ∧
           u = userToAdd g
  | _ => False
  end.

(** What [SyncGroups] may call: the listings, [CreateGroup] for a listed
    source group whose email is not ignored, the membership calls and
    [DeleteGroup]. *)
Definition SyncGroups_call (s : syncGSuite) (query : string) (c : Call)
  : Prop :=
  match c with
  | GetGroupsCall => True
  | GoogleGetGroupsCall q => q = query
  | CreateGroupCall name description =>
      ∃ g, g ∈ (google.GetGroups (google s) query).1 ∧
           (admin.Group_Email g ∉ config.IgnoreGroups (cfg s)) ∧
           name = Some (admin.Group_Name g) ∧
           description = Some (admin.Group_Description g)
  | GoogleGetGroupMembersCall _ | GetGroupMembersCall _
  | RemoveGroupMembershipCall _ | AddUserToGroupCall _ _
  | DeleteGroupCall _ => True
  | _ => False
  end.

(** Every call a computation makes, from any store state, satisfies [P]. *)
Definition emits {St A} (P : Call → Prop) (m : M St A) : Prop :=
  ∀ st, Forall P (trace m st).

(** What the body of the loop over the active source users appends to
    [toDelete]. *)
Definition pending (s : syncGSuite) (u : admin.User)
    (usersSyncResult : UserSyncResult) : list types.User :=
  if ignoreUser s (admin.PrimaryEmail u) then []
  else
    match index usersSyncResult !! admin.PrimaryEmail u with
    | Some userInAWS => if admin.Suspended u then [userInAWS] else []
    | None => []
    end.

(** Every user marked for deletion has an entry in the index. *)
Definition held (usersSyncResult : UserSyncResult) : Prop :=
  ∀ u, u ∈ toDelete usersSyncResult →
       ∃ k, index usersSyncResult !! k = Some u.

(** Two store states present the same target snapshot: the same users, the
    same groups and, for every group id, the same memberships. *)
Definition same_target {St} (sdk : IdentityStore St) (st1 st2 : St) : Prop :=
  sdk_ListUsers sdk st1 = sdk_ListUsers sdk st2 ∧
  sdk_ListGroups sdk st1 = sdk_ListGroups sdk st2 ∧
  ∀ groupId,
    sdk_ListGroupMemberships sdk groupId st1
    = sdk_ListGroupMemberships sdk groupId st2.

(** A runtime visits the entries of the map it ranges over, each once, in
    some order. *)
Definition permutes (range : RangeOrder) : Prop :=
  ∀ A (m : gmap string A), range A m ≡ₚ map_to_list m.

(** A computation makes no mutating call from a store state. *)
Definition quiet {St A} (m : M St A) (st : St) : Prop :=
  mutations (trace m st) = [].

(** Idempotence on identical snapshots: when the run that follows a run of
    [DoSync] is presented the target snapshot its predecessor was presented
    (the source snapshot being that of the same host), it makes no mutating
    call. *)
Definition idempotent_on_identical_snapshots {St} (sdk : IdentityStore St)
    (identityStoreId : option string) (range : RangeOrder) (host : Host)
    (c : config.Config) (st : St) : Prop :=
  let st' := final (DoSync sdk identityStoreId range host c) st in
  same_target sdk st st' →
  mutations (trace (DoSync sdk identityStoreId range host c) st') = [].

(** On two states that present the same target snapshot, a computation that
    is quiet on the first leaves both states as they are, returns the same
    on both and is quiet on the second. *)
Definition stable {St A} (sdk : IdentityStore St) (m : M St A) : Prop :=
  ∀ st1 st2,
    same_target sdk st1 st2 → quiet m st1 →
    final m st1 = st1 ∧ final m st2 = st2 ∧
    result m st2 = result m st1 ∧ quiet m st2.

(** The same for two computations, of which the first returns no error. *)
Definition follows {St} (sdk : IdentityStore St)
    (m1 m2 : M St (option error)) : Prop :=
  ∀ st1 st2,
    same_target sdk st1 st2 → quiet m1 st1 → result m1 st1 = Ok None →
    final m1 st1 = st1 ∧ final m2 st2 = st2 ∧
    result m2 st2 = Ok None ∧ quiet m2 st2.

(** The two indexes agree: the user indexed under a username is, by its id,
    indexed as a user of that username. *)
Definition consistent (usersSyncResult : UserSyncResult) : Prop :=
  ∀ e u, index usersSyncResult !! e = Some u →
    ∃ u', indexByUserId usersSyncResult !! ToString (types.UserId u) = Some u' ∧
          ToString (types.UserName u') = e.

(** The kinds of call [SyncGroups] makes. *)
Definition isCreateGroup (c : Call) : bool :=
  match c with CreateGroupCall _ _ => true | _ => false end.

Definition isDeleteGroup (c : Call) : bool :=
  match c with DeleteGroupCall _ => true | _ => false end.

Definition isMembershipCall (c : Call) : bool :=
  match c with
  | GoogleGetGroupMembersCall _ | GetGroupMembersCall _
  | RemoveGroupMembershipCall _ | AddUserToGroupCall _ _ => true
  | _ => false
  end.

(** The username a target membership resolves to: that of the user indexed
    under its member's user id, if the member is a user id and the index has
    it. *)
Definition resolved (usersSyncResult : UserSyncResult)
    (m : types.GroupMembership) : option string :=
  match types.Membership_MemberId m with
  | Some (types.MemberIdMemberUserId v) =>
      (λ user, ToString (types.UserName user))
        <$> indexByUserId usersSyncResult !! v
  | _ => None
  end.

(** Both user indexes are keyed by what they index: [index] by the username,
    [indexByUserId] by the user id. *)
Definition keyedUsers (usersSyncResult : UserSyncResult) : Prop :=
  (∀ k u, index usersSyncResult !! k = Some u →
          ToString (types.UserName u) = k) ∧
  (∀ k u, indexByUserId usersSyncResult !! k = Some u →
          ToString (types.UserId u) = k).

(** A username the source wants in a group: a listed source member carries
    it and the index has a user under it. *)
Definition wanted (usersSyncResult : UserSyncResult)
    (groupMembers : list admin.Member) (k : string) : Prop :=
  k ∈ admin.Member_Email <$> groupMembers ∧
  is_Some (index usersSyncResult !! k).

(** A target membership whose member id is not a user id. *)
Definition notUserId (m : types.GroupMembership) : Prop :=
  ∀ v, types.Membership_MemberId m ≠ Some (types.MemberIdMemberUserId v).

(** What [DoSync] hands to [google.NewClient] as credentials: the text of
    the configuration in Lambda mode, else the content of the file of that
    name, if it can be read. *)
Definition credentials (host : Host) (c : config.Config)
  : error + string :=
  if config.IsLambda c then inr (config.GoogleCredentials c)
  else
    match ReadFile host (config.GoogleCredentials c) with
    | (_, Some err) => inl err
    | (b, None) => inr b
    end.

(** * Properties *)

Section Properties.

Context {St : Type}.
Variable sdk : IdentityStore St.
Variable identityStoreId : option string.
Variable range : RangeOrder.

#[local] Abbreviation M := (M St).

(** ** Running [bind] *)

Lemma run_bind {A B} (m : M A) (f : A → M B) st :
  bind m f st =
    match result m st with
    | Ok a =>
        (result (f a) (final m st), final (f a) (final m st),
         trace m st ++ trace (f a) (final m st))
    | Panic msg => (Panic msg, final m st, trace m st)
    end.
Proof.
  unfold bind, result, final, trace.
  destruct (m st) as [[[a|msg] st'] t]; simpl; [|done].
  by destruct (f a st') as [[o st''] t'].
Qed.

Lemma trace_bind {A B} (m : M A) (f : A → M B) st :
  trace (bind m f) st =
    trace m st ++
    match result m st with
    | Ok a => trace (f a) (final m st)
    | Panic _ => []
    end.
Proof.
  unfold trace at 1. rewrite run_bind.
  destruct (result m st); simpl; [done|]. by rewrite app_nil_r.
Qed.

Lemma result_bind {A B} (m : M A) (f : A → M B) st :
  result (bind m f) st =
    match result m st with
    | Ok a => result (f a) (final m st)
    | Panic msg => Panic msg
    end.
Proof. unfold result at 1. rewrite run_bind. by destruct (result m st). Qed.

Lemma final_bind {A B} (m : M A) (f : A → M B) st :
  final (bind m f) st =
    match result m st with
    | Ok a => final (f a) (final m st)
    | Panic msg => final m st
    end.
Proof. unfold final at 1. rewrite run_bind. by destruct (result m st). Qed.

Lemma run_eta {A} (m : M A) st : m st = (result m st, final m st, trace m st).
Proof. unfold result, final, trace. by destruct (m st) as [[? ?] ?]. Qed.

Lemma run_bind_query {A B} c (rd : St → A) (f : A → M B) st :
  bind (query c rd) f st
  = (result (f (rd st)) st, final (f (rd st)) st, c :: trace (f (rd st)) st).
Proof. by rewrite run_bind. Qed.

Lemma run_bind_google_call {A B} c (v : A) (f : A → M B) st :
  bind (google_call c v) f st
  = (result (f v) st, final (f v) st, c :: trace (f v) st).
Proof. by rewrite run_bind. Qed.

Lemma result_bind_query {A B} c (rd : St → A) (f : A → M B) st :
  result (bind (query c rd) f) st = result (f (rd st)) st.
Proof. unfold result at 1. by rewrite run_bind_query. Qed.

Lemma result_bind_google_call {A B} c (v : A) (f : A → M B) st :
  result (bind (google_call c v) f) st = result (f v) st.
Proof. unfold result at 1. by rewrite run_bind_google_call. Qed.

Lemma final_bind_query {A B} c (rd : St → A) (f : A → M B) st :
  final (bind (query c rd) f) st = final (f (rd st)) st.
Proof. unfold final at 1. by rewrite run_bind_query. Qed.

Lemma final_bind_google_call {A B} c (v : A) (f : A → M B) st :
  final (bind (google_call c v) f) st = final (f v) st.
Proof. unfold final at 1. by rewrite run_bind_google_call. Qed.

Lemma trace_bind_query {A B} c (rd : St → A) (f : A → M B) st :
  trace (bind (query c rd) f) st = c :: trace (f (rd st)) st.
Proof. unfold trace at 1. by rewrite run_bind_query. Qed.

Lemma trace_bind_google_call {A B} c (v : A) (f : A → M B) st :
  trace (bind (google_call c v) f) st = c :: trace (f v) st.
Proof. unfold trace at 1. by rewrite run_bind_google_call. Qed.

Lemma run_call {A} c (op : St → A * St) st :
  call c op st = (Ok (op st).1, (op st).2, [c]).
Proof. unfold call. by destruct (op st). Qed.

Lemma result_call {A} c (op : St → A * St) st :
  result (call c op) st = Ok (op st).1.
Proof. unfold result. by rewrite run_call. Qed.

Lemma final_call {A} c (op : St → A * St) st :
  final (call c op) st = (op st).2.
Proof. unfold final. by rewrite run_call. Qed.

Lemma trace_call {A} c (op : St → A * St) st : trace (call c op) st = [c].
Proof. unfold trace. by rewrite run_call. Qed.

(** ** The ignore lists *)

Lemma ignoreUser_loop_elem l name : ignoreUser_loop l name = true ↔ name ∈ l.
Proof.
  induction l as [|u l IH]; simpl.
  - split; [done|]. by intros ?%elem_of_nil.
  - rewrite elem_of_cons. case_decide as Hu.
    + split; [by left|done].
    + rewrite IH. split; [by right|]. by intros [?|?].
Qed.

Lemma ignoreGroup_loop_elem l name : ignoreGroup_loop l name = true ↔ name ∈ l.
Proof.
  induction l as [|u l IH]; simpl.
  - split; [done|]. by intros ?%elem_of_nil.
  - rewrite elem_of_cons. case_decide as Hu.
    + split; [by left|done].
    + rewrite IH. split; [by right|]. by intros [?|?].
Qed.

Lemma ignoreUser_elem s name :
  ignoreUser s name = true ↔ name ∈ config.IgnoreUsers (cfg s).
Proof. apply ignoreUser_loop_elem. Qed.

Lemma ignoreGroup_elem s name :
  ignoreGroup s name = true ↔ name ∈ config.IgnoreGroups (cfg s).
Proof. apply ignoreGroup_loop_elem. Qed.

Lemma ignoreUser_not_elem s name :
  ignoreUser s name = false ↔ name ∉ config.IgnoreUsers (cfg s).
Proof. rewrite <-ignoreUser_elem. by destruct (ignoreUser s name). Qed.

Lemma ignoreGroup_not_elem s name :
  ignoreGroup s name = false ↔ name ∉ config.IgnoreGroups (cfg s).
Proof. rewrite <-ignoreGroup_elem. by destruct (ignoreGroup s name). Qed.

(** ** One source user ([SyncUsers_googleUser]) *)

(** For a source user that is not on the ignore list, is not suspended
    and whose username has no entry in the index, the engine calls
    [CreateUser] once, with a user whose display name is the given and family
    names joined by one space, whose only email is primary, of type work and
    equal to the username, and whose only external id has issuer Google.
    When the store accepts the creation, the user returned (the requested one
    with the id the store assigned) is entered in [index] under the username
    and in [indexByUserId] under its id; when the store refuses, the result
    is left as it was; either way the loop goes on with the next user. *)
Lemma googleUser_creates_new (s : syncGSuite) (u : admin.User)
    (rest : list admin.User) (usersSyncResult : UserSyncResult) (st : St) :
  admin.PrimaryEmail u ∉ config.IgnoreUsers (cfg s) →
  admin.Suspended u = false →
  index usersSyncResult !! admin.PrimaryEmail u = None →
  let req := userToAdd u in
  let created :=
    sdk_CreateUser sdk (types.DisplayName req) (types.UserName req)
      (types.User_Name req) (types.Emails req) st in
  let usersSyncResult' :=
    match created.1 with
    | inl err => usersSyncResult
    | inr uid =>
        let added :=
          {| types.UserId := uid;
             types.UserName := types.UserName req;
             types.DisplayName := types.DisplayName req;
             types.User_Name := types.User_Name req;
             types.Emails := types.Emails req;
             types.ExternalIds := types.ExternalIds req |} in
        {| index := <[admin.PrimaryEmail u := added]> (index usersSyncResult);
           toDelete := toDelete usersSyncResult;
           indexByUserId :=
             <[ToString uid := added]> (indexByUserId usersSyncResult) |}
    end in
  types.UserName req = Some (admin.PrimaryEmail u) ∧
  types.DisplayName req
  = Some (admin.GivenName (admin.Name u) +:+ " " +:+
          admin.FamilyName (admin.Name u)) ∧
  types.Emails req
  = [ {| types.Primary := true; types.Type_ := Some "work";
         types.Value := Some (admin.PrimaryEmail u) |} ] ∧
  types.ExternalIds req
  = [ {| types.Id := Some (admin.Id u); types.Issuer := Some "Google" |} ] ∧
  SyncUsers_googleUser sdk s u usersSyncResult st
  = (Ok usersSyncResult', created.2, [CreateUserCall req]) ∧
  SyncUsers_googleUsers sdk s (u :: rest) usersSyncResult st
  = (result (SyncUsers_googleUsers sdk s rest usersSyncResult') created.2,
     final (SyncUsers_googleUsers sdk s rest usersSyncResult') created.2,
     CreateUserCall req ::
       trace (SyncUsers_googleUsers sdk s rest usersSyncResult') created.2).
Proof.
  intros Hign%ignoreUser_not_elem Hsusp Hidx req created usersSyncResult'.
  assert (SyncUsers_googleUser sdk s u usersSyncResult st
          = (Ok usersSyncResult', created.2, [CreateUserCall req])) as Hbody.
  { unfold SyncUsers_googleUser. rewrite Hign, Hidx, Hsusp.
    unfold bind, aws_CreateUser, call. subst usersSyncResult' created req.
    by destruct (sdk_CreateUser sdk _ _ _ _ st) as [[err|uid] st']. }
  repeat (split; [done|]).
  simpl. rewrite run_bind. unfold result, final, trace.
  by rewrite Hbody.
Qed.

(** ** The group indexes of [SyncGroups] *)

Lemma keyed_empty : keyed ∅.
Proof. intros k g. by rewrite lookup_empty. Qed.

Lemma keyed_awsGroups awsGroups groupsIndex :
  keyed groupsIndex → keyed (SyncGroups_awsGroups awsGroups groupsIndex).
Proof.
  revert groupsIndex. induction awsGroups as [|u awsGroups IH];
    intros groupsIndex Hk; simpl; [done|].
  apply IH. intros k g. rewrite lookup_insert. case_decide as Hd.
  - intros [= <-]. done.
  - apply Hk.
Qed.

Lemma awsGroups_lookup awsGroups groupsIndex k :
  is_Some (SyncGroups_awsGroups awsGroups groupsIndex !! k) ↔
  is_Some (groupsIndex !! k) ∨
  ∃ g, g ∈ awsGroups ∧ ToString (types.Group_DisplayName g) = k.
Proof.
  revert groupsIndex. induction awsGroups as [|u awsGroups IH];
    intros groupsIndex; simpl.
  - split; [by left|]. intros [?|(g & []%elem_of_nil & _)]; done.
  - rewrite IH, lookup_insert. case_decide as Hd.
    + split; [intros _|by eauto]. right. exists u. split; [by left|done].
    + split.
      * intros [?|(g & Hg & Hn)]; [by left|]. right. exists g.
        split; [by right|done].
      * intros [?|(g & Hg & Hn)]; [by left|].
        apply elem_of_cons in Hg as [->|Hg]; [done|]. right. by exists g.
Qed.

Lemma googleGroup_spec s g googleGroupsIndex groupsIndex st :
  ∃ groupsIndex',
    result (SyncGroups_googleGroup sdk s g googleGroupsIndex groupsIndex) st
    = Ok (if ignoreGroup s (admin.Group_Email g) then googleGroupsIndex
          else <[admin.Group_Name g := g]> googleGroupsIndex, groupsIndex') ∧
    (keyed groupsIndex → keyed groupsIndex') ∧
    (∀ k, is_Some (groupsIndex !! k) → groupsIndex' !! k = groupsIndex !! k) ∧
    (∀ k, is_Some (groupsIndex' !! k) →
          is_Some (groupsIndex !! k) ∨
          (ignoreGroup s (admin.Group_Email g) = false ∧
           k = admin.Group_Name g)).
Proof.
  unfold SyncGroups_googleGroup.
  destruct (ignoreGroup s (admin.Group_Email g)) eqn:Hign.
  { exists groupsIndex. split; [done|]. split; [done|]. split; [done|]. by left. }
  destruct (groupsIndex !! admin.Group_Name g) as [g'|] eqn:Hg.
  { exists groupsIndex. split; [done|]. split; [done|]. split; [done|]. by left. }
  unfold result, bind, aws_CreateGroup, call, String.
  destruct (sdk_CreateGroup sdk _ _ st) as [[err|gid] st'] eqn:Hc; simpl.
  { exists groupsIndex. split; [done|]. split; [done|]. split; [done|]. by left. }
  eexists. split; [done|]. split; [|split].
  - intros Hk k g'. rewrite lookup_insert. case_decide as Hd.
    + by intros [= <-].
    + apply Hk.
  - intros k [g' Hg']. rewrite lookup_insert_ne; [done|]. congruence.
  - intros k. rewrite lookup_insert. case_decide as Hd; [by right|by left].
Qed.

Lemma googleGroups_spec s googleGroups googleGroupsIndex groupsIndex st :
  ∃ googleGroupsIndex' groupsIndex',
    result (SyncGroups_googleGroups sdk s googleGroups googleGroupsIndex
              groupsIndex) st
    = Ok (googleGroupsIndex', groupsIndex') ∧
    (∀ k, is_Some (googleGroupsIndex' !! k) ↔
          is_Some (googleGroupsIndex !! k) ∨ kept s googleGroups k) ∧
    (keyed groupsIndex → keyed groupsIndex') ∧
    (∀ k, is_Some (groupsIndex !! k) → groupsIndex' !! k = groupsIndex !! k) ∧
    (∀ k, is_Some (groupsIndex' !! k) →
          is_Some (groupsIndex !! k) ∨ kept s googleGroups k).
Proof.
  revert googleGroupsIndex groupsIndex st.
  induction googleGroups as [|g googleGroups IH];
    intros googleGroupsIndex groupsIndex st; simpl.
  { exists googleGroupsIndex, groupsIndex. split; [done|].
    split; [|split; [done|split; [done|by left]]].
    intros k. split; [by left|].
    intros [?|(g & []%elem_of_nil & _)]; done. }
  rewrite result_bind.
  destruct (googleGroup_spec s g googleGroupsIndex groupsIndex st)
    as (gi1 & -> & Hk1 & Hsame1 & Hnew1).
  set (ggi1 := if ignoreGroup s (admin.Group_Email g) then googleGroupsIndex
               else <[admin.Group_Name g := g]> googleGroupsIndex).
  destruct (IH ggi1 gi1
              (final (SyncGroups_googleGroup sdk s g googleGroupsIndex
                        groupsIndex) st))
    as (ggi2 & gi2 & -> & Hggi & Hk2 & Hsame2 & Hnew2).
  exists ggi2, gi2. split; [done|]. split; [|split; [|split]].
  - intros k. rewrite Hggi. subst ggi1. unfold kept. split.
    + intros [Hs|(g' & Hg' & Hi & Hn)].
      * destruct (ignoreGroup s (admin.Group_Email g)) eqn:Hign; [by left|].
        revert Hs. rewrite lookup_insert. case_decide as Hd; [|by left].
        intros _. right. exists g. split; [by left|].
        by apply ignoreGroup_not_elem in Hign.
      * right. exists g'. split; [by right|done].
    + intros [Hs|(g' & Hg' & Hi & Hn)].
      * left. destruct (ignoreGroup s (admin.Group_Email g)); [done|].
        rewrite lookup_insert. by case_decide.
      * apply elem_of_cons in Hg' as [->|Hg'].
        -- left. apply ignoreGroup_not_elem in Hi. rewrite Hi.
           rewrite lookup_insert. by case_decide.
        -- right. by exists g'.
  - auto.
  - intros k Hs. rewrite Hsame2; [by apply Hsame1|]. by rewrite Hsame1.
  - intros k Hs. destruct (Hnew2 k Hs) as [Hs1|(g' & Hg' & Hi & Hn)].
    + destruct (Hnew1 k Hs1) as [?|[Hign ->]]; [by left|].
      right. exists g. split; [by left|]. by apply ignoreGroup_not_elem in Hign.
    + right. exists g'. split; [by right|done].
Qed.

Lemma groupsToDelete_spec awsGroups googleGroupsIndex groupsToDelete groupsIndex :
  let r := SyncGroups_groupsToDelete awsGroups googleGroupsIndex
             groupsToDelete groupsIndex in
  let marked :=
    filter (λ g, googleGroupsIndex
                   !! ToString (types.Group_DisplayName g) = None)
      awsGroups in
  r.1 = groupsToDelete ++ marked ∧
  ∀ k, r.2 !! k =
       if decide (k ∈ (λ g, ToString (types.Group_DisplayName g)) <$> marked)
       then None else groupsIndex !! k.
Proof.
  revert groupsToDelete groupsIndex.
  induction awsGroups as [|g awsGroups IH];
    intros groupsToDelete groupsIndex; simpl.
  { split; [by rewrite app_nil_r|]. done. }
  rewrite filter_cons.
  destruct (googleGroupsIndex !! ToString (types.Group_DisplayName g))
    eqn:Hg.
  - rewrite decide_False by done. apply IH.
  - rewrite decide_True by done.
    destruct (IH (groupsToDelete ++ [g])
                (delete (ToString (types.Group_DisplayName g)) groupsIndex))
      as [-> Hl]. split.
    + by rewrite <-app_assoc.
    + intros k. rewrite Hl, fmap_cons, lookup_delete.
      destruct (decide (k ∈ _ <$> filter _ awsGroups)) as [Hin|Hnin].
      * rewrite decide_True; [done|]. by right.
      * destruct (decide (ToString (types.Group_DisplayName g) = k))
          as [Heq|Hne].
        -- rewrite decide_True; [done|]. subst k. by left.
        -- rewrite decide_False; [done|].
           intros [?|?]%elem_of_cons; [congruence|done].
Qed.

(** ** One source group ([SyncGroups_googleGroup]) *)

(** The ignore check on a source group is membership of its email
    address in the configured list, by equality of strings; the group is
    indexed, matched against the target and created under its name.  A group
    whose email is listed is skipped, whatever its name: nothing is recorded
    and no call is made.  A group whose email is not listed is processed,
    whatever its name: it enters the source index under its name, and it is
    created (with that name) exactly when the target index has no entry under
    that name.  The target groups marked for deletion are those whose display
    name has no entry in the source index. *)
Lemma googleGroup_ignore_by_email (s : syncGSuite) (g : admin.Group)
    (googleGroupsIndex : gmap string admin.Group)
    (groupsIndex : gmap string types.Group) (st : St) :
  (∀ name, ignoreGroup s name = true ↔ name ∈ config.IgnoreGroups (cfg s)) ∧
  (admin.Group_Email g ∈ config.IgnoreGroups (cfg s) →
   SyncGroups_googleGroup sdk s g googleGroupsIndex groupsIndex st
   = (Ok (googleGroupsIndex, groupsIndex), st, [])) ∧
  (admin.Group_Email g ∉ config.IgnoreGroups (cfg s) →
   ∃ groupsIndex',
     result (SyncGroups_googleGroup sdk s g googleGroupsIndex groupsIndex) st
     = Ok (<[admin.Group_Name g := g]> googleGroupsIndex, groupsIndex') ∧
     (is_Some (groupsIndex !! admin.Group_Name g) →
      trace (SyncGroups_googleGroup sdk s g googleGroupsIndex groupsIndex) st
      = [] ∧ groupsIndex' = groupsIndex) ∧
     (groupsIndex !! admin.Group_Name g = None →
      trace (SyncGroups_googleGroup sdk s g googleGroupsIndex groupsIndex) st
      = [CreateGroupCall (Some (admin.Group_Name g))
           (Some (admin.Group_Description g))] ∧
      (groupsIndex' = groupsIndex ∨
       ∃ gg, types.Group_DisplayName gg = Some (admin.Group_Name g) ∧
             groupsIndex' = <[admin.Group_Name g := gg]> groupsIndex))) ∧
  (∀ awsGroups,
     (SyncGroups_groupsToDelete awsGroups googleGroupsIndex [] groupsIndex).1
     = filter (λ t, googleGroupsIndex
                      !! ToString (types.Group_DisplayName t) = None)
         awsGroups).
Proof.
  split; [intros name; apply ignoreGroup_elem|].
  split; [|split;
    [|intros awsGroups;
      apply (groupsToDelete_spec awsGroups googleGroupsIndex [] groupsIndex)]].
  - intros Hin%ignoreGroup_elem. unfold SyncGroups_googleGroup.
    by rewrite Hin.
  - intros Hnin%ignoreGroup_not_elem. unfold SyncGroups_googleGroup.
    rewrite Hnin. destruct (groupsIndex !! admin.Group_Name g) as [g'|] eqn:Hg.
    + exists groupsIndex. split; [done|]. split; [done|]. by intros ?.
    + unfold result, trace, bind, aws_CreateGroup, call, String.
      destruct (sdk_CreateGroup sdk _ _ st) as [[err|gid] st'] eqn:Hc; simpl.
      * exists groupsIndex. split; [done|]. split; [by intros [? ?]|].
        intros _. split; [done|]. by left.
      * eexists. split; [done|]. split; [by intros [? ?]|].
        intros _. split; [done|]. right. eexists. split; [|done]. done.
Qed.

(** ** The deletion set of [SyncGroups] *)

(** The source-group index [SyncGroups] builds holds
    the names of the source groups whose email the ignore list does not
    name.  A target group is marked for deletion exactly when that filtered
    index has no entry under its display name; the entry under that name is
    then removed from the working index, and every other entry of the
    working index stays. *)
Lemma groupsToDelete_filtered (s : syncGSuite)
    (googleGroups : list admin.Group) (awsGroups : list types.Group)
    (st : St) :
  ∃ googleGroupsIndex groupsIndex,
    result (SyncGroups_googleGroups sdk s googleGroups ∅
              (SyncGroups_awsGroups awsGroups ∅)) st
    = Ok (googleGroupsIndex, groupsIndex) ∧
    (∀ k, is_Some (googleGroupsIndex !! k) ↔ kept s googleGroups k) ∧
    let r := SyncGroups_groupsToDelete awsGroups googleGroupsIndex []
               groupsIndex in
    (∀ g, g ∈ r.1 ↔
          g ∈ awsGroups ∧
          ¬ kept s googleGroups (ToString (types.Group_DisplayName g))) ∧
    (∀ g, g ∈ r.1 → r.2 !! ToString (types.Group_DisplayName g) = None) ∧
    (∀ k, (∀ g, g ∈ r.1 → ToString (types.Group_DisplayName g) ≠ k) →
          r.2 !! k = groupsIndex !! k).
Proof.
  destruct (googleGroups_spec s googleGroups ∅
              (SyncGroups_awsGroups awsGroups ∅) st)
    as (ggi & gi & Hres & Hggi & _ & _ & _).
  exists ggi, gi. split; [done|].
  assert (∀ k, is_Some (ggi !! k) ↔ kept s googleGroups k) as Hkept.
  { intros k. rewrite Hggi, lookup_empty. split; [|by right].
    by intros [[? [=]]|?]. }
  split; [done|].
  destruct (groupsToDelete_spec awsGroups ggi [] gi) as [Hdel Hidx].
  simpl in Hdel. cbv zeta. rewrite Hdel. split; [|split].
  - intros g. rewrite list_elem_of_filter, <-Hkept.
    rewrite eq_None_not_Some. tauto.
  - intros g Hg. rewrite Hidx, decide_True; [done|].
    apply list_elem_of_fmap. by exists g.
  - intros k Hk. rewrite Hidx, decide_False; [done|].
    intros (g & -> & Hg)%list_elem_of_fmap. by apply (Hk g).
Qed.

(** ** The source group handed to [SyncMembershipsForGroup] *)

(** [SyncMembershipsForGroup] reads the name of its
    source group first, so a nil source group makes it panic before any call
    is made.  [SyncGroups] never hands it one: a target group that the
    filtered source index lacks has left the working index by then, so every
    group the membership loop visits has a source group under its display
    name. *)
Lemma visited_groups_have_source (s : syncGSuite)
    (googleGroups : list admin.Group) (awsGroups : list types.Group)
    (st : St) :
  visits_entries range →
  (∀ awsGroup usersSyncResult st',
     SyncMembershipsForGroup sdk identityStoreId range s None awsGroup usersSyncResult st'
     = (Panic nilDeref, st', [])) ∧
  ∃ googleGroupsIndex groupsIndex,
    result (SyncGroups_googleGroups sdk s googleGroups ∅
              (SyncGroups_awsGroups awsGroups ∅)) st
    = Ok (googleGroupsIndex, groupsIndex) ∧
    ∀ k g,
      (k, g) ∈ range _ (SyncGroups_groupsToDelete awsGroups googleGroupsIndex
                          [] groupsIndex).2 →
      is_Some (googleGroupsIndex !! ToString (types.Group_DisplayName g)).
Proof.
  intros Hrange. split; [done|].
  destruct (googleGroups_spec s googleGroups ∅
              (SyncGroups_awsGroups awsGroups ∅) st)
    as (ggi & gi & Hres & Hggi & Hkeyed & _ & Hnew).
  exists ggi, gi. split; [done|]. intros k g Hin%Hrange.
  destruct (groupsToDelete_spec awsGroups ggi [] gi) as [_ Hidx].
  rewrite Hidx in Hin. case_decide as Hmarked; [done|].
  assert (ToString (types.Group_DisplayName g) = k) as <-.
  { apply (Hkeyed (keyed_awsGroups awsGroups ∅ keyed_empty) k g Hin). }
  destruct (Hnew (ToString (types.Group_DisplayName g))) as [Hold|Hkept];
    [by eexists| |by apply Hggi; right].
  apply awsGroups_lookup in Hold as [[? [=]]|(g' & Hg' & Hname)].
  destruct (ggi !! ToString (types.Group_DisplayName g)) eqn:Hg; [by eexists|].
  exfalso. apply Hmarked. apply list_elem_of_fmap. exists g'.
  split; [done|]. apply list_elem_of_filter. split; [|done]. by rewrite Hname.
Qed.

(** ** The calls a computation makes *)

Lemma emits_ret {A} P (a : A) : emits P (ret a : M A).
Proof. intros st. apply Forall_nil_2. Qed.

Lemma emits_panic {A} P msg : emits P (panic msg : M A).
Proof. intros st. apply Forall_nil_2. Qed.

Lemma emits_bind {A B} P (m : M A) (f : A → M B) :
  emits P m → (∀ a, emits P (f a)) → emits P (bind m f).
Proof.
  intros Hm Hf st. rewrite trace_bind. apply Forall_app. split; [apply Hm|].
  destruct (result m st); [apply Hf|apply Forall_nil_2].
Qed.

Lemma emits_call {A} (P : Call → Prop) c (op : St → A * St) :
  P c → emits P (call c op).
Proof.
  intros Hc st. unfold trace, call. destruct (op st). simpl.
  by apply Forall_singleton.
Qed.

Lemma emits_query {A} (P : Call → Prop) c (rd : St → A) :
  P c → emits P (query c rd).
Proof. intros Hc st. by apply Forall_singleton. Qed.

Lemma emits_google_call {A} (P : Call → Prop) c (v : A) :
  P c → emits P (google_call c v : M A).
Proof. intros Hc st. by apply Forall_singleton. Qed.

Lemma emits_impl {A} (P Q : Call → Prop) (m : M A) :
  (∀ c, P c → Q c) → emits P m → emits Q m.
Proof. intros HPQ Hm st. eapply Forall_impl; [apply Hm|done]. Qed.

(** Calls of one kind all come before calls of another kind in a trace made
    of a part without the second kind followed by a part without the
    first. *)
Lemma before_app (P Q : Call → Prop) (t1 t2 : list Call) i j x y :
  Forall (λ c, ¬ Q c) t1 → Forall (λ c, ¬ P c) t2 →
  (t1 ++ t2) !! i = Some x → P x →
  (t1 ++ t2) !! j = Some y → Q y →
  i < j.
Proof.
  intros H1 H2 Hi HP Hj HQ.
  destruct (decide (i < length t1)) as [Hlt|Hge].
  - destruct (decide (j < length t1)) as [Hjlt|Hjge]; [|lia].
    rewrite lookup_app_l in Hj by done.
    apply list_elem_of_lookup_2 in Hj.
    rewrite Forall_forall in H1. by destruct (H1 y Hj).
  - rewrite lookup_app_r in Hi by lia.
    apply list_elem_of_lookup_2 in Hi.
    rewrite Forall_forall in H2. by destruct (H2 x Hi).
Qed.

(** ** Removals and additions of [SyncMembershipsForGroup] *)

Lemma emits_remove P toDelete :
  (∀ m, P (RemoveGroupMembershipCall m)) →
  emits P (SyncMembershipsForGroup_remove sdk toDelete).
Proof.
  intros HP. induction toDelete as [|val rest IH]; simpl.
  - apply emits_ret.
  - apply emits_bind; [by apply emits_call|].
    intros [err|]; [apply emits_ret|done].
Qed.

Lemma emits_add P memberList awsGroup :
  (∀ u g, P (AddUserToGroupCall u g)) →
  emits P (SyncMembershipsForGroup_add sdk identityStoreId memberList awsGroup).
Proof.
  intros HP. induction memberList as [|[k element] rest IH]; simpl.
  - apply emits_ret.
  - apply emits_bind; [by apply emits_call|].
    intros [err|?]; [apply emits_ret|done].
Qed.

(** C7. In the trace of one group's membership reconciliation, every
    [RemoveGroupMembership] call comes before every [AddUserToGroup] call. *)
Theorem removals_precede_additions (s : syncGSuite)
    (googleGroup : option admin.Group) (awsGroup : types.Group)
    (usersSyncResult : UserSyncResult) (st : St) (i j : nat)
    (m : types.GroupMembership) (u : types.User) (g : types.Group) :
  let t := trace (SyncMembershipsForGroup sdk identityStoreId range s
                    googleGroup awsGroup usersSyncResult) st in
  t !! i = Some (RemoveGroupMembershipCall m) →
  t !! j = Some (AddUserToGroupCall u g) →
  i < j.
Proof.
  intros t Hi Hj. subst t.
  assert (∃ t1 t2,
    trace (SyncMembershipsForGroup sdk identityStoreId range s googleGroup
             awsGroup usersSyncResult) st = t1 ++ t2 ∧
    Forall (λ c, ¬ isAddUserToGroup c = true) t1 ∧
    Forall (λ c, ¬ isRemoveGroupMembership c = true) t2)
    as (t1 & t2 & Ht & H1 & H2).
  { unfold SyncMembershipsForGroup.
    destruct googleGroup as [googleGroup|];
      [|by exists [], []].
    rewrite trace_bind. unfold google_call at 1 2. unfold result at 1.
    unfold trace at 1, final at 1. simpl.
    destruct (google.GetGroupMembers (google s) googleGroup)
      as [groupMembers [err|]].
    { exists [GoogleGetGroupMembersCall googleGroup], []. split; [done|].
      split; [|done]. by apply Forall_singleton. }
    rewrite trace_bind. unfold aws_GetGroupMembers at 1 2.
    unfold result at 1, trace at 1, final at 1, query. simpl.
    destruct (drain [] _) as [awsMembers [err|]].
    { exists [GoogleGetGroupMembersCall googleGroup;
              GetGroupMembersCall awsGroup], [].
      split; [done|]. split; [|done]. by repeat constructor. }
    destruct (SyncMembershipsForGroup_awsMembers _ _ _ _)
      as [[toDelete memberList]|msg].
    2:{ exists [GoogleGetGroupMembersCall googleGroup;
                GetGroupMembersCall awsGroup], [].
        split; [done|]. split; [|done]. by repeat constructor. }
    rewrite trace_bind.
    eexists ([_; _] ++ trace (SyncMembershipsForGroup_remove sdk toDelete) st),
            _.
    split; [by rewrite <-app_assoc|]. split.
    - apply Forall_app. split; [by repeat constructor|].
      apply emits_remove. done.
    - destruct (result _ st) as [[err|]|msg]; [done| |done].
      apply (emits_add (λ c, ¬ isRemoveGroupMembership c = true)). done. }
  rewrite Ht in Hi, Hj.
  by apply (before_app (λ c, isRemoveGroupMembership c = true)
              (λ c, isAddUserToGroup c = true) t1 t2 i j _ _ H1 H2 Hi eq_refl
              Hj eq_refl).
Qed.

(** ** The calls of [SyncUsers], [SyncGroups] and [RemoveUsers] *)

Lemma emits_googleUsers (P : Call → Prop) s googleUsers usersSyncResult :
  (∀ g, g ∈ googleUsers →
        admin.PrimaryEmail g ∉ config.IgnoreUsers (cfg s) →
        admin.Suspended g = false → P (CreateUserCall (userToAdd g))) →
  emits P (SyncUsers_googleUsers sdk s googleUsers usersSyncResult).
Proof.
  revert usersSyncResult.
  induction googleUsers as [|u rest IH]; intros usersSyncResult HP; simpl.
  { apply emits_ret. }
  apply emits_bind.
  - unfold SyncUsers_googleUser.
    destruct (ignoreUser s (admin.PrimaryEmail u)) eqn:Hign;
      [apply emits_ret|].
    destruct (index usersSyncResult !! admin.PrimaryEmail u);
      destruct (admin.Suspended u) eqn:Hsusp; try apply emits_ret.
    apply emits_bind.
    + apply emits_call. apply HP; [by left| |done].
      by apply ignoreUser_not_elem.
    + intros [err|added]; apply emits_ret.
  - intros usersSyncResult'. apply IH. intros g Hg. apply HP. by right.
Qed.

Lemma emits_SyncUsers s query :
  emits (SyncUsers_call s query) (SyncUsers sdk s query).
Proof.
  unfold SyncUsers. apply emits_bind; [by apply emits_query|].
  intros [awsUsers [err|]]; [apply emits_ret|].
  apply emits_bind; [by apply emits_google_call|].
  intros [gcpDeletedUsers [err|]]; [apply emits_ret|].
  intros st. rewrite trace_bind. apply Forall_app.
  split; [by apply Forall_singleton|].
  unfold google_call at 1 2, result, final. simpl.
  destruct (google.GetUsers (google s) query) as [googleUsers [err|]] eqn:Hg;
    [apply emits_ret|].
  apply emits_bind; [|intros; apply emits_ret].
  apply emits_googleUsers. intros g Hin Hign Hsusp. exists g.
  by rewrite Hg.
Qed.

Lemma emits_googleGroups (P : Call → Prop) s googleGroups googleGroupsIndex
    groupsIndex :
  (∀ g, g ∈ googleGroups →
        admin.Group_Email g ∉ config.IgnoreGroups (cfg s) →
        P (CreateGroupCall (Some (admin.Group_Name g))
             (Some (admin.Group_Description g)))) →
  emits P (SyncGroups_googleGroups sdk s googleGroups googleGroupsIndex
             groupsIndex).
Proof.
  revert googleGroupsIndex groupsIndex.
  induction googleGroups as [|g rest IH];
    intros googleGroupsIndex groupsIndex HP; simpl.
  { apply emits_ret. }
  apply emits_bind.
  - unfold SyncGroups_googleGroup.
    destruct (ignoreGroup s (admin.Group_Email g)) eqn:Hign;
      [apply emits_ret|].
    destruct (groupsIndex !! admin.Group_Name g); [apply emits_ret|].
    apply emits_bind.
    + apply emits_call. apply HP; [by left|]. by apply ignoreGroup_not_elem.
    + intros [err|gg]; apply emits_ret.
  - intros [googleGroupsIndex' groupsIndex']. apply IH.
    intros g' Hg'. apply HP. by right.
Qed.

Lemma emits_SyncMembershipsForGroup (P : Call → Prop) s googleGroup awsGroup
    usersSyncResult :
  (∀ g, P (GoogleGetGroupMembersCall g)) →
  (∀ g, P (GetGroupMembersCall g)) →
  (∀ m, P (RemoveGroupMembershipCall m)) →
  (∀ u g, P (AddUserToGroupCall u g)) →
  emits P (SyncMembershipsForGroup sdk identityStoreId range s googleGroup
             awsGroup usersSyncResult).
Proof.
  intros HP1 HP2 HP3 HP4. unfold SyncMembershipsForGroup.
  destruct googleGroup as [googleGroup|]; [|apply emits_panic].
  apply emits_bind; [by apply emits_google_call|].
  intros [groupMembers [err|]]; [apply emits_ret|].
  apply emits_bind; [by apply emits_query|].
  intros [awsMembers [err|]]; [apply emits_ret|].
  destruct (SyncMembershipsForGroup_awsMembers _ _ _ _)
    as [[toDelete memberList]|msg]; [|apply emits_panic].
  apply emits_bind; [by apply emits_remove|].
  intros [err|]; [apply emits_ret|]. by apply emits_add.
Qed.

Lemma emits_memberships (P : Call → Prop) s groupsIndex googleGroupsIndex
    usersSyncResult :
  (∀ g, P (GoogleGetGroupMembersCall g)) →
  (∀ g, P (GetGroupMembersCall g)) →
  (∀ m, P (RemoveGroupMembershipCall m)) →
  (∀ u g, P (AddUserToGroupCall u g)) →
  emits P (SyncGroups_memberships sdk identityStoreId range s groupsIndex
             googleGroupsIndex usersSyncResult).
Proof.
  intros HP1 HP2 HP3 HP4.
  induction groupsIndex as [|[k g] rest IH]; simpl; [apply emits_ret|].
  apply emits_bind; [by apply emits_SyncMembershipsForGroup|].
  intros [err|]; [apply emits_ret|done].
Qed.

Lemma emits_delete (P : Call → Prop) groupsToDelete :
  (∀ g, P (DeleteGroupCall g)) → emits P (SyncGroups_delete sdk groupsToDelete).
Proof.
  intros HP. induction groupsToDelete as [|g rest IH]; simpl;
    [apply emits_ret|].
  apply emits_bind; [by apply emits_call|].
  intros [err|]; [apply emits_ret|done].
Qed.

Lemma emits_SyncGroups s query usersSyncResult :
  emits (SyncGroups_call s query)
    (SyncGroups sdk identityStoreId range s query usersSyncResult).
Proof.
  unfold SyncGroups. apply emits_bind; [by apply emits_query|].
  intros [awsGroups [err|]]; [apply emits_ret|].
  intros st. rewrite trace_bind. apply Forall_app.
  split; [by apply Forall_singleton|].
  unfold google_call at 1 2, result, final. simpl.
  destruct (google.GetGroups (google s) query) as [googleGroups [err|]] eqn:Hg;
    [apply emits_ret|].
  apply emits_bind.
  { apply emits_googleGroups. intros g Hin Hign. exists g. by rewrite Hg. }
  intros [googleGroupsIndex groupsIndex].
  destruct (SyncGroups_groupsToDelete _ _ _ _) as [groupsToDelete groupsIndex'].
  apply emits_bind; [by apply emits_memberships|].
  intros [err|]; [apply emits_ret|]. by apply emits_delete.
Qed.

Lemma emits_RemoveUsers (P : Call → Prop) usersList :
  (∀ u, P (DeleteUserCall u)) → emits P (RemoveUsers sdk usersList).
Proof.
  intros HP. induction usersList as [|u rest IH]; simpl; [apply emits_ret|].
  apply emits_bind; [by apply emits_call|].
  intros [err|]; [apply emits_ret|done].
Qed.

Lemma DoSync_cases host c :
  (∃ err, DoSync sdk identityStoreId range host c = ret (Some err)) ∨
  (∃ googleClient,
     DoSync sdk identityStoreId range host c
     = DoSync_run sdk identityStoreId range
         {| google := googleClient; cfg := c |}).
Proof.
  unfold DoSync.
  destruct (negb (config.IsLambda c)).
  - destruct (ReadFile host _) as [b [err|]]; [left; by eexists|].
    destruct (NewClient host _ _) as [err|googleClient];
      [left; by eexists|right; by eexists].
  - destruct (NewClient host _ _) as [err|googleClient];
      [left; by eexists|right; by eexists].
Qed.

(** ** The result of [SyncUsers] *)

Lemma awsUsers_toDelete awsUsers usersSyncResult :
  toDelete (SyncUsers_awsUsers awsUsers usersSyncResult)
  = toDelete usersSyncResult.
Proof.
  revert usersSyncResult. induction awsUsers as [|u rest IH];
    intros usersSyncResult; simpl; [done|]. by rewrite IH.
Qed.

Lemma gcpDeletedUsers_spec gcpDeletedUsers usersSyncResult :
  let r := SyncUsers_gcpDeletedUsers gcpDeletedUsers usersSyncResult in
  index r = index usersSyncResult ∧
  indexByUserId r = indexByUserId usersSyncResult ∧
  toDelete r
  = toDelete usersSyncResult ++
    omap (λ u, index usersSyncResult !! admin.PrimaryEmail u) gcpDeletedUsers.
Proof.
  revert usersSyncResult. induction gcpDeletedUsers as [|u rest IH];
    intros usersSyncResult; simpl.
  { by rewrite app_nil_r. }
  destruct (index usersSyncResult !! admin.PrimaryEmail u) as [userInAWS|].
  - destruct (IH {| index := index usersSyncResult;
                    toDelete := toDelete usersSyncResult ++ [userInAWS];
                    indexByUserId := indexByUserId usersSyncResult |})
      as (-> & -> & ->). simpl. by rewrite <-app_assoc.
  - apply IH.
Qed.

Lemma googleUser_spec s u usersSyncResult st :
  ∃ usersSyncResult',
    result (SyncUsers_googleUser sdk s u usersSyncResult) st
    = Ok usersSyncResult' ∧
    index usersSyncResult ⊆ index usersSyncResult' ∧
    toDelete usersSyncResult'
    = toDelete usersSyncResult ++ pending s u usersSyncResult.
Proof.
  unfold SyncUsers_googleUser, pending.
  destruct (ignoreUser s (admin.PrimaryEmail u)).
  { exists usersSyncResult. by rewrite app_nil_r. }
  destruct (index usersSyncResult !! admin.PrimaryEmail u) as [userInAWS|]
    eqn:Hidx; destruct (admin.Suspended u).
  - by eexists.
  - exists usersSyncResult. by rewrite app_nil_r.
  - exists usersSyncResult. by rewrite app_nil_r.
  - unfold result, bind, aws_CreateUser, call.
    destruct (sdk_CreateUser sdk _ _ _ _ st) as [[err|uid] st']; simpl.
    + exists usersSyncResult. by rewrite app_nil_r.
    + eexists. split; [done|]. simpl. rewrite app_nil_r.
      split; [|done]. by apply insert_subseteq.
Qed.

Lemma googleUsers_spec s googleUsers usersSyncResult st :
  ∃ usersSyncResult' extra,
    result (SyncUsers_googleUsers sdk s googleUsers usersSyncResult) st
    = Ok usersSyncResult' ∧
    index usersSyncResult ⊆ index usersSyncResult' ∧
    toDelete usersSyncResult' = toDelete usersSyncResult ++ extra ∧
    (∀ U, U ∈ extra → ∃ k, index usersSyncResult' !! k = Some U) ∧
    (∀ a U, a ∈ googleUsers →
            admin.PrimaryEmail a ∉ config.IgnoreUsers (cfg s) →
            admin.Suspended a = true →
            index usersSyncResult !! admin.PrimaryEmail a = Some U →
            U ∈ extra).
Proof.
  revert usersSyncResult st.
  induction googleUsers as [|u rest IH]; intros usersSyncResult st; simpl.
  { exists usersSyncResult, []. rewrite app_nil_r.
    split; [done|]. split; [done|]. split; [done|].
    split; [by intros ? ?%elem_of_nil|by intros ? ? ?%elem_of_nil]. }
  rewrite result_bind.
  destruct (googleUser_spec s u usersSyncResult st)
    as (usr1 & -> & Hsub1 & Hdel1).
  destruct (IH usr1 (final (SyncUsers_googleUser sdk s u usersSyncResult) st))
    as (usr2 & extra & -> & Hsub2 & Hdel2 & Hheld & Hmarked).
  exists usr2, (pending s u usersSyncResult ++ extra).
  split; [done|]. split; [by etrans|].
  split; [by rewrite Hdel2, Hdel1, <-app_assoc|]. split.
  - intros U [HU|HU]%elem_of_app; [|by apply Hheld].
    unfold pending in HU.
    destruct (ignoreUser s (admin.PrimaryEmail u));
      [by apply elem_of_nil in HU|].
    destruct (index usersSyncResult !! admin.PrimaryEmail u) as [userInAWS|]
      eqn:Hidx; [|by apply elem_of_nil in HU].
    destruct (admin.Suspended u); [|by apply elem_of_nil in HU].
    apply list_elem_of_singleton in HU as ->.
    exists (admin.PrimaryEmail u).
    eapply lookup_weaken; [done|]. by etrans.
  - intros a U Ha Hign Hsusp Hidx. apply elem_of_app.
    apply elem_of_cons in Ha as [->|Ha].
    + left. unfold pending. apply ignoreUser_not_elem in Hign.
      rewrite Hign, Hidx, Hsusp. by left.
    + right. apply (Hmarked a U Ha Hign Hsusp).
      by eapply lookup_weaken.
Qed.

Lemma held_SyncUsers s q st usersSyncResult err :
  result (SyncUsers sdk s q) st = Ok (usersSyncResult, err) →
  held usersSyncResult.
Proof.
  unfold SyncUsers, aws_GetUsers. rewrite result_bind_query.
  destruct (drain [] (sdk_ListUsers sdk st)) as [awsUsers [e|]].
  { intros [= <- _]. by intros u ?%elem_of_nil. }
  rewrite result_bind_google_call.
  destruct (google.GetDeletedUsers (google s)) as [gcpDeletedUsers [e|]].
  { intros [= <- _]. intros u. rewrite awsUsers_toDelete.
    by intros ?%elem_of_nil. }
  set (usr0 := SyncUsers_awsUsers awsUsers _).
  destruct (gcpDeletedUsers_spec gcpDeletedUsers usr0) as (Hi & _ & Hd).
  assert (held (SyncUsers_gcpDeletedUsers gcpDeletedUsers usr0)) as Hheld.
  { intros u. rewrite Hd, Hi. subst usr0. rewrite awsUsers_toDelete. simpl.
    intros (a & _ & Ha)%list_elem_of_omap. by eexists. }
  rewrite result_bind_google_call.
  destruct (google.GetUsers (google s) q) as [googleUsers [e|]].
  { by intros [= <- _]. }
  rewrite result_bind.
  destruct (googleUsers_spec s googleUsers
              (SyncUsers_gcpDeletedUsers gcpDeletedUsers usr0) st)
    as (usr2 & extra & -> & Hsub & Hdel & Hextra & _).
  intros [= <- _]. intros u. rewrite Hdel.
  intros [Hu|Hu]%elem_of_app; [|by apply Hextra].
  destruct (Hheld u Hu) as [k Hk]. exists k. by eapply lookup_weaken.
Qed.

(** ** Pending deletions come last *)

(** C6. In the trace of a run, every call that is not a [DeleteUser] comes
    before every [DeleteUser] call: the pending deletions are applied after
    the reconciliation of users, groups and memberships has made all its
    calls.  And every user that [SyncUsers] marked for deletion still has its
    entry in the index that [SyncGroups] is given. *)
Theorem deletion_after_full_pass (host : Host) (c : config.Config) (st : St) :
  (∀ i j u x,
     trace (DoSync sdk identityStoreId range host c) st !! i
     = Some (DeleteUserCall u) →
     trace (DoSync sdk identityStoreId range host c) st !! j = Some x →
     isDeleteUser x = false →
     j < i) ∧
  (∀ s query st' usersSyncResult err,
     result (SyncUsers sdk s query) st' = Ok (usersSyncResult, err) →
     ∀ u, u ∈ toDelete usersSyncResult →
          ∃ k, index usersSyncResult !! k = Some u).
Proof.
  split; [|intros s query st' usr err Hres; by eapply held_SyncUsers].
  intros i j u x Hi Hj Hx.
  destruct (DoSync_cases host c) as [[err Hrun]|[googleClient Hrun]];
    rewrite Hrun in Hi, Hj; [done|].
  set (s := {| google := googleClient; cfg := c |}) in *.
  assert (∃ t1 t2,
    trace (DoSync_run sdk identityStoreId range s) st = t1 ++ t2 ∧
    Forall (λ c, ¬ isDeleteUser c = true) t1 ∧
    Forall (λ c, ¬ isDeleteUser c = false) t2)
    as (t1 & t2 & Ht & H1 & H2).
  { unfold DoSync_run. rewrite trace_bind.
    pose proof (emits_SyncUsers s (config.UserMatch (cfg s)) st) as Husers.
    assert (Forall (λ c, ¬ isDeleteUser c = true)
              (trace (SyncUsers sdk s (config.UserMatch (cfg s))) st))
      as Husers'.
    { eapply Forall_impl; [exact Husers|]. by intros []. }
    destruct (result (SyncUsers sdk s (config.UserMatch (cfg s))) st)
      as [[syncResult [err|]]|msg].
    1,3: eexists _, []; rewrite !app_nil_r; split; [done|];
         split; [done|apply Forall_nil_2].
    rewrite trace_bind.
    set (st1 := final (SyncUsers sdk s (config.UserMatch (cfg s))) st).
    pose proof (emits_SyncGroups s (config.GroupMatch (cfg s)) syncResult st1)
      as Hgroups.
    assert (Forall (λ c, ¬ isDeleteUser c = true)
              (trace (SyncGroups sdk identityStoreId range s
                        (config.GroupMatch (cfg s)) syncResult) st1))
      as Hgroups'.
    { eapply Forall_impl; [exact Hgroups|]. by intros []. }
    destruct (result (SyncGroups sdk identityStoreId range s
                        (config.GroupMatch (cfg s)) syncResult) st1)
      as [[err|]|msg].
    1,3: eexists _, []; rewrite !app_nil_r; split; [done|];
         split; [by apply Forall_app|apply Forall_nil_2].
    eexists (_ ++ _), _. rewrite <-app_assoc. split; [done|].
    split; [by apply Forall_app|].
    apply (emits_RemoveUsers (λ c, ¬ isDeleteUser c = false)). done. }
  rewrite Ht in Hi, Hj.
  by apply (before_app (λ c, isDeleteUser c = false)
              (λ c, isDeleteUser c = true) t1 t2 j i _ _ H1 H2 Hj Hx Hi
              eq_refl).
Qed.

(** ** The ignore lists in a run *)

Lemma emits_DoSync_run s :
  emits (λ c, SyncUsers_call s (config.UserMatch (cfg s)) c ∨
              SyncGroups_call s (config.GroupMatch (cfg s)) c ∨
              isDeleteUser c = true)
    (DoSync_run sdk identityStoreId range s).
Proof.
  unfold DoSync_run. apply emits_bind.
  { eapply emits_impl; [|apply emits_SyncUsers]. by left. }
  intros [syncResult [err|]]; [apply emits_ret|].
  apply emits_bind.
  { eapply emits_impl; [|apply emits_SyncGroups]. intros c ?. right. by left. }
  intros [err|]; [apply emits_ret|].
  apply emits_RemoveUsers. intros u. right. by right.
Qed.

(** C2, as the code has it. The two ignore lists are read independently
    of one another.  For a username on the ignore list of users, a
    run never calls [CreateUser] with that username, and the pass over the
    active source users leaves the result as it is at a source user of that
    name.  For an entry of the ignore list of groups, every [CreateGroup] of
    a run carries the name of a listed source group whose email differs from
    the entry, and the pass over the source groups leaves both indexes as
    they are at a source group with that email. *)
Theorem ignore_list_exclusion (s : syncGSuite) (st : St) :
  (∀ e, e ∈ config.IgnoreUsers (cfg s) →
     (∀ u, CreateUserCall u
             ∈ trace (DoSync_run sdk identityStoreId range s) st →
           types.UserName u ≠ Some e) ∧
     (∀ u usersSyncResult,
        admin.PrimaryEmail u = e →
        SyncUsers_googleUser sdk s u usersSyncResult = ret usersSyncResult)) ∧
  (∀ ge, ge ∈ config.IgnoreGroups (cfg s) →
     (∀ name description,
        CreateGroupCall name description
          ∈ trace (DoSync_run sdk identityStoreId range s) st →
        ∃ g, g ∈ (google.GetGroups (google s) (config.GroupMatch (cfg s))).1 ∧
             admin.Group_Email g ≠ ge ∧
             name = Some (admin.Group_Name g)) ∧
     (∀ g googleGroupsIndex groupsIndex,
        admin.Group_Email g = ge →
        SyncGroups_googleGroup sdk s g googleGroupsIndex groupsIndex
        = ret (googleGroupsIndex, groupsIndex))).
Proof.
  pose proof (emits_DoSync_run s st) as Hcalls.
  rewrite Forall_forall in Hcalls. split.
  - intros e He. split.
    + intros u Hu. destruct (Hcalls _ Hu) as [Hc|[Hc|Hc]]; [|done..].
      destruct Hc as (g & _ & Hign & _ & ->). simpl. unfold String.
      intros [= Heq]. apply Hign. by rewrite Heq.
    + intros u usr <-. unfold SyncUsers_googleUser.
      apply ignoreUser_elem in He. by rewrite He.
  - intros ge Hge. split.
    + intros name description Hc.
      destruct (Hcalls _ Hc) as [[]|[Hg|[=]]].
      destruct Hg as (g & Hin & Hign & -> & _). exists g.
      split; [done|]. split; [|done]. intros Heq. apply Hign. by rewrite Heq.
    + intros g ggi gi <-. unfold SyncGroups_googleGroup.
      apply ignoreGroup_elem in Hge. by rewrite Hge.
Qed.

(** ** Users marked twice *)

Lemma RemoveUsers_issues usersList st n i u :
  result (RemoveUsers sdk (take n usersList)) st = Ok None →
  i ≤ n →
  usersList !! i = Some u →
  trace (RemoveUsers sdk usersList) st !! i = Some (DeleteUserCall u).
Proof.
  revert st n i. induction usersList as [|v rest IH]; intros st n i;
    [done|].
  simpl RemoveUsers. rewrite trace_bind.
  destruct i as [|i].
  { intros _ _ [= ->]. unfold trace at 1, aws_DeleteUser, call.
    by destruct (sdk_DeleteUser sdk _ st). }
  destruct n as [|n]; [lia|]. simpl take. simpl RemoveUsers.
  rewrite result_bind. unfold result at 1 3, final, trace at 1.
  unfold aws_DeleteUser, call.
  destruct (sdk_DeleteUser sdk _ st) as [[err|] st']; simpl; [done|].
  intros Hres Hle Hi. apply (IH st' n i); [done|lia|done].
Qed.

(** C9, as the code has it. A username that is not on the ignore list, that
    a source tombstone names, that the active source listing holds as
    suspended and that indexes a target user: [SyncUsers] appends that target
    user to [toDelete] once for the tombstone and once more for the suspended
    entry.  When group reconciliation then returns no error and the
    deletions before the second of the two entries succeed, the run calls
    [DeleteUser] for that user at both entries. *)
Theorem duplicate_pending_deletion (s : syncGSuite) (st : St)
    (awsUsers : list types.User) (gcpDeletedUsers googleUsers : list admin.User)
    (d a : admin.User) (U : types.User) :
  drain [] (sdk_ListUsers sdk st) = (awsUsers, None) →
  google.GetDeletedUsers (google s) = (gcpDeletedUsers, None) →
  google.GetUsers (google s) (config.UserMatch (cfg s)) = (googleUsers, None) →
  d ∈ gcpDeletedUsers →
  a ∈ googleUsers →
  admin.PrimaryEmail a = admin.PrimaryEmail d →
  admin.Suspended a = true →
  admin.PrimaryEmail a ∉ config.IgnoreUsers (cfg s) →
  index (SyncUsers_awsUsers awsUsers
           {| index := ∅; toDelete := []; indexByUserId := ∅ |})
    !! admin.PrimaryEmail d = Some U →
  ∃ usersSyncResult i j,
    result (SyncUsers sdk s (config.UserMatch (cfg s))) st
    = Ok (usersSyncResult, None) ∧
    i < j ∧
    toDelete usersSyncResult !! i = Some U ∧
    toDelete usersSyncResult !! j = Some U ∧
    let st1 := final (SyncUsers sdk s (config.UserMatch (cfg s))) st in
    let groups :=
      SyncGroups sdk identityStoreId range s (config.GroupMatch (cfg s))
        usersSyncResult in
    (result groups st1 = Ok None →
     result (RemoveUsers sdk (take j (toDelete usersSyncResult)))
       (final groups st1) = Ok None →
     ∃ n,
       trace (DoSync_run sdk identityStoreId range s) st !! (n + i)
       = Some (DeleteUserCall U) ∧
       trace (DoSync_run sdk identityStoreId range s) st !! (n + j)
       = Some (DeleteUserCall U)).
Proof.
  intros Haws Hdeleted Hactive Hd Ha Hemail Hsusp Hign HU.
  set (usr0 := SyncUsers_awsUsers awsUsers _) in HU.
  set (usr1 := SyncUsers_gcpDeletedUsers gcpDeletedUsers usr0).
  destruct (gcpDeletedUsers_spec gcpDeletedUsers usr0) as (Hi1 & _ & Hd1).
  fold usr1 in Hi1, Hd1. unfold usr0 at 1 in Hd1.
  rewrite awsUsers_toDelete in Hd1. simpl in Hd1.
  destruct (googleUsers_spec s googleUsers usr1 st)
    as (usr2 & extra & Hres & _ & Hd2 & _ & Hmarked).
  assert (result (SyncUsers sdk s (config.UserMatch (cfg s))) st
          = Ok (usr2, None)) as Husers.
  { unfold SyncUsers, aws_GetUsers. rewrite result_bind_query, Haws.
    rewrite result_bind_google_call, Hdeleted.
    rewrite result_bind_google_call, Hactive.
    rewrite result_bind. fold usr0. fold usr1. by rewrite Hres. }
  assert (U ∈ toDelete usr1) as [i Hi]%list_elem_of_lookup_1.
  { rewrite Hd1. apply list_elem_of_omap. by exists d. }
  assert (U ∈ extra) as [j Hj]%list_elem_of_lookup_1.
  { apply (Hmarked a U Ha Hign Hsusp). by rewrite Hi1, Hemail. }
  exists usr2, i, (length (toDelete usr1) + j).
  split; [done|]. pose proof (lookup_lt_Some _ _ _ Hi) as Hlt.
  split; [lia|]. rewrite Hd2.
  split; [by rewrite lookup_app_l|].
  split; [by rewrite lookup_app_r, Nat.add_comm, Nat.add_sub by lia|].
  intros st1 groups Hgroups Hremove.
  exists (length (trace (SyncUsers sdk s (config.UserMatch (cfg s))) st ++
                  trace groups st1)).
  assert (trace (DoSync_run sdk identityStoreId range s) st
          = (trace (SyncUsers sdk s (config.UserMatch (cfg s))) st ++
             trace groups st1) ++
            trace (RemoveUsers sdk (toDelete usr2)) (final groups st1))
    as ->.
  { unfold DoSync_run. rewrite trace_bind, Husers, trace_bind.
    fold st1. fold groups. by rewrite Hgroups, <-app_assoc. }
  rewrite !lookup_app_r by lia.
  replace (_ + i - _) with i by lia.
  replace (_ + (length (toDelete usr1) + j) - _)
    with (length (toDelete usr1) + j) by lia.
  rewrite <-Hd2 in Hremove.
  split.
  - apply (RemoveUsers_issues _ _ (length (toDelete usr1) + j));
      [done|lia|]. rewrite Hd2. by rewrite lookup_app_l.
  - apply (RemoveUsers_issues _ _ (length (toDelete usr1) + j));
      [done|lia|]. rewrite Hd2.
    by rewrite lookup_app_r, Nat.add_comm, Nat.add_sub by lia.
Qed.

(** ** Runs that make no mutating call *)

Lemma mutations_app t1 t2 :
  mutations (t1 ++ t2) = [] ↔ mutations t1 = [] ∧ mutations t2 = [].
Proof. unfold mutations. rewrite filter_app. apply app_nil. Qed.

Lemma quiet_bind {A B} (m : M A) (f : A → M B) st :
  quiet (bind m f) st ↔
  quiet m st ∧
  match result m st with
  | Ok a => quiet (f a) (final m st)
  | Panic _ => True
  end.
Proof.
  unfold quiet. rewrite trace_bind, mutations_app.
  destruct (result m st); [done|]. split; intros [? _]; by split.
Qed.

Lemma stable_ret {A} (a : A) : stable sdk (ret a : M A).
Proof. by intros st1 st2 _ _. Qed.

Lemma stable_panic {A} msg : stable sdk (panic msg : M A).
Proof. by intros st1 st2 _ _. Qed.

Lemma stable_google_call {A} c (v : A) : stable sdk (google_call c v : M A).
Proof.
  intros st1 st2 _ Hq. repeat (split; [done|]).
  unfold quiet, trace, google_call in *. done.
Qed.

Lemma stable_mutation {A} c (op : St → A * St) :
  mutating c = true → stable sdk (call c op).
Proof.
  intros Hc st1 st2 _ Hq. exfalso. revert Hq.
  unfold quiet, trace, call. destruct (op st1). simpl.
  unfold mutations. by rewrite filter_cons, decide_True.
Qed.

Lemma stable_bind {A B} (m : M A) (f : A → M B) :
  stable sdk m → (∀ a, stable sdk (f a)) → stable sdk (bind m f).
Proof.
  intros Hm Hf st1 st2 Hsame [Hq1 Hq2]%quiet_bind.
  destruct (Hm st1 st2 Hsame Hq1) as (Hf1 & Hf2 & Hr & Hq).
  rewrite !final_bind, !result_bind, quiet_bind, Hr, Hf2.
  destruct (result m st1) as [a|msg]; [|by rewrite Hf1].
  rewrite Hf1 in Hq2 |- *.
  destruct (Hf a st1 st2 Hsame Hq2) as (Hf1' & Hf2' & Hr' & Hq').
  done.
Qed.

Lemma stable_GetUsers : stable sdk (aws_GetUsers sdk).
Proof.
  intros st1 st2 (Hu & _ & _) _. unfold aws_GetUsers, query.
  repeat split; try done. unfold result. simpl. by rewrite Hu.
Qed.

Lemma stable_GetGroups : stable sdk (aws_GetGroups sdk).
Proof.
  intros st1 st2 (_ & Hg & _) _. unfold aws_GetGroups, query.
  repeat split; try done. unfold result. simpl. by rewrite Hg.
Qed.

Lemma stable_GetGroupMembers g : stable sdk (aws_GetGroupMembers sdk g).
Proof.
  intros st1 st2 (_ & _ & Hm) _. unfold aws_GetGroupMembers, query.
  repeat split; try done. unfold result. simpl. by rewrite Hm.
Qed.

Lemma stable_googleUsers s googleUsers usersSyncResult :
  stable sdk (SyncUsers_googleUsers sdk s googleUsers usersSyncResult).
Proof.
  revert usersSyncResult. induction googleUsers as [|u rest IH];
    intros usersSyncResult; simpl; [apply stable_ret|].
  apply stable_bind; [|done]. unfold SyncUsers_googleUser.
  destruct (ignoreUser s _); [apply stable_ret|].
  destruct (index usersSyncResult !! _); destruct (admin.Suspended u);
    try apply stable_ret.
  apply stable_bind; [by apply stable_mutation|].
  intros [err|added]; apply stable_ret.
Qed.

Lemma stable_SyncUsers s q : stable sdk (SyncUsers sdk s q).
Proof.
  unfold SyncUsers. apply stable_bind; [apply stable_GetUsers|].
  intros [awsUsers [err|]]; [apply stable_ret|].
  apply stable_bind; [apply stable_google_call|].
  intros [gcpDeletedUsers [err|]]; [apply stable_ret|].
  apply stable_bind; [apply stable_google_call|].
  intros [googleUsers [err|]]; [apply stable_ret|].
  apply stable_bind; [apply stable_googleUsers|]. intros; apply stable_ret.
Qed.

Lemma stable_googleGroups s googleGroups googleGroupsIndex groupsIndex :
  stable sdk (SyncGroups_googleGroups sdk s googleGroups googleGroupsIndex
                groupsIndex).
Proof.
  revert googleGroupsIndex groupsIndex.
  induction googleGroups as [|g rest IH];
    intros googleGroupsIndex groupsIndex; simpl; [apply stable_ret|].
  apply stable_bind; [|by intros []]. unfold SyncGroups_googleGroup.
  destruct (ignoreGroup s _); [apply stable_ret|].
  destruct (groupsIndex !! _); [apply stable_ret|].
  apply stable_bind; [by apply stable_mutation|].
  intros [err|gg]; apply stable_ret.
Qed.

Lemma stable_remove toDelete :
  stable sdk (SyncMembershipsForGroup_remove sdk toDelete).
Proof.
  induction toDelete as [|val rest IH]; simpl; [apply stable_ret|].
  apply stable_bind; [by apply stable_mutation|].
  intros [err|]; [apply stable_ret|done].
Qed.

Lemma stable_delete groupsToDelete :
  stable sdk (SyncGroups_delete sdk groupsToDelete).
Proof.
  induction groupsToDelete as [|g rest IH]; simpl; [apply stable_ret|].
  apply stable_bind; [by apply stable_mutation|].
  intros [err|]; [apply stable_ret|done].
Qed.

Lemma stable_RemoveUsers usersList : stable sdk (RemoveUsers sdk usersList).
Proof.
  induction usersList as [|u rest IH]; simpl; [apply stable_ret|].
  apply stable_bind; [by apply stable_mutation|].
  intros [err|]; [apply stable_ret|done].
Qed.

Lemma follows_stable m : stable sdk m → follows sdk m m.
Proof.
  intros Hm st1 st2 Hsame Hq Hres.
  destruct (Hm st1 st2 Hsame Hq) as (? & ? & Hr & ?). by rewrite Hr.
Qed.

Lemma follows_failed e m : follows sdk (ret (Some e)) m.
Proof. by intros st1 st2 _ _ ?. Qed.

Lemma follows_bind {A} (m : M A) (f1 f2 : A → M (option error)) :
  stable sdk m → (∀ a, follows sdk (f1 a) (f2 a)) →
  follows sdk (bind m f1) (bind m f2).
Proof.
  intros Hm Hf st1 st2 Hsame [Hq1 Hq2]%quiet_bind.
  destruct (Hm st1 st2 Hsame Hq1) as (Hf1 & Hf2 & Hr & Hq).
  rewrite !final_bind, !result_bind, quiet_bind, Hr, Hf2.
  destruct (result m st1) as [a|msg]; [|done].
  rewrite Hf1 in Hq2 |- *. intros Hres.
  destruct (Hf a st1 st2 Hsame Hq2 Hres) as (? & ? & ? & ?). done.
Qed.

Lemma follows_seq (m1 m2 k1 k2 : M (option error)) :
  follows sdk m1 m2 → follows sdk k1 k2 →
  follows sdk
    (bind m1 (λ err, match err with Some e => ret (Some e) | None => k1 end))
    (bind m2 (λ err, match err with Some e => ret (Some e) | None => k2 end)).
Proof.
  intros Hm Hk st1 st2 Hsame [Hq1 Hq2]%quiet_bind.
  rewrite !final_bind, !result_bind, quiet_bind.
  destruct (result m1 st1) as [[e|]|msg] eqn:Hr1; [done| |done].
  intros Hres.
  destruct (Hm st1 st2 Hsame Hq1 Hr1) as (Hf1 & Hf2 & Hr2 & Hq).
  rewrite Hr2, Hf1, Hf2 in *.
  destruct (Hk st1 st2 Hsame Hq2 Hres) as (? & ? & ? & ?). done.
Qed.

Lemma same_target_refl st : same_target sdk st st.
Proof. by repeat split. Qed.

Lemma follows_panic msg m : follows sdk (panic msg) m.
Proof. by intros st1 st2 _ _ ?. Qed.

Lemma follows_add range1 range2 (memberList : gmap string types.User) g :
  permutes range1 → permutes range2 →
  follows sdk
    (SyncMembershipsForGroup_add sdk identityStoreId (range1 _ memberList) g)
    (SyncMembershipsForGroup_add sdk identityStoreId (range2 _ memberList) g).
Proof.
  intros H1 H2 st1 st2 Hsame Hq Hres.
  destruct (range1 _ memberList) as [|[k element] rest] eqn:Hl1.
  - assert (range2 _ memberList = []) as ->.
    { apply Permutation_nil_r. rewrite (H2 _ memberList), <-(H1 _ memberList).
      by rewrite Hl1. }
    done.
  - exfalso. revert Hq. simpl. rewrite quiet_bind. intros [Hq _]. revert Hq.
    unfold quiet, trace, aws_AddUserToGroup, call.
    by destruct (sdk_CreateGroupMembership sdk _ _ st1) as [[?|?] ?].
Qed.

Lemma follows_SyncMembershipsForGroup range1 range2 s googleGroup awsGroup
    usersSyncResult :
  permutes range1 → permutes range2 →
  follows sdk
    (SyncMembershipsForGroup sdk identityStoreId range1 s googleGroup awsGroup
       usersSyncResult)
    (SyncMembershipsForGroup sdk identityStoreId range2 s googleGroup awsGroup
       usersSyncResult).
Proof.
  intros H1 H2. unfold SyncMembershipsForGroup.
  destruct googleGroup as [googleGroup|]; [|apply follows_panic].
  apply follows_bind; [apply stable_google_call|].
  intros [groupMembers [err|]]; [apply follows_failed|].
  apply follows_bind; [apply stable_GetGroupMembers|].
  intros [awsMembers [err|]]; [apply follows_failed|].
  destruct (SyncMembershipsForGroup_awsMembers _ _ _ _)
    as [[toDelete memberList]|msg]; [|apply follows_panic].
  apply follows_seq; [apply follows_stable, stable_remove|].
  by apply follows_add.
Qed.

Lemma memberships_quiet range1 s groupsIndex googleGroupsIndex
    usersSyncResult st :
  permutes range1 →
  quiet (SyncGroups_memberships sdk identityStoreId range1 s groupsIndex
           googleGroupsIndex usersSyncResult) st →
  result (SyncGroups_memberships sdk identityStoreId range1 s groupsIndex
            googleGroupsIndex usersSyncResult) st = Ok None →
  final (SyncGroups_memberships sdk identityStoreId range1 s groupsIndex
           googleGroupsIndex usersSyncResult) st = st ∧
  ∀ k g, (k, g) ∈ groupsIndex →
    quiet (SyncMembershipsForGroup sdk identityStoreId range1 s
             (googleGroupsIndex !! ToString (types.Group_DisplayName g)) g
             usersSyncResult) st ∧
    result (SyncMembershipsForGroup sdk identityStoreId range1 s
              (googleGroupsIndex !! ToString (types.Group_DisplayName g)) g
              usersSyncResult) st = Ok None.
Proof.
  intros H1. induction groupsIndex as [|[k g] rest IH]; simpl.
  { intros _ _. split; [done|]. by intros ? ? ?%elem_of_nil. }
  rewrite quiet_bind, result_bind, final_bind. intros [Hq1 Hq2].
  destruct (result (SyncMembershipsForGroup _ _ _ _ _ _ _) st)
    as [[e|]|msg] eqn:Hr; [done| |done].
  intros Hres.
  destruct (follows_SyncMembershipsForGroup range1 range1 s _ g
              usersSyncResult H1 H1 st st (same_target_refl st) Hq1 Hr)
    as (Hf & _).
  rewrite Hf in *. destruct (IH Hq2 Hres) as [Hfin Hall].
  split; [done|]. intros k' g' [[= -> ->]|Hin]%elem_of_cons; [done|].
  by apply (Hall k').
Qed.

Lemma follows_memberships range1 range2 s groupsIndex1 groupsIndex2
    googleGroupsIndex usersSyncResult :
  permutes range1 → permutes range2 →
  (∀ x, x ∈ groupsIndex2 → x ∈ groupsIndex1) →
  follows sdk
    (SyncGroups_memberships sdk identityStoreId range1 s groupsIndex1
       googleGroupsIndex usersSyncResult)
    (SyncGroups_memberships sdk identityStoreId range2 s groupsIndex2
       googleGroupsIndex usersSyncResult).
Proof.
  intros H1 H2 Hsub st1 st2 Hsame Hq Hres.
  destruct (memberships_quiet range1 s groupsIndex1 googleGroupsIndex
              usersSyncResult st1 H1 Hq Hres) as [Hfin Hall].
  split; [done|]. clear Hq Hres Hfin.
  induction groupsIndex2 as [|[k g] rest IH]; simpl; [done|].
  rewrite quiet_bind, result_bind, final_bind.
  destruct (Hall k g) as [Hq Hr]; [apply Hsub; by left|].
  destruct (follows_SyncMembershipsForGroup range1 range2 s
              (googleGroupsIndex !! ToString (types.Group_DisplayName g)) g
              usersSyncResult H1 H2 st1 st2 Hsame Hq Hr)
    as (_ & Hf2 & Hr2 & Hq2).
  rewrite Hr2, Hf2.
  destruct IH as (? & ? & ?); [intros x Hx; apply Hsub; by right|]. done.
Qed.

Lemma follows_SyncGroups range1 range2 s q usersSyncResult :
  permutes range1 → permutes range2 →
  follows sdk
    (SyncGroups sdk identityStoreId range1 s q usersSyncResult)
    (SyncGroups sdk identityStoreId range2 s q usersSyncResult).
Proof.
  intros H1 H2. unfold SyncGroups.
  apply follows_bind; [apply stable_GetGroups|].
  intros [awsGroups [err|]]; [apply follows_failed|].
  apply follows_bind; [apply stable_google_call|].
  intros [googleGroups [err|]]; [apply follows_failed|].
  apply follows_bind; [apply stable_googleGroups|].
  intros [googleGroupsIndex groupsIndex].
  destruct (SyncGroups_groupsToDelete _ _ _ _) as [groupsToDelete groupsIndex'].
  apply follows_seq; [|apply follows_stable, stable_delete].
  apply follows_memberships; [done..|].
  intros x. by rewrite (H2 _ groupsIndex'), <-(H1 _ groupsIndex').
Qed.

Lemma follows_DoSync_run range1 range2 s :
  permutes range1 → permutes range2 →
  follows sdk (DoSync_run sdk identityStoreId range1 s)
    (DoSync_run sdk identityStoreId range2 s).
Proof.
  intros H1 H2. unfold DoSync_run.
  apply follows_bind; [apply stable_SyncUsers|].
  intros [syncResult [err|]]; [apply follows_failed|].
  apply follows_seq; [by apply follows_SyncGroups|].
  apply follows_stable, stable_RemoveUsers.
Qed.

(** C1, as the code has it. Two runs of [DoSync] with the same host and
    configuration, started on store states that present the same target
    snapshot, under runtimes that may range over maps in different orders:
    when the first run returns no error and makes no mutating call, the
    second run makes no mutating call and returns no error either. *)
Theorem quiet_run_stays_quiet (range1 range2 : RangeOrder) (host : Host)
    (c : config.Config) (st1 st2 : St) :
  permutes range1 →
  permutes range2 →
  same_target sdk st1 st2 →
  result (DoSync sdk identityStoreId range1 host c) st1 = Ok None →
  mutations (trace (DoSync sdk identityStoreId range1 host c) st1) = [] →
  mutations (trace (DoSync sdk identityStoreId range2 host c) st2) = [] ∧
  result (DoSync sdk identityStoreId range2 host c) st2 = Ok None.
Proof.
  intros H1 H2 Hsame Hres Hq.
  assert (follows sdk (DoSync sdk identityStoreId range1 host c)
            (DoSync sdk identityStoreId range2 host c)) as Hfollows.
  { unfold DoSync.
    destruct (if negb (config.IsLambda c) then _ else _) as [err|creds];
      [apply follows_failed|].
    destruct (NewClient host _ _) as [err|googleClient];
      [apply follows_failed|].
    by apply follows_DoSync_run. }
  destruct (Hfollows st1 st2 Hsame Hq Hres) as (_ & _ & ? & ?). done.
Qed.

(** ** The loop over the target memberships *)

(** A membership whose member id is not of the user-id kind makes the loop
    panic, wherever it stands in the listing. *)
Lemma awsMembers_cast_mismatch awsMembers usersSyncResult toDelete memberList m :
  m ∈ awsMembers →
  (∀ v, types.Membership_MemberId m ≠ Some (types.MemberIdMemberUserId v)) →
  SyncMembershipsForGroup_awsMembers awsMembers usersSyncResult toDelete
    memberList = Panic nilDeref.
Proof.
  intros Hin Hkind. revert toDelete memberList.
  induction awsMembers as [|m' rest IH]; intros toDelete memberList;
    [by apply elem_of_nil in Hin|]. simpl.
  apply elem_of_cons in Hin as [<-|Hin].
  - destruct (types.Membership_MemberId m) as [[v|tag]|]; [|done..].
    by destruct (Hkind v).
  - destruct (types.Membership_MemberId m') as [[v|tag]|]; [|done..].
    destruct (indexByUserId usersSyncResult !! v); by apply IH.
Qed.

(** When the loop returns, it has only added memberships of the listing to
    [toDelete] and only removed entries from [memberList]; a membership of
    the listing that it did not mark resolves to a user whose username has
    left [memberList], and a membership whose user id resolves to no user is
    marked. *)
Lemma awsMembers_spec awsMembers usersSyncResult toDelete memberList
    toDelete' memberList' :
  SyncMembershipsForGroup_awsMembers awsMembers usersSyncResult toDelete
    memberList = Ok (toDelete', memberList') →
  (∃ extra, toDelete' = toDelete ++ extra ∧ ∀ m, m ∈ extra → m ∈ awsMembers) ∧
  memberList' ⊆ memberList ∧
  ∀ m, m ∈ awsMembers →
    m ∈ toDelete' ∨
    ∃ v user,
      types.Membership_MemberId m = Some (types.MemberIdMemberUserId v) ∧
      indexByUserId usersSyncResult !! v = Some user ∧
      memberList' !! ToString (types.UserName user) = None.
Proof.
  revert toDelete memberList.
  induction awsMembers as [|m rest IH]; intros toDelete memberList; simpl.
  { intros [= <- <-]. split; [exists []; by rewrite app_nil_r|].
    split; [done|]. by intros ? ?%elem_of_nil. }
  destruct (types.Membership_MemberId m) as [[v|tag]|] eqn:Hm; [|done..].
  destruct (indexByUserId usersSyncResult !! v) as [user|] eqn:Hv.
  - intros Hrec. destruct (IH _ _ Hrec) as ((extra & -> & Hextra) & Hsub & Hall).
    assert (memberList' !! ToString (types.UserName user) = None) as Hgone.
    { eapply lookup_weaken_None; [|exact Hsub]. apply lookup_delete_eq. }
    split; [|split].
    + destruct (memberList !! ToString (types.UserName user)).
      * exists extra. split; [done|]. intros m' Hm'. right. by apply Hextra.
      * exists (m :: extra). rewrite <-app_assoc. split; [done|].
        intros m' [->|Hm']%elem_of_cons; [by left|]. right. by apply Hextra.
    + etrans; [exact Hsub|]. apply delete_subseteq.
    + intros m' [->|Hm']%elem_of_cons; [|by apply Hall].
      right. by exists v, user.
  - intros Hrec. destruct (IH _ _ Hrec) as ((extra & -> & Hextra) & Hsub & Hall).
    split; [|split; [done|]].
    + exists (m :: extra). rewrite <-app_assoc. split; [done|].
      intros m' [->|Hm']%elem_of_cons; [by left|]. right. by apply Hextra.
    + intros m' [->|Hm']%elem_of_cons; [|by apply Hall].
      left. apply elem_of_app. left. apply elem_of_app. right. by left.
Qed.

Lemma awsMembers_unresolved_marked awsMembers usersSyncResult toDelete
    memberList toDelete' memberList' m v :
  SyncMembershipsForGroup_awsMembers awsMembers usersSyncResult toDelete
    memberList = Ok (toDelete', memberList') →
  m ∈ awsMembers →
  types.Membership_MemberId m = Some (types.MemberIdMemberUserId v) →
  indexByUserId usersSyncResult !! v = None →
  m ∈ toDelete'.
Proof.
  intros Hloop Hin Hm Hv.
  destruct (awsMembers_spec _ _ _ _ _ _ Hloop) as (_ & _ & Hall).
  destruct (Hall m Hin) as [?|(v' & user & Hm' & Hv' & _)]; [done|].
  congruence.
Qed.

End Properties.

(** * Memberships in the in-memory store *)

Section Memberships.

Variable identityStoreId : option string.
Variable range : RangeOrder.

Lemma after_app t1 t2 st :
  memstore.after (t1 ++ t2) st = memstore.after t2 (memstore.after t1 st).
Proof. apply foldl_app. Qed.

Lemma remove_step id st :
  memstore.memberships (memstore.DeleteGroupMembership id st).2
    `sublist_of` memstore.memberships st ∧
  ((memstore.DeleteGroupMembership id st).1 = None →
   ∀ m, m ∈ memstore.memberships (memstore.DeleteGroupMembership id st).2 →
        types.MembershipId m ≠ id).
Proof.
  unfold memstore.DeleteGroupMembership.
  destruct (existsb _ _); simpl; [|done]. split; [apply sublist_filter|].
  intros _ m [Hm _]%list_elem_of_filter. unfold memstore.hasId in Hm.
  by apply bool_decide_eq_false in Hm.
Qed.

Lemma remove_run d rest st :
  SyncMembershipsForGroup_remove memstore.sdk (d :: rest) st
  = match (memstore.DeleteGroupMembership (types.MembershipId d) st).1 with
    | Some err =>
        (Ok (Some err),
         (memstore.DeleteGroupMembership (types.MembershipId d) st).2,
         [RemoveGroupMembershipCall d])
    | None =>
        (result (SyncMembershipsForGroup_remove memstore.sdk rest)
           (memstore.DeleteGroupMembership (types.MembershipId d) st).2,
         final (SyncMembershipsForGroup_remove memstore.sdk rest)
           (memstore.DeleteGroupMembership (types.MembershipId d) st).2,
         RemoveGroupMembershipCall d ::
           trace (SyncMembershipsForGroup_remove memstore.sdk rest)
             (memstore.DeleteGroupMembership (types.MembershipId d) st).2)
    end.
Proof.
  simpl SyncMembershipsForGroup_remove. rewrite run_bind.
  unfold aws_RemoveGroupMembership.
  rewrite result_call, final_call, trace_call. simpl.
  by destruct (memstore.DeleteGroupMembership _ st).1.
Qed.

Lemma remove_replays toDelete st :
  final (SyncMembershipsForGroup_remove memstore.sdk toDelete) st
  = memstore.after
      (trace (SyncMembershipsForGroup_remove memstore.sdk toDelete) st) st.
Proof.
  revert st. induction toDelete as [|d rest IH]; intros st; [done|].
  unfold final, trace. rewrite remove_run.
  destruct (memstore.DeleteGroupMembership _ st).1 eqn:Herr; [done|].
  simpl. apply IH.
Qed.

Lemma remove_prefix toDelete st n :
  memstore.memberships
    (memstore.after
       (take n (trace (SyncMembershipsForGroup_remove memstore.sdk toDelete)
                  st)) st)
    `sublist_of` memstore.memberships st.
Proof.
  revert st n. induction toDelete as [|d rest IH]; intros st n.
  { unfold trace. simpl. by rewrite take_nil. }
  unfold trace. rewrite remove_run.
  destruct (remove_step (types.MembershipId d) st) as [Hsub _].
  destruct n as [|n]; [done|].
  destruct (memstore.DeleteGroupMembership _ st).1 eqn:Herr; simpl.
  - by rewrite take_nil.
  - etrans; [apply IH|done].
Qed.

Lemma remove_done toDelete st m :
  result (SyncMembershipsForGroup_remove memstore.sdk toDelete) st = Ok None →
  m ∈ memstore.memberships
        (final (SyncMembershipsForGroup_remove memstore.sdk toDelete) st) →
  m ∈ memstore.memberships st ∧ m ∉ toDelete.
Proof.
  revert st. induction toDelete as [|d rest IH]; intros st.
  { intros _ Hm. split; [done|apply not_elem_of_nil]. }
  unfold result, final. rewrite remove_run.
  destruct (remove_step (types.MembershipId d) st) as [Hsub Hgone].
  destruct (memstore.DeleteGroupMembership _ st).1 eqn:Herr; [done|].
  simpl. intros Hres Hm. destruct (IH _ Hres Hm) as [Hin Hnin].
  split; [by eapply elem_of_sublist|].
  intros [->|?]%elem_of_cons; [|done]. by eapply Hgone.
Qed.

Lemma add_run k u rest g st :
  SyncMembershipsForGroup_add memstore.sdk identityStoreId ((k, u) :: rest) g
    st
  = let r := memstore.CreateGroupMembership (types.GroupId g)
               (types.MemberIdMemberUserId (ToString (types.UserId u))) st in
    match r.1 with
    | inl err => (Ok (Some err), r.2, [AddUserToGroupCall u g])
    | inr _ =>
        (result (SyncMembershipsForGroup_add memstore.sdk identityStoreId
                   rest g) r.2,
         final (SyncMembershipsForGroup_add memstore.sdk identityStoreId
                  rest g) r.2,
         AddUserToGroupCall u g ::
           trace (SyncMembershipsForGroup_add memstore.sdk identityStoreId
                    rest g) r.2)
    end.
Proof.
  simpl SyncMembershipsForGroup_add. rewrite run_bind.
  unfold aws_AddUserToGroup.
  rewrite result_call, final_call, trace_call. simpl.
  by destruct (memstore.CreateGroupMembership _ _ st) as [[err|mid] st'].
Qed.

Lemma add_step g u st :
  let r := memstore.CreateGroupMembership (types.GroupId g)
             (types.MemberIdMemberUserId (ToString (types.UserId u))) st in
  match r.1 with
  | inl _ => r.2 = st
  | inr _ =>
      memstore.pairs r.2
      = memstore.pairs st ++
        [(types.GroupId g,
          Some (types.MemberIdMemberUserId (ToString (types.UserId u))))]
  end.
Proof.
  unfold memstore.CreateGroupMembership, memstore.pairs.
  destruct (memstore.fresh st); simpl; [done|]. by rewrite fmap_app.
Qed.

Lemma add_prefix memberList g st n :
  NoDup (memstore.pairs st ++ (memstore.added g <$> memberList)) →
  NoDup (memstore.pairs
           (memstore.after
              (take n (trace (SyncMembershipsForGroup_add memstore.sdk
                                identityStoreId memberList g) st)) st)).
Proof.
  revert st n. induction memberList as [|[k u] rest IH]; intros st n Hnd.
  { unfold trace. simpl. rewrite take_nil. simpl.
    by rewrite app_nil_r in Hnd. }
  unfold trace. rewrite add_run. cbv zeta.
  pose proof (add_step g u st) as Hstep. cbv zeta in Hstep.
  assert (NoDup (memstore.pairs st)) as Hst.
  { by apply NoDup_app in Hnd as [? _]. }
  destruct n as [|n]; [by destruct (_.1)|].
  destruct (memstore.CreateGroupMembership _ _ st).1 eqn:Hr; simpl.
  - rewrite take_nil. simpl. unfold memstore.after. simpl.
    by rewrite Hstep.
  - apply IH. rewrite Hstep. rewrite fmap_cons in Hnd.
    by rewrite <-app_assoc.
Qed.

Lemma groupMembers_lookup groupMembers usersSyncResult memberList e u :
  SyncMembershipsForGroup_groupMembers groupMembers usersSyncResult memberList
    !! e = Some u →
  memberList !! e = Some u ∨ index usersSyncResult !! e = Some u.
Proof.
  revert memberList. induction groupMembers as [|m rest IH];
    intros memberList; simpl; [by left|].
  destruct (index usersSyncResult !! admin.Member_Email m) as [val|] eqn:Hm;
    [|apply IH].
  intros [Hl|Hl]%IH; [|by right]. revert Hl. rewrite lookup_insert.
  case_decide as Hd; [|by left]. intros [= <-]. right. by rewrite <-Hd.
Qed.

(** What the order of the calls buys in the store.  Started on a store in
    which no (group, member) pair occurs twice, with a runtime that visits
    every map entry once and indexes that agree, the reconciliation of a
    group never leaves the store, after any number of its calls, with a pair
    occurring twice. *)
Theorem no_duplicate_membership_arises (s : syncGSuite)
    (googleGroup : option admin.Group) (awsGroup : types.Group)
    (usersSyncResult : UserSyncResult) (st : memstore.state) (n : nat) :
  permutes range →
  consistent usersSyncResult →
  NoDup (memstore.pairs st) →
  NoDup (memstore.pairs
           (memstore.after
              (take n (trace (SyncMembershipsForGroup memstore.sdk
                                identityStoreId range s googleGroup awsGroup
                                usersSyncResult) st)) st)).
Proof.
  intros Hperm Hcons Hnd. unfold SyncMembershipsForGroup.
  destruct googleGroup as [googleGroup|].
  2:{ unfold trace. simpl. by destruct n; simpl. }
  rewrite trace_bind_google_call.
  destruct (google.GetGroupMembers (google s) googleGroup)
    as [groupMembers [err|]].
  { unfold trace. simpl. by destruct n as [|[|n]]; simpl. }
  unfold aws_GetGroupMembers. rewrite trace_bind_query.
  assert (drain [] (sdk_ListGroupMemberships memstore.sdk
                      (types.GroupId awsGroup) st)
          = (filter (λ m, memstore.hasId (types.GroupId awsGroup)
                            (types.Membership_GroupId m) = true)
               (memstore.memberships st), None)) as -> by done.
  destruct (SyncMembershipsForGroup_awsMembers _ _ _ _)
    as [[toDelete memberList]|msg] eqn:Hloop.
  2:{ unfold trace. simpl. by destruct n as [|[|[|n]]]; simpl. }
  rewrite trace_bind. destruct n as [|[|n]]; [done..|].
  simpl take. unfold memstore.after. simpl foldl.
  fold (memstore.after
          (take n
             (trace (SyncMembershipsForGroup_remove memstore.sdk toDelete) st ++
              match result (SyncMembershipsForGroup_remove memstore.sdk
                              toDelete) st with
              | Ok a =>
                  trace
                    match a with
                    | Some err => ret (Some err)
                    | None =>
                        SyncMembershipsForGroup_add memstore.sdk
                          identityStoreId (range _ memberList) awsGroup
                    end
                    (final (SyncMembershipsForGroup_remove memstore.sdk
                              toDelete) st)
              | Panic _ => []
              end)) st).
  rewrite take_app, after_app.
  set (tR := trace (SyncMembershipsForGroup_remove memstore.sdk toDelete) st).
  destruct (decide (n ≤ length tR)) as [Hle|Hgt].
  { replace (n - length tR) with 0 by lia. rewrite take_0. simpl.
    eapply sublist_NoDup; [exact Hnd|]. apply fmap_sublist.
    apply remove_prefix. }
  rewrite (take_ge tR) by lia. subst tR. rewrite <-remove_replays.
  assert (NoDup (memstore.pairs
                   (final (SyncMembershipsForGroup_remove memstore.sdk
                             toDelete) st))) as Hnd1.
  { rewrite remove_replays.
    rewrite <-(take_ge (trace _ st) (length (trace
       (SyncMembershipsForGroup_remove memstore.sdk toDelete) st))) by done.
    eapply sublist_NoDup; [exact Hnd|]. apply fmap_sublist.
    apply remove_prefix. }
  destruct (result (SyncMembershipsForGroup_remove memstore.sdk toDelete) st)
    as [[err|]|msg] eqn:Hres.
  1,3: unfold trace; simpl; by destruct (n - _); simpl.
  apply add_prefix.
  destruct (awsMembers_spec _ _ _ _ _ _ Hloop) as (_ & Hsub & Hall).
  assert (∀ e u, (e, u) ∈ range _ memberList →
                 memberList !! e = Some u ∧
                 index usersSyncResult !! e = Some u) as Hentry.
  { intros e u Hin. rewrite (Hperm _ memberList) in Hin.
    apply elem_of_map_to_list in Hin. split; [done|].
    eapply lookup_weaken in Hin; [|exact Hsub].
    apply groupMembers_lookup in Hin as [Hin|Hin]; [|done].
    by rewrite lookup_empty in Hin. }
  apply NoDup_app. split; [done|]. split.
  - intros p Hp (x & -> & Hx)%list_elem_of_fmap.
    destruct x as [e u]. destruct (Hentry e u Hx) as [Hml Hidx].
    apply list_elem_of_fmap in Hp as (m & Hpair & Hm).
    destruct (remove_done toDelete st m Hres Hm) as [Hin Hnin].
    unfold memstore.added in Hpair. simpl in Hpair.
    injection Hpair as Hgid Hmid.
    destruct (Hall m) as [?|(v & user & Hv & Huser & Hgone)]; [|done|].
    { apply list_elem_of_filter. split; [|done]. unfold memstore.hasId.
      apply bool_decide_eq_true. done. }
    destruct (Hcons e u Hidx) as (u' & Hu' & Hname).
    rewrite Hv in Hmid. injection Hmid as Hvu.
    rewrite Hvu, Huser in Hu'. injection Hu' as ->.
    rewrite Hname in Hgone. congruence.
  - apply NoDup_fmap_2_strong.
    + intros [e1 u1] [e2 u2] H1 H2 Heq.
      destruct (Hentry e1 u1 H1) as [Hml1 Hidx1].
      destruct (Hentry e2 u2 H2) as [Hml2 Hidx2].
      unfold memstore.added in Heq. simpl in Heq. injection Heq as Hid.
      destruct (Hcons e1 u1 Hidx1) as (u1' & Hu1 & Hn1).
      destruct (Hcons e2 u2 Hidx2) as (u2' & Hu2 & Hn2).
      rewrite Hid in Hu1. assert (e1 = e2) as -> by congruence.
      congruence.
    + rewrite (Hperm _ memberList). apply NoDup_map_to_list.
Qed.

End Memberships.

(** * Further properties of the engine *)

Section Coverage.

Context {St : Type}.
Variable sdk : IdentityStore St.
Variable identityStoreId : option string.
Variable range : RangeOrder.

(** ** The paginator loop *)

(** X1. The loop that drains a paginator returns what it was given followed
    by the items of all pages, in order, and no error; when a page fails, it
    returns what it gathered from the pages before it together with that
    page's error, and reads no further page. *)
Theorem listing_gathers_pages {A} (res : list A) (pages : list (list A))
    (err : error) (unread : list (error + list A)) :
  drain res (inr <$> pages) = (res ++ concat pages, None) ∧
  drain res ((inr <$> pages) ++ inl err :: unread)
  = (res ++ concat pages, Some err).
Proof.
  revert res. induction pages as [|page pages IH]; intros res; simpl.
  { by rewrite app_nil_r. }
  destruct (IH (res ++ page)) as [H1 H2].
  split; rewrite app_assoc; [exact H1|exact H2].
Qed.

(** ** The user indexes *)

(** X2. Indexing the target users: under a username the index holds the last
    listed user of that name (an earlier one is overwritten), and what it
    held before when no listed user has the name; likewise for the index by
    user id.  The list of pending deletions is not touched. *)
Theorem listed_users_last_wins (awsUsers : list types.User)
    (usersSyncResult : UserSyncResult) (k : string) :
  index (SyncUsers_awsUsers awsUsers usersSyncResult) !! k
  = match last (filter (λ u, ToString (types.UserName u) = k) awsUsers) with
    | Some u => Some u
    | None => index usersSyncResult !! k
    end ∧
  indexByUserId (SyncUsers_awsUsers awsUsers usersSyncResult) !! k
  = match last (filter (λ u, ToString (types.UserId u) = k) awsUsers) with
    | Some u => Some u
    | None => indexByUserId usersSyncResult !! k
    end ∧
  toDelete (SyncUsers_awsUsers awsUsers usersSyncResult)
  = toDelete usersSyncResult.
Proof.
  revert usersSyncResult. induction awsUsers as [|u rest IH];
    intros usersSyncResult; [done|]. simpl SyncUsers_awsUsers.
  destruct (IH {| index := <[ToString (types.UserName u) := u]>
                             (index usersSyncResult);
                  toDelete := toDelete usersSyncResult;
                  indexByUserId := <[ToString (types.UserId u) := u]>
                                     (indexByUserId usersSyncResult) |})
    as (-> & -> & ->). simpl. rewrite !filter_cons.
  split; [|split; [|done]].
  - destruct (decide (ToString (types.UserName u) = k)) as [Heq|Hne].
    + rewrite last_cons. subst k. rewrite lookup_insert_eq.
      by destruct (last (filter _ rest)).
    + by rewrite lookup_insert_ne.
  - destruct (decide (ToString (types.UserId u) = k)) as [Heq|Hne].
    + rewrite last_cons. subst k. rewrite lookup_insert_eq.
      by destruct (last (filter (λ u0, ToString (types.UserId u0) = _) rest)).
    + by rewrite lookup_insert_ne.
Qed.

Lemma keyedUsers_awsUsers awsUsers usersSyncResult :
  keyedUsers usersSyncResult →
  keyedUsers (SyncUsers_awsUsers awsUsers usersSyncResult).
Proof.
  revert usersSyncResult. induction awsUsers as [|u rest IH];
    intros usersSyncResult Hk; [done|]. simpl. apply IH.
  destruct Hk as [Hn Hi]. split; simpl; intros k v; rewrite lookup_insert;
    case_decide as Hd; try (by intros [= <-]); [apply Hn|apply Hi].
Qed.

Lemma keyedUsers_gcpDeletedUsers gcpDeletedUsers usersSyncResult :
  keyedUsers usersSyncResult →
  keyedUsers (SyncUsers_gcpDeletedUsers gcpDeletedUsers usersSyncResult).
Proof.
  intros Hk.
  destruct (gcpDeletedUsers_spec gcpDeletedUsers usersSyncResult)
    as (Hi & Hu & _).
  unfold keyedUsers. by rewrite Hi, Hu.
Qed.

Lemma keyedUsers_googleUser s u usersSyncResult st usersSyncResult' :
  keyedUsers usersSyncResult →
  result (SyncUsers_googleUser sdk s u usersSyncResult) st
  = Ok usersSyncResult' →
  keyedUsers usersSyncResult'.
Proof.
  intros Hk. unfold SyncUsers_googleUser.
  destruct (ignoreUser s _); [by intros [= <-]|].
  destruct (index usersSyncResult !! _);
    destruct (admin.Suspended u); try (by intros [= <-]).
  unfold result, bind, aws_CreateUser, call.
  destruct (sdk_CreateUser sdk _ _ _ _ st) as [[err|uid] st']; simpl;
    intros [= <-]; [done|].
  destruct Hk as [Hn Hi]. split; simpl; intros k v; rewrite lookup_insert;
    case_decide as Hd; try (by intros [= <-]); [apply Hn|apply Hi].
Qed.

Lemma keyedUsers_googleUsers s googleUsers usersSyncResult st
    usersSyncResult' :
  keyedUsers usersSyncResult →
  result (SyncUsers_googleUsers sdk s googleUsers usersSyncResult) st
  = Ok usersSyncResult' →
  keyedUsers usersSyncResult'.
Proof.
  revert usersSyncResult st. induction googleUsers as [|u rest IH];
    intros usersSyncResult st Hk; simpl; [by intros [= <-]|].
  rewrite result_bind.
  destruct (googleUser_spec sdk s u usersSyncResult st) as (usr1 & Hr & _).
  rewrite Hr. apply IH. by eapply keyedUsers_googleUser.
Qed.

Lemma keyedUsers_empty :
  keyedUsers {| index := ∅; toDelete := []; indexByUserId := ∅ |}.
Proof. split; intros k u; simpl; by rewrite lookup_empty. Qed.

(** The three results [SyncUsers] may return. *)
Lemma SyncUsers_cases s q st :
  let awsUsers := drain [] (sdk_ListUsers sdk st) in
  let deleted := google.GetDeletedUsers (google s) in
  let active := google.GetUsers (google s) q in
  let usr0 := {| index := ∅; toDelete := []; indexByUserId := ∅ |} in
  let usr1 := SyncUsers_awsUsers awsUsers.1 usr0 in
  let usr2 := SyncUsers_gcpDeletedUsers deleted.1 usr1 in
  SyncUsers sdk s q st
  = match awsUsers.2 with
    | Some err => (Ok (usr0, Some err), st, [GetUsersCall])
    | None =>
        match deleted.2 with
        | Some err =>
            (Ok (usr1, Some err), st,
             [GetUsersCall; GoogleGetDeletedUsersCall])
        | None =>
            match active.2 with
            | Some err =>
                (Ok (usr2, Some err), st,
                 [GetUsersCall; GoogleGetDeletedUsersCall;
                  GoogleGetUsersCall q])
            | None =>
                (match result (SyncUsers_googleUsers sdk s active.1 usr2) st
                 with
                 | Ok usr => Ok (usr, None)
                 | Panic msg => Panic msg
                 end,
                 final (SyncUsers_googleUsers sdk s active.1 usr2) st,
                 GetUsersCall :: GoogleGetDeletedUsersCall ::
                   GoogleGetUsersCall q ::
                   trace (SyncUsers_googleUsers sdk s active.1 usr2) st)
            end
        end
    end.
Proof.
  cbv zeta. unfold SyncUsers, aws_GetUsers. rewrite run_bind_query.
  destruct (drain [] (sdk_ListUsers sdk st)) as [awsUsers [err|]]; [done|].
  simpl fst. simpl snd. unfold result at 1, final at 1, trace at 1.
  rewrite run_bind_google_call.
  destruct (google.GetDeletedUsers (google s)) as [deleted [err|]]; [done|].
  simpl fst. simpl snd. unfold result at 1, final at 1, trace at 1.
  rewrite run_bind_google_call.
  destruct (google.GetUsers (google s) q) as [active [err|]]; [done|].
  simpl fst. simpl snd. unfold result at 1, final at 1, trace at 1.
  rewrite run_bind. simpl.
  destruct (result (SyncUsers_googleUsers sdk s active _) st); simpl;
    [|done]. by rewrite app_nil_r.
Qed.

Lemma SyncUsers_result_keyed (s : syncGSuite) (q : string) (st : St) :
  ∃ usersSyncResult err,
    result (SyncUsers sdk s q) st = Ok (usersSyncResult, err) ∧
    (∀ k u, index usersSyncResult !! k = Some u →
            ToString (types.UserName u) = k) ∧
    (∀ k u, indexByUserId usersSyncResult !! k = Some u →
            ToString (types.UserId u) = k).
Proof.
  unfold result. rewrite SyncUsers_cases. cbv zeta.
  set (usr0 := {| index := ∅; toDelete := []; indexByUserId := ∅ |}).
  pose proof keyedUsers_empty as H0. fold usr0 in H0.
  pose proof (keyedUsers_awsUsers (drain [] (sdk_ListUsers sdk st)).1 _ H0)
    as H1.
  pose proof (keyedUsers_gcpDeletedUsers
                (google.GetDeletedUsers (google s)).1 _ H1) as H2.
  destruct (drain [] (sdk_ListUsers sdk st)).2; [by eexists _, _|].
  destruct (google.GetDeletedUsers (google s)).2; [by eexists _, _|].
  destruct (google.GetUsers (google s) q).2; [by eexists _, _|].
  destruct (googleUsers_spec sdk s (google.GetUsers (google s) q).1
              (SyncUsers_gcpDeletedUsers
                 (google.GetDeletedUsers (google s)).1
                 (SyncUsers_awsUsers (drain [] (sdk_ListUsers sdk st)).1
                    usr0)) st) as (usr3 & extra & Hr & _).
  simpl. rewrite Hr. eexists _, _. split; [done|].
  by eapply keyedUsers_googleUsers.
Qed.

(** X3. Whenever [SyncUsers] returns a result, with or without an error, both
    of its indexes are keyed by what they index: an entry of [index] sits
    under the username of its user, an entry of [indexByUserId] under the id
    of its user. *)
Theorem SyncUsers_indexes_keyed (s : syncGSuite) (q : string) (st : St)
    (usersSyncResult : UserSyncResult) (err : option error) :
  result (SyncUsers sdk s q) st = Ok (usersSyncResult, err) →
  (∀ k u, index usersSyncResult !! k = Some u →
          ToString (types.UserName u) = k) ∧
  (∀ k u, indexByUserId usersSyncResult !! k = Some u →
          ToString (types.UserId u) = k).
Proof.
  intros Hres.
  destruct (SyncUsers_result_keyed s q st) as (usr & err' & Hres' & Hkeyed).
  rewrite Hres in Hres'. by injection Hres' as <- <-.
Qed.

(** X4. The error [SyncUsers] returns is that of the first of its three
    listings to fail (target users, source tombstones, active source users);
    a refused [CreateUser] never surfaces.  When it returns an error, it has
    made no mutating call and left the store as it was. *)
Theorem SyncUsers_error_is_first_failed_listing (s : syncGSuite) (q : string)
    (st : St) :
  ∃ usersSyncResult err,
    result (SyncUsers sdk s q) st = Ok (usersSyncResult, err) ∧
    err = match (drain [] (sdk_ListUsers sdk st)).2 with
          | Some e => Some e
          | None =>
              match (google.GetDeletedUsers (google s)).2 with
              | Some e => Some e
              | None => (google.GetUsers (google s) q).2
              end
          end ∧
    (err ≠ None →
     mutations (trace (SyncUsers sdk s q) st) = [] ∧
     final (SyncUsers sdk s q) st = st).
Proof.
  unfold result, trace, final. rewrite SyncUsers_cases. cbv zeta.
  destruct (drain [] (sdk_ListUsers sdk st)).2; [by eexists _, _|].
  destruct (google.GetDeletedUsers (google s)).2; [by eexists _, _|].
  destruct (google.GetUsers (google s) q).2 eqn:Hq; [by eexists _, _|].
  destruct (googleUsers_spec sdk s (google.GetUsers (google s) q).1
              (SyncUsers_gcpDeletedUsers
                 (google.GetDeletedUsers (google s)).1
                 (SyncUsers_awsUsers (drain [] (sdk_ListUsers sdk st)).1
                    {| index := ∅; toDelete := []; indexByUserId := ∅ |}))
              st) as (usr3 & extra & Hr & _).
  simpl. rewrite Hr. by eexists _, _.
Qed.

(** ** What [SyncUsers] creates *)

Lemma awsUsers_index_listed awsUsers usersSyncResult k :
  is_Some (index usersSyncResult !! k) ∨
  (∃ t, t ∈ awsUsers ∧ ToString (types.UserName t) = k) →
  is_Some (index (SyncUsers_awsUsers awsUsers usersSyncResult) !! k).
Proof.
  revert usersSyncResult. induction awsUsers as [|u rest IH];
    intros usersSyncResult; simpl.
  { intros [?|(t & []%elem_of_nil & _)]; done. }
  intros Hk. apply IH. simpl. rewrite lookup_insert.
  case_decide as Hd; [by left; eexists|].
  destruct Hk as [?|(t & [->|Ht]%elem_of_cons & Hn)]; [by left|done|].
  right. by exists t.
Qed.

Lemma googleUser_creates_absent s u usersSyncResult st c :
  c ∈ trace (SyncUsers_googleUser sdk s u usersSyncResult) st →
  c = CreateUserCall (userToAdd u) ∧
  index usersSyncResult !! admin.PrimaryEmail u = None ∧
  ignoreUser s (admin.PrimaryEmail u) = false ∧
  admin.Suspended u = false.
Proof.
  unfold SyncUsers_googleUser.
  destruct (ignoreUser s _); [by intros ?%elem_of_nil|].
  destruct (index usersSyncResult !! _) eqn:Hidx;
    destruct (admin.Suspended u); try (by intros ?%elem_of_nil).
  rewrite trace_bind. unfold aws_CreateUser. rewrite trace_call, result_call.
  intros [Hc|Hc]%elem_of_app.
  - by apply list_elem_of_singleton in Hc as ->.
  - exfalso. revert Hc. cbv beta.
    destruct (sdk_CreateUser sdk _ _ _ _ st) as [[err|uid] st']; simpl;
      by intros ?%elem_of_nil.
Qed.

Lemma googleUsers_creates_absent s googleUsers usersSyncResult st c :
  c ∈ trace (SyncUsers_googleUsers sdk s googleUsers usersSyncResult) st →
  ∃ u, c = CreateUserCall (userToAdd u) ∧
       index usersSyncResult !! admin.PrimaryEmail u = None.
Proof.
  revert usersSyncResult st. induction googleUsers as [|u rest IH];
    intros usersSyncResult st; simpl; [by intros ?%elem_of_nil|].
  rewrite trace_bind. intros [Hc|Hc]%elem_of_app.
  { apply googleUser_creates_absent in Hc as (-> & ? & _). by exists u. }
  destruct (googleUser_spec sdk s u usersSyncResult st)
    as (usr1 & Hr & Hsub & _).
  rewrite Hr in Hc. apply IH in Hc as (u' & -> & Hnone). exists u'.
  split; [done|]. by eapply lookup_weaken_None.
Qed.

(** X5. [SyncUsers] never calls [CreateUser] with a username that the target
    listing holds. *)
Theorem listed_username_never_created (s : syncGSuite) (q : string) (st : St)
    (u t : types.User) :
  CreateUserCall u ∈ trace (SyncUsers sdk s q) st →
  t ∈ (drain [] (sdk_ListUsers sdk st)).1 →
  ToString (types.UserName u) ≠ ToString (types.UserName t).
Proof.
  unfold trace. rewrite SyncUsers_cases. cbv zeta.
  destruct (drain [] (sdk_ListUsers sdk st)).2.
  { by intros [[=]|[]%elem_of_nil]%elem_of_cons. }
  destruct (google.GetDeletedUsers (google s)).2.
  { by intros [[=]|[[=]|[]%elem_of_nil]%elem_of_cons]%elem_of_cons. }
  destruct (google.GetUsers (google s) q).2; simpl.
  { by intros
      [[=]|[[=]|[[=]|[]%elem_of_nil]%elem_of_cons]%elem_of_cons]%elem_of_cons. }
  intros [[=]|[[=]|[[=]|Hc]%elem_of_cons]%elem_of_cons]%elem_of_cons Ht.
  apply googleUsers_creates_absent in Hc as (a & [= ->] & Hnone).
  destruct (gcpDeletedUsers_spec (google.GetDeletedUsers (google s)).1
              (SyncUsers_awsUsers (drain [] (sdk_ListUsers sdk st)).1
                 {| index := ∅; toDelete := []; indexByUserId := ∅ |}))
    as (Hi & _). rewrite Hi in Hnone. simpl. intros Heq.
  destruct (awsUsers_index_listed (drain [] (sdk_ListUsers sdk st)).1
              {| index := ∅; toDelete := []; indexByUserId := ∅ |}
              (admin.PrimaryEmail a)) as [v Hv]; [|congruence].
  right. by exists t.
Qed.

(** X6. The pass over the active source users makes no call exactly when
    every listed user is on the ignore list, has its username in the index,
    or is suspended; the indexes are then what they were. *)
Theorem active_pass_quiet_iff (s : syncGSuite) (googleUsers : list admin.User)
    (usersSyncResult : UserSyncResult) (st : St) :
  (trace (SyncUsers_googleUsers sdk s googleUsers usersSyncResult) st = [] ↔
   Forall (λ u, admin.PrimaryEmail u ∈ config.IgnoreUsers (cfg s) ∨
                is_Some (index usersSyncResult !! admin.PrimaryEmail u) ∨
                admin.Suspended u = true) googleUsers) ∧
  (trace (SyncUsers_googleUsers sdk s googleUsers usersSyncResult) st = [] →
   ∃ usersSyncResult',
     SyncUsers_googleUsers sdk s googleUsers usersSyncResult st
     = (Ok usersSyncResult', st, []) ∧
     index usersSyncResult' = index usersSyncResult ∧
     indexByUserId usersSyncResult' = indexByUserId usersSyncResult).
Proof.
  revert usersSyncResult. induction googleUsers as [|u rest IH];
    intros usersSyncResult.
  { split; [done|]. intros _. by exists usersSyncResult. }
  assert ((admin.PrimaryEmail u ∈ config.IgnoreUsers (cfg s) ∨
           is_Some (index usersSyncResult !! admin.PrimaryEmail u) ∨
           admin.Suspended u = true) ∧
          (∃ usr1, SyncUsers_googleUser sdk s u usersSyncResult st
                   = (Ok usr1, st, []) ∧
                   index usr1 = index usersSyncResult ∧
                   indexByUserId usr1 = indexByUserId usersSyncResult) ∨
          (¬ (admin.PrimaryEmail u ∈ config.IgnoreUsers (cfg s) ∨
              is_Some (index usersSyncResult !! admin.PrimaryEmail u) ∨
              admin.Suspended u = true) ∧
           trace (SyncUsers_googleUser sdk s u usersSyncResult) st ≠ []))
    as Hbody.
  { unfold SyncUsers_googleUser.
    destruct (ignoreUser s (admin.PrimaryEmail u)) eqn:Hign.
    { left. apply ignoreUser_elem in Hign. split; [by left|].
      by exists usersSyncResult. }
    apply ignoreUser_not_elem in Hign.
    destruct (index usersSyncResult !! admin.PrimaryEmail u) eqn:Hidx.
    { left. split; [right; left; by eexists|].
      destruct (admin.Suspended u); by eexists. }
    destruct (admin.Suspended u) eqn:Hsusp.
    { left. split; [by right; right|]. by exists usersSyncResult. }
    right. split.
    - intros [?|[[? [=]]|[=]]]. done.
    - rewrite trace_bind. unfold aws_CreateUser. by rewrite trace_call. }
  simpl SyncUsers_googleUsers. rewrite Forall_cons.
  destruct Hbody as [[Hu (usr1 & Hrun & Hi & Hid)]|[Hu Ht]].
  - assert (bind (SyncUsers_googleUser sdk s u usersSyncResult)
              (λ usr, SyncUsers_googleUsers sdk s rest usr) st
            = SyncUsers_googleUsers sdk s rest usr1 st) as Hb.
    { unfold bind. rewrite Hrun.
      by destruct (SyncUsers_googleUsers sdk s rest usr1 st) as [[? ?] ?]. }
    unfold trace. rewrite Hb. fold (trace (SyncUsers_googleUsers sdk s rest usr1) st).
    destruct (IH usr1) as [Hiff Hrest]. rewrite Hi in Hiff.
    split; [rewrite Hiff; tauto|].
    intros Hq. destruct (Hrest Hq) as (usr2 & Hrun2 & Hi2 & Hid2).
    exists usr2. split; [done|]. by rewrite Hi2, Hid2.
  - rewrite trace_bind. split; [split|].
    + by intros [? _]%app_nil.
    + by intros [? _].
    + by intros [? _]%app_nil.
Qed.

(** ** What a run deletes *)

Lemma googleUsers_marked_origin s googleUsers usersSyncResult st
    usersSyncResult' U :
  keyedUsers usersSyncResult →
  result (SyncUsers_googleUsers sdk s googleUsers usersSyncResult) st
  = Ok usersSyncResult' →
  U ∈ toDelete usersSyncResult' →
  U ∈ toDelete usersSyncResult ∨
  ∃ a, a ∈ googleUsers ∧
       (admin.PrimaryEmail a ∉ config.IgnoreUsers (cfg s)) ∧
       admin.Suspended a = true ∧
       admin.PrimaryEmail a = ToString (types.UserName U).
Proof.
  revert usersSyncResult st. induction googleUsers as [|u rest IH];
    intros usersSyncResult st Hk; simpl; [intros [= <-]; by left|].
  rewrite result_bind.
  destruct (googleUser_spec sdk s u usersSyncResult st)
    as (usr1 & Hr & _ & Hdel).
  rewrite Hr. intros Hres HU.
  destruct (IH usr1 _ (keyedUsers_googleUser s u _ st _ Hk Hr) Hres HU)
    as [HU1|(a & Ha & ?)]; [|right; exists a; split; [by right|done]].
  rewrite Hdel in HU1. apply elem_of_app in HU1 as [?|HU1]; [by left|].
  right. exists u. split; [by left|]. unfold pending in HU1.
  destruct (ignoreUser s (admin.PrimaryEmail u)) eqn:Hign;
    [by apply elem_of_nil in HU1|].
  destruct (index usersSyncResult !! admin.PrimaryEmail u) as [userInAWS|]
    eqn:Hidx; [|by apply elem_of_nil in HU1].
  destruct (admin.Suspended u); [|by apply elem_of_nil in HU1].
  apply list_elem_of_singleton in HU1 as ->.
  split; [by apply ignoreUser_not_elem|]. split; [done|].
  symmetry. by apply Hk.
Qed.

Lemma RemoveUsers_calls_listed usersList st c :
  c ∈ trace (RemoveUsers sdk usersList) st →
  ∃ u, u ∈ usersList ∧ c = DeleteUserCall u.
Proof.
  revert st. induction usersList as [|u rest IH]; intros st; simpl;
    [by intros ?%elem_of_nil|].
  rewrite trace_bind. unfold aws_DeleteUser.
  rewrite trace_call, result_call, final_call.
  intros [->|Hc]%elem_of_cons; [exists u; split; [by left|done]|].
  destruct (sdk_DeleteUser sdk (types.UserId u) st) as [[err|] st'];
    simpl in Hc; [by apply elem_of_nil in Hc|].
  apply IH in Hc as (u' & ? & ->). exists u'. split; [by right|done].
Qed.

(** X7. A run calls [DeleteUser] only after [SyncUsers] and [SyncGroups]
    have both returned no error, and only for a user that [SyncUsers] marked:
    one whose username a source tombstone carries, or whose username belongs
    to an active source user that is suspended and not on the ignore list. *)
Theorem only_marked_users_deleted (s : syncGSuite) (st : St) (u : types.User) :
  DeleteUserCall u ∈ trace (DoSync_run sdk identityStoreId range s) st →
  (∃ usersSyncResult,
     result (SyncUsers sdk s (config.UserMatch (cfg s))) st
     = Ok (usersSyncResult, None) ∧
     result (SyncGroups sdk identityStoreId range s
               (config.GroupMatch (cfg s)) usersSyncResult)
       (final (SyncUsers sdk s (config.UserMatch (cfg s))) st) = Ok None ∧
     u ∈ toDelete usersSyncResult) ∧
  ((∃ d, d ∈ (google.GetDeletedUsers (google s)).1 ∧
         admin.PrimaryEmail d = ToString (types.UserName u)) ∨
   (∃ a, a ∈ (google.GetUsers (google s) (config.UserMatch (cfg s))).1 ∧
         admin.PrimaryEmail a = ToString (types.UserName u) ∧
         admin.Suspended a = true ∧
         admin.PrimaryEmail a ∉ config.IgnoreUsers (cfg s))).
Proof.
  unfold DoSync_run. rewrite trace_bind.
  intros [Hu|Hu]%elem_of_app.
  { pose proof (emits_SyncUsers sdk s (config.UserMatch (cfg s)) st) as He.
    rewrite Forall_forall in He. by destruct (He _ Hu). }
  destruct (result (SyncUsers sdk s (config.UserMatch (cfg s))) st)
    as [[usr [err|]]|msg] eqn:Husers; [by apply elem_of_nil in Hu| |
    by apply elem_of_nil in Hu].
  rewrite trace_bind in Hu. apply elem_of_app in Hu as [Hu|Hu].
  { pose proof (emits_SyncGroups sdk identityStoreId range s
                  (config.GroupMatch (cfg s)) usr
                  (final (SyncUsers sdk s (config.UserMatch (cfg s))) st))
      as He.
    rewrite Forall_forall in He. by destruct (He _ Hu). }
  destruct (result (SyncGroups _ _ _ _ _ _) _) as [[err|]|msg] eqn:Hgroups;
    [by apply elem_of_nil in Hu| |by apply elem_of_nil in Hu].
  apply RemoveUsers_calls_listed in Hu as (u' & Hin & [= <-]).
  split; [by exists usr|].
  revert Husers. unfold result. rewrite SyncUsers_cases. cbv zeta.
  destruct (drain [] (sdk_ListUsers sdk st)).2; [done|].
  destruct (google.GetDeletedUsers (google s)).2; [done|].
  destruct (google.GetUsers (google s) (config.UserMatch (cfg s))).2;
    [done|]. simpl.
  set (usr1 := SyncUsers_awsUsers _ _).
  destruct (result (SyncUsers_googleUsers sdk s _ _) st) as [usr'|]
    eqn:Hloop; [|done].
  intros [= ->].
  assert (keyedUsers usr1) as Hk1.
  { apply keyedUsers_awsUsers, keyedUsers_empty. }
  destruct (googleUsers_marked_origin s _ _ st usr u
              (keyedUsers_gcpDeletedUsers _ _ Hk1) Hloop Hin)
    as [Hd|(a & Ha & Hign & Hsusp & Hname)].
  - left.
    destruct (gcpDeletedUsers_spec (google.GetDeletedUsers (google s)).1
                usr1) as (_ & _ & Hdel).
    rewrite Hdel in Hd. unfold usr1 in Hd at 1.
    rewrite awsUsers_toDelete in Hd. simpl in Hd.
    apply list_elem_of_omap in Hd as (d & Hd & Hidx). exists d.
    split; [done|]. symmetry. by apply Hk1.
  - right. by exists a.
Qed.

(** X8. When [SyncUsers] returns an error, the run returns that error, makes
    no call beyond those [SyncUsers] made, none of them mutating, and leaves
    the store as it was. *)
Theorem SyncUsers_error_aborts_run (s : syncGSuite) (st : St)
    (usersSyncResult : UserSyncResult) (err : error) :
  result (SyncUsers sdk s (config.UserMatch (cfg s))) st
  = Ok (usersSyncResult, Some err) →
  DoSync_run sdk identityStoreId range s st
  = (Ok (Some err), st, trace (SyncUsers sdk s (config.UserMatch (cfg s))) st) ∧
  mutations (trace (SyncUsers sdk s (config.UserMatch (cfg s))) st) = [].
Proof.
  intros Hres. unfold DoSync_run. rewrite run_bind, Hres. simpl.
  rewrite app_nil_r. revert Hres. unfold result, final, trace.
  rewrite SyncUsers_cases. cbv zeta.
  destruct (drain [] (sdk_ListUsers sdk st)).2; [done|].
  destruct (google.GetDeletedUsers (google s)).2; [done|].
  destruct (google.GetUsers (google s) (config.UserMatch (cfg s))).2;
    [done|]. simpl.
  by destruct (result (SyncUsers_googleUsers sdk s _ _) st).
Qed.

(** ** The phases of [SyncGroups] *)

Lemma SyncGroups_cases s q usersSyncResult st :
  let awsGroups := drain [] (sdk_ListGroups sdk st) in
  let googleGroups := google.GetGroups (google s) q in
  let create :=
    SyncGroups_googleGroups sdk s googleGroups.1 ∅
      (SyncGroups_awsGroups awsGroups.1 ∅) in
  SyncGroups sdk identityStoreId range s q usersSyncResult st
  = match awsGroups.2 with
    | Some err => (Ok (Some err), st, [GetGroupsCall])
    | None =>
        match googleGroups.2 with
        | Some err =>
            (Ok (Some err), st, [GetGroupsCall; GoogleGetGroupsCall q])
        | None =>
            match result create st with
            | Panic msg =>
                (Panic msg, final create st,
                 GetGroupsCall :: GoogleGetGroupsCall q :: trace create st)
            | Ok (googleGroupsIndex, groupsIndex) =>
                let r := SyncGroups_groupsToDelete awsGroups.1
                           googleGroupsIndex [] groupsIndex in
                let sync :=
                  SyncGroups_memberships sdk identityStoreId range s
                    (range _ r.2) googleGroupsIndex usersSyncResult in
                let st1 := final create st in
                match result sync st1 with
                | Ok None =>
                    (result (SyncGroups_delete sdk r.1) (final sync st1),
                     final (SyncGroups_delete sdk r.1) (final sync st1),
                     GetGroupsCall :: GoogleGetGroupsCall q ::
                       trace create st ++ trace sync st1 ++
                       trace (SyncGroups_delete sdk r.1) (final sync st1))
                | other =>
                    (other, final sync st1,
                     GetGroupsCall :: GoogleGetGroupsCall q ::
                       trace create st ++ trace sync st1)
                end
            end
        end
    end.
Proof.
  cbv zeta. unfold SyncGroups, aws_GetGroups. rewrite run_bind_query.
  destruct (drain [] (sdk_ListGroups sdk st)) as [awsGroups [err|]]; [done|].
  simpl fst. simpl snd. unfold result at 1, final at 1, trace at 1.
  rewrite run_bind_google_call.
  destruct (google.GetGroups (google s) q) as [googleGroups [err|]]; [done|].
  simpl fst. simpl snd. unfold result at 1, final at 1, trace at 1.
  rewrite run_bind.
  destruct (result (SyncGroups_googleGroups sdk s googleGroups ∅ _) st)
    as [[googleGroupsIndex groupsIndex]|msg]; [|done].
  destruct (SyncGroups_groupsToDelete awsGroups googleGroupsIndex []
              groupsIndex) as [groupsToDelete groupsIndex'].
  cbn -[bind result final trace].
  rewrite result_bind, final_bind, trace_bind.
  destruct (result (SyncGroups_memberships _ _ _ _ _ _ _) _) as [[err|]|msg];
    simpl; by rewrite ?app_nil_r.
Qed.

(** X9. [SyncGroups] works in phases: the two listings, then calls of
    [CreateGroup] only, then membership calls only, then calls of
    [DeleteGroup] only. *)
Theorem SyncGroups_phases (s : syncGSuite) (q : string)
    (usersSyncResult : UserSyncResult) (st : St) :
  ∃ listings creations memberships deletions,
    trace (SyncGroups sdk identityStoreId range s q usersSyncResult) st
    = listings ++ creations ++ memberships ++ deletions ∧
    listings `prefix_of` [GetGroupsCall; GoogleGetGroupsCall q] ∧
    Forall (λ c, isCreateGroup c = true) creations ∧
    Forall (λ c, isMembershipCall c = true) memberships ∧
    Forall (λ c, isDeleteGroup c = true) deletions.
Proof.
  unfold trace at 1. rewrite SyncGroups_cases. cbv zeta.
  destruct (drain [] (sdk_ListGroups sdk st)).2.
  { exists [GetGroupsCall], [], [], []. split; [done|].
    split; [by exists [GoogleGetGroupsCall q]|]. by repeat split. }
  destruct (google.GetGroups (google s) q).2.
  { exists [GetGroupsCall; GoogleGetGroupsCall q], [], [], [].
    by repeat split. }
  set (create := SyncGroups_googleGroups sdk s _ _ _).
  assert (Forall (λ c, isCreateGroup c = true) (trace create st)) as Hc.
  { by apply emits_googleGroups. }
  destruct (result create st) as [[googleGroupsIndex groupsIndex]|msg].
  2:{ exists [GetGroupsCall; GoogleGetGroupsCall q], (trace create st), [], [].
      simpl. rewrite app_nil_r. by repeat split. }
  set (sync := SyncGroups_memberships sdk identityStoreId range s _ _ _).
  set (r := SyncGroups_groupsToDelete _ _ _ _).
  assert (Forall (λ c, isMembershipCall c = true)
            (trace sync (final create st))) as Hm.
  { by apply emits_memberships. }
  assert (Forall (λ c, isDeleteGroup c = true)
            (trace (SyncGroups_delete sdk r.1)
               (final sync (final create st)))) as Hd.
  { by apply emits_delete. }
  destruct (result sync (final create st)) as [[err|]|msg]; simpl.
  - exists [GetGroupsCall; GoogleGetGroupsCall q], (trace create st),
      (trace sync (final create st)), [].
    rewrite app_nil_r. by repeat split.
  - exists [GetGroupsCall; GoogleGetGroupsCall q], (trace create st),
      (trace sync (final create st)),
      (trace (SyncGroups_delete sdk r.1) (final sync (final create st))).
    by repeat split.
  - exists [GetGroupsCall; GoogleGetGroupsCall q], (trace create st),
      (trace sync (final create st)), [].
    rewrite app_nil_r. by repeat split.
Qed.

(** ** The reconciliation plan of one group *)

Lemma groupMembers_planned groupMembers usersSyncResult memberList k :
  SyncMembershipsForGroup_groupMembers groupMembers usersSyncResult memberList
    !! k
  = if decide (k ∈ admin.Member_Email <$> groupMembers) then
      match index usersSyncResult !! k with
      | Some val => Some val
      | None => memberList !! k
      end
    else memberList !! k.
Proof.
  revert memberList. induction groupMembers as [|m rest IH];
    intros memberList; simpl SyncMembershipsForGroup_groupMembers.
  { destruct (decide _) as [[]%elem_of_nil|]; done. }
  rewrite fmap_cons.
  destruct (index usersSyncResult !! admin.Member_Email m) as [val|] eqn:Hm;
    rewrite IH;
    destruct (decide (k ∈ admin.Member_Email <$> rest)) as [Hr|Hr];
    destruct (decide (k ∈ admin.Member_Email m :: (admin.Member_Email <$> rest)))
      as [Hc|Hc]; try done.
  - destruct (index usersSyncResult !! k) eqn:Hk; [done|].
    rewrite lookup_insert_ne; [done|]. congruence.
  - exfalso. apply Hc. by right.
  - apply elem_of_cons in Hc as [->|?]; [|done].
    by rewrite lookup_insert_eq, Hm.
  - rewrite lookup_insert_ne; [done|]. intros <-. apply Hc. by left.
  - exfalso. apply Hc. by right.
  - apply elem_of_cons in Hc as [->|?]; [|done]. by rewrite Hm.
Qed.

Lemma resolved_user usersSyncResult m v user :
  types.Membership_MemberId m = Some (types.MemberIdMemberUserId v) →
  indexByUserId usersSyncResult !! v = Some user →
  resolved usersSyncResult m = Some (ToString (types.UserName user)).
Proof. intros Hid Hv. unfold resolved. by rewrite Hid, Hv. Qed.

Lemma resolved_none usersSyncResult m v :
  types.Membership_MemberId m = Some (types.MemberIdMemberUserId v) →
  indexByUserId usersSyncResult !! v = None →
  resolved usersSyncResult m = None.
Proof. intros Hid Hv. unfold resolved. by rewrite Hid, Hv. Qed.

Lemma awsMembers_remaining awsMembers usersSyncResult toDelete memberList
    toDelete' memberList' k u :
  SyncMembershipsForGroup_awsMembers awsMembers usersSyncResult toDelete
    memberList = Ok (toDelete', memberList') →
  memberList' !! k = Some u ↔
  memberList !! k = Some u ∧
  ∀ m, m ∈ awsMembers → resolved usersSyncResult m ≠ Some k.
Proof.
  revert toDelete memberList. induction awsMembers as [|m rest IH];
    intros toDelete memberList; simpl.
  { intros [= <- <-]. split; [|by intros [? _]].
    intros ?. split; [done|]. by intros ? ?%elem_of_nil. }
  destruct (types.Membership_MemberId m) as [[v|tag]|] eqn:Hid; [|done|done].
  destruct (indexByUserId usersSyncResult !! v) as [user|] eqn:Hv.
  - pose proof (resolved_user _ _ _ _ Hid Hv) as Hres.
    intros Hl. rewrite (IH _ _ Hl), lookup_delete.
    destruct (decide (ToString (types.UserName user) = k)) as [Hk|Hk].
    + split; [by intros [? _]|]. intros [_ Hall]. exfalso.
      apply (Hall m); [by left|]. by rewrite Hres, Hk.
    + split; intros [Hm Hall]; (split; [done|]).
      * intros m' [->|Hin]%elem_of_cons; [|by apply Hall].
        rewrite Hres. congruence.
      * intros m' Hin. apply Hall. by right.
  - pose proof (resolved_none _ _ _ Hid Hv) as Hres.
    intros Hl. rewrite (IH _ _ Hl).
    split; intros [Hm Hall]; (split; [done|]).
    + intros m' [->|Hin]%elem_of_cons; [|by apply Hall]. by rewrite Hres.
    + intros m' Hin. apply Hall. by right.
Qed.

Lemma awsMembers_marks awsMembers usersSyncResult toDelete memberList
    toDelete' memberList' m :
  SyncMembershipsForGroup_awsMembers awsMembers usersSyncResult toDelete
    memberList = Ok (toDelete', memberList') →
  m ∈ awsMembers →
  (∀ k, resolved usersSyncResult m = Some k → memberList !! k = None) →
  m ∈ toDelete'.
Proof.
  revert toDelete memberList. induction awsMembers as [|m0 rest IH];
    intros toDelete memberList; simpl; [by intros _ ?%elem_of_nil|].
  destruct (types.Membership_MemberId m0) as [[v|tag]|] eqn:Hid; [|done|done].
  destruct (indexByUserId usersSyncResult !! v) as [user|] eqn:Hv.
  - pose proof (resolved_user _ _ _ _ Hid Hv) as Hres.
    intros Hl [->|Hin]%elem_of_cons Hnone.
    + rewrite (Hnone _ Hres) in Hl.
      apply awsMembers_spec in Hl as [(extra & -> & _) _].
      apply elem_of_app. left. apply elem_of_app. right. by left.
    + apply (IH _ _ Hl Hin). intros k Hk. rewrite lookup_delete.
      case_decide; [done|]. by apply Hnone.
  - intros Hl [->|Hin]%elem_of_cons Hnone.
    + apply awsMembers_spec in Hl as [(extra & -> & _) _].
      apply elem_of_app. left. apply elem_of_app. right. by left.
    + by apply (IH _ _ Hl Hin).
Qed.

Lemma awsMembers_duplicates awsMembers usersSyncResult toDelete memberList
    toDelete' memberList' i j m1 m2 k :
  SyncMembershipsForGroup_awsMembers awsMembers usersSyncResult toDelete
    memberList = Ok (toDelete', memberList') →
  i < j →
  awsMembers !! i = Some m1 →
  awsMembers !! j = Some m2 →
  resolved usersSyncResult m1 = Some k →
  resolved usersSyncResult m2 = Some k →
  m2 ∈ toDelete'.
Proof.
  revert toDelete memberList i j. induction awsMembers as [|m0 rest IH];
    intros toDelete memberList i j; simpl; [done|].
  destruct (types.Membership_MemberId m0) as [[v|tag]|] eqn:Hid; [|done|done].
  intros Hl Hij Hi Hj H1 H2. destruct j as [|j]; [lia|]. simpl in Hj.
  destruct i as [|i].
  - injection Hi as ->.
    destruct (indexByUserId usersSyncResult !! v) as [user|] eqn:Hv.
    + rewrite (resolved_user _ _ _ _ Hid Hv) in H1. injection H1 as H1.
      rewrite H1 in Hl.
      apply (awsMembers_marks _ _ _ _ _ _ m2 Hl).
      * by eapply list_elem_of_lookup_2.
      * intros k' Hk'. rewrite H2 in Hk'. injection Hk' as <-.
        by rewrite lookup_delete_eq.
    + by rewrite (resolved_none _ _ _ Hid Hv) in H1.
  - simpl in Hi.
    destruct (indexByUserId usersSyncResult !! v) as [user|];
      apply (IH _ _ i j Hl); (lia || done).
Qed.

Lemma awsMembers_keeps awsMembers usersSyncResult toDelete memberList
    toDelete' memberList' m k :
  SyncMembershipsForGroup_awsMembers awsMembers usersSyncResult toDelete
    memberList = Ok (toDelete', memberList') →
  NoDup awsMembers →
  m ∈ awsMembers →
  resolved usersSyncResult m = Some k →
  is_Some (memberList !! k) →
  (∀ m', m' ∈ awsMembers → resolved usersSyncResult m' = Some k → m' = m) →
  (m ∉ toDelete) →
  m ∉ toDelete'.
Proof.
  revert toDelete memberList. induction awsMembers as [|m0 rest IH];
    intros toDelete memberList; simpl; [by intros _ _ ?%elem_of_nil|].
  destruct (types.Membership_MemberId m0) as [[v|tag]|] eqn:Hid; [|done|done].
  intros Hl [Hm0 Hnd]%NoDup_cons Hin Hres [u Hu] Huniq Hout.
  apply elem_of_cons in Hin as [->|Hin].
  - unfold resolved in Hres. rewrite Hid in Hres.
    destruct (indexByUserId usersSyncResult !! v) as [user|]; [|done].
    injection Hres as Hres. rewrite Hres, Hu in Hl.
    apply awsMembers_spec in Hl as [(extra & -> & Hextra) _].
    intros [?|?%Hextra]%elem_of_app; done.
  - assert (m ≠ m0) as Hne by (intros ->; done).
    destruct (indexByUserId usersSyncResult !! v) as [user|] eqn:Hv.
    + pose proof (resolved_user _ _ _ _ Hid Hv) as Hres0.
      assert (ToString (types.UserName user) ≠ k) as Hk.
      { intros Hk. apply Hne. symmetry. apply Huniq; [by left|].
        by rewrite Hres0, Hk. }
      apply (IH _ _ Hl Hnd Hin Hres).
      * exists u. by rewrite lookup_delete_ne.
      * intros m' Hm'. apply Huniq. by right.
      * destruct (memberList !! ToString (types.UserName user)); [done|].
        intros [?|[?|[]%elem_of_nil]%elem_of_cons]%elem_of_app; done.
    + apply (IH _ _ Hl Hnd Hin Hres); [by exists u| |].
      * intros m' Hm'. apply Huniq. by right.
      * intros [?|[?|[]%elem_of_nil]%elem_of_cons]%elem_of_app; done.
Qed.

Lemma awsMembers_panics awsMembers usersSyncResult toDelete memberList msg :
  SyncMembershipsForGroup_awsMembers awsMembers usersSyncResult toDelete
    memberList = Panic msg →
  msg = nilDeref ∧ ∃ m, m ∈ awsMembers ∧ notUserId m.
Proof.
  revert toDelete memberList. induction awsMembers as [|m0 rest IH];
    intros toDelete memberList; simpl; [done|].
  destruct (types.Membership_MemberId m0) as [[v|tag]|] eqn:Hid.
  - intros Hl.
    assert (msg = nilDeref ∧ ∃ m, m ∈ rest ∧ notUserId m)
      as (-> & m & Hin & Hm).
    { destruct (indexByUserId usersSyncResult !! v); by eapply IH. }
    split; [done|]. exists m. split; [by right|done].
  - intros [= <-]. split; [done|]. exists m0. split; [by left|].
    intros v. by rewrite Hid.
  - intros [= <-]. split; [done|]. exists m0. split; [by left|].
    intros v. by rewrite Hid.
Qed.

(** X10. What the two pure loops of [SyncMembershipsForGroup] plan.  The
    users to add are the index entries under a listed source member's email
    that no listed target membership resolves to.  The memberships to remove
    are listed ones; among them every one that does not resolve to a wanted
    username, and every later one of two that resolve to the same username.
    A listed membership that alone resolves to a wanted username is not
    removed. *)
Theorem reconciliation_plan (usersSyncResult : UserSyncResult)
    (groupMembers : list admin.Member)
    (awsMembers toDelete : list types.GroupMembership)
    (memberList : gmap string types.User) :
  SyncMembershipsForGroup_awsMembers awsMembers usersSyncResult []
    (SyncMembershipsForGroup_groupMembers groupMembers usersSyncResult ∅)
  = Ok (toDelete, memberList) →
  (∀ k u, memberList !! k = Some u ↔
          index usersSyncResult !! k = Some u ∧
          k ∈ admin.Member_Email <$> groupMembers ∧
          ∀ m, m ∈ awsMembers → resolved usersSyncResult m ≠ Some k) ∧
  (∀ m, m ∈ toDelete → m ∈ awsMembers) ∧
  (∀ m, m ∈ awsMembers →
        (∀ k, resolved usersSyncResult m = Some k →
              ¬ wanted usersSyncResult groupMembers k) →
        m ∈ toDelete) ∧
  (∀ i j m1 m2 k,
     i < j → awsMembers !! i = Some m1 → awsMembers !! j = Some m2 →
     resolved usersSyncResult m1 = Some k →
     resolved usersSyncResult m2 = Some k →
     m2 ∈ toDelete) ∧
  (NoDup awsMembers →
   ∀ m k, m ∈ awsMembers →
          resolved usersSyncResult m = Some k →
          wanted usersSyncResult groupMembers k →
          (∀ m', m' ∈ awsMembers → resolved usersSyncResult m' = Some k →
                 m' = m) →
          m ∉ toDelete).
Proof.
  intros Hl.
  assert (∀ k, is_Some (SyncMembershipsForGroup_groupMembers groupMembers
                          usersSyncResult ∅ !! k)
               ↔ wanted usersSyncResult groupMembers k) as Hwanted.
  { intros k. rewrite groupMembers_planned. unfold wanted.
    destruct (decide _) as [Hin|Hin].
    - destruct (index usersSyncResult !! k); rewrite ?lookup_empty.
      + split; [by intros _|by intros _; eexists].
      + split; [by intros [? ?]|by intros [_ [? ?]]].
    - rewrite lookup_empty. split; [by intros [? ?]|by intros [? _]]. }
  split; [|split; [|split; [|split]]].
  - intros k u. rewrite (awsMembers_remaining _ _ _ _ _ _ k u Hl).
    rewrite groupMembers_planned.
    destruct (decide _) as [Hin|Hin].
    + destruct (index usersSyncResult !! k); rewrite ?lookup_empty.
      * split; [by intros [? ?]|by intros (? & _ & ?)].
      * split; by intros [? _].
    + rewrite lookup_empty. split; [by intros [? _]|by intros (_ & ? & _)].
  - intros m Hm. apply awsMembers_spec in Hl as [(extra & Heq & Hextra) _].
    rewrite Heq in Hm. by apply Hextra.
  - intros m Hin Hnot. apply (awsMembers_marks _ _ _ _ _ _ m Hl Hin).
    intros k Hk. apply eq_None_not_Some. intros Hs%Hwanted.
    by apply (Hnot k).
  - intros i j m1 m2 k. by apply (awsMembers_duplicates _ _ _ _ _ _ _ _ _ _ _ Hl).
  - intros Hnd m k Hin Hres Hw%Hwanted Huniq.
    apply (awsMembers_keeps _ _ _ _ _ _ m k Hl Hnd Hin Hres Hw Huniq).
    apply not_elem_of_nil.
Qed.

(** ** The calls of [SyncMembershipsForGroup] *)

Lemma SyncMembershipsForGroup_cases s googleGroup awsGroup usersSyncResult st :
  let groupMembers := google.GetGroupMembers (google s) googleGroup in
  let awsMembers :=
    drain [] (sdk_ListGroupMemberships sdk (types.GroupId awsGroup) st) in
  let plan :=
    SyncMembershipsForGroup_awsMembers awsMembers.1 usersSyncResult []
      (SyncMembershipsForGroup_groupMembers groupMembers.1 usersSyncResult ∅)
  in
  SyncMembershipsForGroup sdk identityStoreId range s (Some googleGroup)
    awsGroup usersSyncResult st
  = match groupMembers.2 with
    | Some err =>
        (Ok (Some err), st, [GoogleGetGroupMembersCall googleGroup])
    | None =>
        match awsMembers.2 with
        | Some err =>
            (Ok (Some err), st,
             [GoogleGetGroupMembersCall googleGroup;
              GetGroupMembersCall awsGroup])
        | None =>
            match plan with
            | Panic msg =>
                (Panic msg, st,
                 [GoogleGetGroupMembersCall googleGroup;
                  GetGroupMembersCall awsGroup])
            | Ok (toDelete, memberList) =>
                let remove := SyncMembershipsForGroup_remove sdk toDelete in
                let add :=
                  SyncMembershipsForGroup_add sdk identityStoreId
                    (range _ memberList) awsGroup in
                match result remove st with
                | Ok None =>
                    (result add (final remove st), final add (final remove st),
                     GoogleGetGroupMembersCall googleGroup ::
                       GetGroupMembersCall awsGroup ::
                       trace remove st ++ trace add (final remove st))
                | other =>
                    (other, final remove st,
                     GoogleGetGroupMembersCall googleGroup ::
                       GetGroupMembersCall awsGroup :: trace remove st)
                end
            end
        end
    end.
Proof.
  cbv zeta. unfold SyncMembershipsForGroup. rewrite run_bind_google_call.
  destruct (google.GetGroupMembers (google s) googleGroup)
    as [groupMembers [err|]]; [done|].
  simpl fst. simpl snd. unfold result at 1, final at 1, trace at 1.
  unfold aws_GetGroupMembers. rewrite run_bind_query.
  destruct (drain [] (sdk_ListGroupMemberships sdk _ st))
    as [awsMembers [err|]]; [done|].
  simpl fst. simpl snd.
  destruct (SyncMembershipsForGroup_awsMembers _ _ _ _)
    as [[toDelete memberList]|msg]; [|done].
  cbn -[bind result final trace].
  rewrite result_bind, final_bind, trace_bind.
  destruct (result (SyncMembershipsForGroup_remove sdk toDelete) st)
    as [[err|]|msg]; simpl; by rewrite ?app_nil_r.
Qed.

Lemma remove_issues_prefix toDelete st :
  ∃ n,
    trace (SyncMembershipsForGroup_remove sdk toDelete) st
    = RemoveGroupMembershipCall <$> take n toDelete ∧
    (result (SyncMembershipsForGroup_remove sdk toDelete) st = Ok None →
     n = length toDelete) ∧
    ∀ msg, result (SyncMembershipsForGroup_remove sdk toDelete) st
           ≠ Panic msg.
Proof.
  revert st. induction toDelete as [|m rest IH]; intros st; simpl.
  { by exists 0. }
  rewrite trace_bind, result_bind. unfold aws_RemoveGroupMembership.
  rewrite trace_call, result_call, final_call.
  destruct (sdk_DeleteGroupMembership sdk (types.MembershipId m) st)
    as [[err|] st']; simpl.
  { exists 1. simpl. by rewrite ?take_0. }
  destruct (IH st') as (n & Ht & Hn & Hp). exists (S n). simpl.
  rewrite Ht. split; [done|]. split; [|done]. intros ?. f_equal. auto.
Qed.

Lemma add_issues_prefix (memberList : list (string * types.User)) awsGroup st :
  ∃ n,
    trace (SyncMembershipsForGroup_add sdk identityStoreId memberList awsGroup)
      st
    = (λ e, AddUserToGroupCall e.2 awsGroup) <$> take n memberList ∧
    (result (SyncMembershipsForGroup_add sdk identityStoreId memberList
               awsGroup) st = Ok None →
     n = length memberList) ∧
    ∀ msg, result (SyncMembershipsForGroup_add sdk identityStoreId memberList
                     awsGroup) st ≠ Panic msg.
Proof.
  revert st. induction memberList as [|[k u] rest IH]; intros st; simpl.
  { by exists 0. }
  rewrite trace_bind, result_bind. unfold aws_AddUserToGroup.
  rewrite trace_call, result_call, final_call. cbv zeta.
  destruct (sdk_CreateGroupMembership sdk (types.GroupId awsGroup) _ st)
    as [[err|mid] st']; simpl.
  { exists 1. simpl. by rewrite ?take_0. }
  destruct (IH st') as (n & Ht & Hn & Hp). exists (S n). simpl.
  rewrite Ht. split; [done|]. split; [|done]. intros ?. f_equal. auto.
Qed.

Lemma SyncMembershipsForGroup_calls s googleGroup awsGroup usersSyncResult st
    c :
  c ∈ trace (SyncMembershipsForGroup sdk identityStoreId range s
               (Some googleGroup) awsGroup usersSyncResult) st →
  match c with
  | GoogleGetGroupMembersCall g => g = googleGroup
  | GetGroupMembersCall g | AddUserToGroupCall _ g => g = awsGroup
  | RemoveGroupMembershipCall _ => True
  | _ => False
  end.
Proof.
  unfold trace. rewrite SyncMembershipsForGroup_cases. cbv zeta.
  destruct (google.GetGroupMembers (google s) googleGroup).2.
  { by intros [->|[]%elem_of_nil]%elem_of_cons. }
  destruct (drain [] (sdk_ListGroupMemberships sdk _ st)).2.
  { by intros [->|[->|[]%elem_of_nil]%elem_of_cons]%elem_of_cons. }
  destruct (SyncMembershipsForGroup_awsMembers _ _ _ _)
    as [[toDelete memberList]|msg].
  2:{ by intros [->|[->|[]%elem_of_nil]%elem_of_cons]%elem_of_cons. }
  destruct (remove_issues_prefix toDelete st) as (n & Ht & _).
  destruct (add_issues_prefix (range _ memberList) awsGroup
              (final (SyncMembershipsForGroup_remove sdk toDelete) st))
    as (n' & Ht' & _).
  rewrite Ht, Ht'.
  destruct (result (SyncMembershipsForGroup_remove sdk toDelete) st)
    as [[err|]|msg'];
    (intros [->|[->|Hc]%elem_of_cons]%elem_of_cons; [done|done|]);
    repeat (apply elem_of_app in Hc as [Hc|Hc]);
    by apply list_elem_of_fmap in Hc as (? & -> & _).
Qed.

(** X11. With a runtime that visits entries of the map it ranges over, every
    call [SyncMembershipsForGroup] makes for a source group and a target
    group is planned: the two listings are of these two groups; a membership
    it removes is one the target listing holds; a user it adds, it adds to
    this target group, and the user is the index entry under the email of a
    listed source member, to which no listed target membership resolves. *)
Theorem membership_calls_are_planned (s : syncGSuite)
    (googleGroup : admin.Group) (awsGroup : types.Group)
    (usersSyncResult : UserSyncResult) (st : St) (c : Call) :
  visits_entries range →
  c ∈ trace (SyncMembershipsForGroup sdk identityStoreId range s
               (Some googleGroup) awsGroup usersSyncResult) st →
  match c with
  | GoogleGetGroupMembersCall g => g = googleGroup
  | GetGroupMembersCall g => g = awsGroup
  | RemoveGroupMembershipCall m =>
      m ∈ (drain [] (sdk_ListGroupMemberships sdk (types.GroupId awsGroup)
                       st)).1
  | AddUserToGroupCall u g =>
      g = awsGroup ∧
      ∃ k, index usersSyncResult !! k = Some u ∧
           k ∈ admin.Member_Email
                 <$> (google.GetGroupMembers (google s) googleGroup).1 ∧
           ∀ m, m ∈ (drain [] (sdk_ListGroupMemberships sdk
                                 (types.GroupId awsGroup) st)).1 →
                resolved usersSyncResult m ≠ Some k
  | _ => False
  end.
Proof.
  intros Hrange. unfold trace. rewrite SyncMembershipsForGroup_cases.
  cbv zeta.
  destruct (google.GetGroupMembers (google s) googleGroup).2.
  { by intros [->|[]%elem_of_nil]%elem_of_cons. }
  destruct (drain [] (sdk_ListGroupMemberships sdk _ st)).2.
  { by intros [->|[->|[]%elem_of_nil]%elem_of_cons]%elem_of_cons. }
  destruct (SyncMembershipsForGroup_awsMembers _ _ _ _)
    as [[toDelete memberList]|msg] eqn:Hplan.
  2:{ by intros [->|[->|[]%elem_of_nil]%elem_of_cons]%elem_of_cons. }
  assert (∀ c, c ∈ trace (SyncMembershipsForGroup_remove sdk toDelete) st →
               ∃ m, c = RemoveGroupMembershipCall m ∧
                    m ∈ (drain [] (sdk_ListGroupMemberships sdk
                                     (types.GroupId awsGroup) st)).1) as Hrem.
  { intros c' Hc'.
    destruct (remove_issues_prefix toDelete st) as (n & Ht & _).
    rewrite Ht in Hc'. apply list_elem_of_fmap in Hc' as (m & -> & Hm).
    exists m. split; [done|].
    apply elem_of_take in Hm as (i & Hi%list_elem_of_lookup_2 & _).
    apply awsMembers_spec in Hplan as [(extra & Heq & Hextra) _].
    apply Hextra. by rewrite Heq in Hi. }
  destruct (result (SyncMembershipsForGroup_remove sdk toDelete) st)
    as [[err|]|msg'];
    (intros [->|[->|Hc]%elem_of_cons]%elem_of_cons; [done|done|]).
  - by apply Hrem in Hc as (m & -> & Hm).
  - apply elem_of_app in Hc as [Hc|Hc];
      [by apply Hrem in Hc as (m & -> & Hm)|].
    destruct (add_issues_prefix (range _ memberList) awsGroup
                (final (SyncMembershipsForGroup_remove sdk toDelete) st))
      as (n & Ht & _).
    rewrite Ht in Hc.
    apply list_elem_of_fmap in Hc as ([k u] & -> & Hin).
    split; [done|]. exists k.
    assert ((k, u) ∈ range _ memberList) as Hku.
    { apply elem_of_take in Hin as (i & Hi & _).
      by eapply list_elem_of_lookup_2. }
    apply Hrange in Hku.
    apply (awsMembers_remaining _ _ _ _ _ _ k u Hplan) in Hku as [Hk Hall].
    rewrite groupMembers_planned in Hk.
    destruct (decide _) as [Hmem|Hmem]; [|by rewrite lookup_empty in Hk].
    destruct (index usersSyncResult !! k) eqn:Hidx;
      [|by rewrite lookup_empty in Hk].
    done.
  - by apply Hrem in Hc as (m & -> & Hm).
Qed.


(** X12. When [SyncMembershipsForGroup] returns no error, it has made the
    two listings, then removed every membership of the plan, in the order of
    the plan, then added every user of the plan, in the order of the
    runtime. *)
Theorem successful_sync_issues_whole_plan (s : syncGSuite)
    (googleGroup : option admin.Group) (awsGroup : types.Group)
    (usersSyncResult : UserSyncResult) (st : St) :
  result (SyncMembershipsForGroup sdk identityStoreId range s googleGroup
            awsGroup usersSyncResult) st = Ok None →
  ∃ g toDelete memberList,
    googleGroup = Some g ∧
    SyncMembershipsForGroup_awsMembers
      (drain [] (sdk_ListGroupMemberships sdk (types.GroupId awsGroup) st)).1
      usersSyncResult []
      (SyncMembershipsForGroup_groupMembers
         (google.GetGroupMembers (google s) g).1 usersSyncResult ∅)
    = Ok (toDelete, memberList) ∧
    trace (SyncMembershipsForGroup sdk identityStoreId range s googleGroup
             awsGroup usersSyncResult) st
    = GoogleGetGroupMembersCall g :: GetGroupMembersCall awsGroup ::
        (RemoveGroupMembershipCall <$> toDelete) ++
        ((λ e, AddUserToGroupCall e.2 awsGroup) <$> range _ memberList).
Proof.
  destruct googleGroup as [g|]; [|done].
  unfold result, trace. rewrite SyncMembershipsForGroup_cases. cbv zeta.
  destruct (google.GetGroupMembers (google s) g).2; [done|].
  destruct (drain [] (sdk_ListGroupMemberships sdk _ st)).2; [done|].
  destruct (SyncMembershipsForGroup_awsMembers _ _ _ _)
    as [[toDelete memberList]|msg] eqn:Hplan; [|done].
  destruct (remove_issues_prefix toDelete st) as (n & Ht & Hn & _).
  destruct (result (SyncMembershipsForGroup_remove sdk toDelete) st)
    as [[err|]|msg]; [done| |done].
  destruct (add_issues_prefix (range _ memberList) awsGroup
              (final (SyncMembershipsForGroup_remove sdk toDelete) st))
    as (n' & Ht' & Hn' & _).
  simpl. intros Hres. exists g, toDelete, memberList.
  split; [done|]. split; [done|].
  rewrite Ht, Ht', Hn, Hn', !firstn_all; done.
Qed.

(** X13. Handed no source group, [SyncMembershipsForGroup] panics on the
    nil dereference before it makes a call.  Handed one, when both listings
    succeed and the target listing holds a membership whose member id is not
    a user id, it panics on the nil dereference after the two listings: it
    has made no mutating call and the store is as it was. *)
Theorem SyncMembershipsForGroup_panics_before_mutation (s : syncGSuite)
    (awsGroup : types.Group) (usersSyncResult : UserSyncResult) (st : St) :
  SyncMembershipsForGroup sdk identityStoreId range s None awsGroup
    usersSyncResult st = (Panic nilDeref, st, []) ∧
  ∀ googleGroup m,
    (google.GetGroupMembers (google s) googleGroup).2 = None →
    (drain [] (sdk_ListGroupMemberships sdk (types.GroupId awsGroup) st)).2
    = None →
    m ∈ (drain [] (sdk_ListGroupMemberships sdk (types.GroupId awsGroup)
                     st)).1 →
    notUserId m →
    SyncMembershipsForGroup sdk identityStoreId range s (Some googleGroup)
      awsGroup usersSyncResult st
    = (Panic nilDeref, st,
       [GoogleGetGroupMembersCall googleGroup; GetGroupMembersCall awsGroup]).
Proof.
  split; [done|]. intros googleGroup m Hg Ha Hm Hbad.
  rewrite SyncMembershipsForGroup_cases. cbv zeta. rewrite Hg, Ha.
  by rewrite (awsMembers_cast_mismatch _ _ _ _ m Hm Hbad).
Qed.

(** ** What [SyncGroups] creates, reconciles and deletes *)

Lemma googleGroup_creates_absent s g googleGroupsIndex groupsIndex st c :
  c ∈ trace (SyncGroups_googleGroup sdk s g googleGroupsIndex groupsIndex) st →
  c = CreateGroupCall (Some (admin.Group_Name g))
        (Some (admin.Group_Description g)) ∧
  groupsIndex !! admin.Group_Name g = None.
Proof.
  unfold SyncGroups_googleGroup.
  destruct (ignoreGroup s _); [by intros ?%elem_of_nil|].
  destruct (groupsIndex !! admin.Group_Name g) eqn:Hidx;
    [by intros ?%elem_of_nil|].
  rewrite trace_bind. unfold aws_CreateGroup.
  rewrite trace_call, result_call.
  intros [Hc|Hc]%elem_of_app.
  - by apply list_elem_of_singleton in Hc as ->.
  - exfalso. revert Hc. cbv beta.
    destruct (sdk_CreateGroup sdk _ _ st) as [[err|gid] st']; simpl;
      by intros ?%elem_of_nil.
Qed.

Lemma googleGroups_creates_absent s googleGroups googleGroupsIndex groupsIndex
    st c :
  c ∈ trace (SyncGroups_googleGroups sdk s googleGroups googleGroupsIndex
               groupsIndex) st →
  ∃ g, c = CreateGroupCall (Some (admin.Group_Name g))
             (Some (admin.Group_Description g)) ∧
       groupsIndex !! admin.Group_Name g = None.
Proof.
  revert googleGroupsIndex groupsIndex st.
  induction googleGroups as [|g rest IH];
    intros googleGroupsIndex groupsIndex st; simpl;
    [by intros ?%elem_of_nil|].
  rewrite trace_bind. intros [Hc|Hc]%elem_of_app.
  { apply googleGroup_creates_absent in Hc as [-> ?]. by exists g. }
  destruct (googleGroup_spec sdk s g googleGroupsIndex groupsIndex st)
    as (groupsIndex1 & Hr & _ & Hpres & _).
  rewrite Hr in Hc. apply IH in Hc as (g' & -> & Hnone). exists g'.
  split; [done|].
  destruct (groupsIndex !! admin.Group_Name g') eqn:Hg'; [|done].
  rewrite Hpres in Hnone; [congruence|by eexists].
Qed.

Lemma googleGroups_index_values s googleGroups googleGroupsIndex groupsIndex
    st googleGroupsIndex' groupsIndex' k g :
  result (SyncGroups_googleGroups sdk s googleGroups googleGroupsIndex
            groupsIndex) st = Ok (googleGroupsIndex', groupsIndex') →
  googleGroupsIndex' !! k = Some g →
  googleGroupsIndex !! k = Some g ∨
  (g ∈ googleGroups ∧
   (admin.Group_Email g ∉ config.IgnoreGroups (cfg s)) ∧
   admin.Group_Name g = k).
Proof.
  revert googleGroupsIndex groupsIndex st.
  induction googleGroups as [|g0 rest IH];
    intros googleGroupsIndex groupsIndex st; simpl.
  { intros [= <- <-]. by left. }
  rewrite result_bind.
  destruct (googleGroup_spec sdk s g0 googleGroupsIndex groupsIndex st)
    as (groupsIndex1 & Hr & _).
  rewrite Hr. intros Hres Hk.
  destruct (IH _ _ _ Hres Hk) as [Hold|(Hin & Hign & Hname)].
  2:{ right. split; [by right|done]. }
  destruct (ignoreGroup s (admin.Group_Email g0)) eqn:Hign; [by left|].
  rewrite lookup_insert in Hold.
  destruct (decide (admin.Group_Name g0 = k)) as [Hd|Hd]; [|by left].
  injection Hold as <-. right. split; [by left|].
  split; [by apply ignoreGroup_not_elem|done].
Qed.

Lemma surviving_groups_kept s googleGroups awsGroups st googleGroupsIndex
    groupsIndex k g :
  result (SyncGroups_googleGroups sdk s googleGroups ∅
            (SyncGroups_awsGroups awsGroups ∅)) st
  = Ok (googleGroupsIndex, groupsIndex) →
  (SyncGroups_groupsToDelete awsGroups googleGroupsIndex [] groupsIndex).2
    !! k = Some g →
  ToString (types.Group_DisplayName g) = k ∧
  ∃ gg, googleGroupsIndex !! k = Some gg ∧
        gg ∈ googleGroups ∧
        (admin.Group_Email gg ∉ config.IgnoreGroups (cfg s)) ∧
        admin.Group_Name gg = k.
Proof.
  intros Hres Hin.
  destruct (googleGroups_spec sdk s googleGroups ∅
              (SyncGroups_awsGroups awsGroups ∅) st)
    as (ggi & gi & Hres' & Hggi & Hkeyed & _ & Hnew).
  rewrite Hres in Hres'. injection Hres' as <- <-.
  destruct (groupsToDelete_spec awsGroups googleGroupsIndex [] groupsIndex)
    as [_ Hidx].
  rewrite Hidx in Hin. case_decide as Hmarked; [done|].
  assert (ToString (types.Group_DisplayName g) = k) as Hname.
  { apply (Hkeyed (keyed_awsGroups awsGroups ∅ keyed_empty) k g Hin). }
  split; [done|].
  assert (is_Some (googleGroupsIndex !! k)) as [gg Hgg].
  { destruct (Hnew k) as [Hold|Hkept]; [by eexists| |by apply Hggi; right].
    apply awsGroups_lookup in Hold as [[? [=]]|(g' & Hg' & Hname')].
    destruct (googleGroupsIndex !! k) eqn:Hg; [by eexists|].
    exfalso. apply Hmarked. apply list_elem_of_fmap. exists g'.
    split; [done|]. apply list_elem_of_filter. split; [|done].
    by rewrite Hname'. }
  exists gg. split; [done|].
  destruct (googleGroups_index_values _ _ _ _ _ _ _ _ _ Hres Hgg)
    as [Hempty|?]; [|done].
  by rewrite lookup_empty in Hempty.
Qed.

Lemma delete_calls_listed groupsToDelete st c :
  c ∈ trace (SyncGroups_delete sdk groupsToDelete) st →
  ∃ g, g ∈ groupsToDelete ∧ c = DeleteGroupCall g.
Proof.
  revert st. induction groupsToDelete as [|g rest IH]; intros st; simpl;
    [by intros ?%elem_of_nil|].
  rewrite trace_bind. unfold aws_DeleteGroup.
  rewrite trace_call, result_call, final_call.
  intros [->|Hc]%elem_of_cons; [exists g; split; [by left|done]|].
  destruct (sdk_DeleteGroup sdk (types.GroupId g) st) as [[err|] st'];
    simpl in Hc; [by apply elem_of_nil in Hc|].
  apply IH in Hc as (g' & ? & ->). exists g'. split; [by right|done].
Qed.

Lemma memberships_calls s (groupsIndex : list (string * types.Group))
    googleGroupsIndex usersSyncResult st c :
  c ∈ trace (SyncGroups_memberships sdk identityStoreId range s groupsIndex
               googleGroupsIndex usersSyncResult) st →
  ∃ k g st',
    (k, g) ∈ groupsIndex ∧
    c ∈ trace (SyncMembershipsForGroup sdk identityStoreId range s
                 (googleGroupsIndex !! ToString (types.Group_DisplayName g))
                 g usersSyncResult) st'.
Proof.
  revert st. induction groupsIndex as [|[k g] rest IH]; intros st; simpl;
    [by intros ?%elem_of_nil|].
  rewrite trace_bind. intros [Hc|Hc]%elem_of_app.
  { exists k, g, st. split; [by left|done]. }
  destruct (result (SyncMembershipsForGroup _ _ _ _ _ _ _) st)
    as [[err|]|msg]; try (by apply elem_of_nil in Hc).
  apply IH in Hc as (k' & g' & st' & Hin & Hc). exists k', g', st'.
  split; [by right|done].
Qed.

(** X14. [SyncGroups] never calls [CreateGroup] with a name that the target
    listing holds as a display name. *)
Theorem listed_group_name_never_created (s : syncGSuite) (q : string)
    (usersSyncResult : UserSyncResult) (st : St)
    (name description : option string) (t : types.Group) :
  CreateGroupCall name description
    ∈ trace (SyncGroups sdk identityStoreId range s q usersSyncResult) st →
  t ∈ (drain [] (sdk_ListGroups sdk st)).1 →
  ToString name ≠ ToString (types.Group_DisplayName t).
Proof.
  unfold trace. rewrite SyncGroups_cases. cbv zeta.
  destruct (drain [] (sdk_ListGroups sdk st)).2.
  { by intros [[=]|[]%elem_of_nil]%elem_of_cons. }
  destruct (google.GetGroups (google s) q).2.
  { by intros [[=]|[[=]|[]%elem_of_nil]%elem_of_cons]%elem_of_cons. }
  set (create := SyncGroups_googleGroups sdk s _ _ _).
  intros Hc Ht.
  assert (CreateGroupCall name description ∈ trace create st) as Hcreate.
  { revert Hc.
    destruct (result create st) as [[googleGroupsIndex groupsIndex]|msg].
    2:{ by intros [[=]|[[=]|?]%elem_of_cons]%elem_of_cons. }
    set (sync := SyncGroups_memberships sdk identityStoreId range s _ _ _).
    set (r := SyncGroups_groupsToDelete _ _ _ _).
    pose proof (emits_memberships sdk identityStoreId range
                  (λ c, isCreateGroup c = false) s (range _ r.2)
                  googleGroupsIndex usersSyncResult
                  (λ _, eq_refl) (λ _, eq_refl) (λ _, eq_refl)
                  (λ _ _, eq_refl) (final create st)) as Hm.
    pose proof (emits_delete sdk (λ c, isCreateGroup c = false) r.1
                  (λ _, eq_refl) (final sync (final create st))) as Hd.
    rewrite Forall_forall in Hm. rewrite Forall_forall in Hd.
    destruct (result sync (final create st)) as [[err|]|msg];
      (intros [[=]|[[=]|Hc]%elem_of_cons]%elem_of_cons);
      repeat (apply elem_of_app in Hc as [Hc|Hc]); try done;
      try (by apply Hm in Hc); by apply Hd in Hc. }
  apply googleGroups_creates_absent in Hcreate as (g & [= -> ->] & Hnone).
  simpl. intros Heq.
  assert (is_Some (SyncGroups_awsGroups (drain [] (sdk_ListGroups sdk st)).1
                     ∅ !! admin.Group_Name g)) as [? ?]; [|congruence].
  apply awsGroups_lookup. right. by exists t.
Qed.

(** X15. [SyncGroups] calls [DeleteGroup] only for a group that the target
    listing holds and whose display name no listed source group with an email
    off the ignore list carries. *)
Theorem only_unmatched_groups_deleted (s : syncGSuite) (q : string)
    (usersSyncResult : UserSyncResult) (st : St) (g : types.Group) :
  DeleteGroupCall g
    ∈ trace (SyncGroups sdk identityStoreId range s q usersSyncResult) st →
  g ∈ (drain [] (sdk_ListGroups sdk st)).1 ∧
  ¬ kept s (google.GetGroups (google s) q).1
      (ToString (types.Group_DisplayName g)).
Proof.
  unfold trace. rewrite SyncGroups_cases. cbv zeta.
  destruct (drain [] (sdk_ListGroups sdk st)).2.
  { by intros [[=]|[]%elem_of_nil]%elem_of_cons. }
  destruct (google.GetGroups (google s) q).2.
  { by intros [[=]|[[=]|[]%elem_of_nil]%elem_of_cons]%elem_of_cons. }
  set (create := SyncGroups_googleGroups sdk s _ _ _).
  pose proof (emits_googleGroups sdk (λ c, isDeleteGroup c = false) s
                (google.GetGroups (google s) q).1 ∅
                (SyncGroups_awsGroups (drain [] (sdk_ListGroups sdk st)).1 ∅)
                (λ _ _ _, eq_refl) st) as Hcr.
  fold create in Hcr. rewrite Forall_forall in Hcr.
  destruct (googleGroups_spec sdk s (google.GetGroups (google s) q).1 ∅
              (SyncGroups_awsGroups (drain [] (sdk_ListGroups sdk st)).1 ∅)
              st) as (googleGroupsIndex & groupsIndex & Hres & Hggi & _).
  fold create in Hres. rewrite Hres.
  set (sync := SyncGroups_memberships sdk identityStoreId range s _ _ _).
  set (r := SyncGroups_groupsToDelete _ _ _ _).
  pose proof (emits_memberships sdk identityStoreId range
                (λ c, isDeleteGroup c = false) s (range _ r.2)
                googleGroupsIndex usersSyncResult
                (λ _, eq_refl) (λ _, eq_refl) (λ _, eq_refl)
                (λ _ _, eq_refl) (final create st)) as Hm.
  rewrite Forall_forall in Hm.
  assert (DeleteGroupCall g
            ∈ trace (SyncGroups_delete sdk r.1)
                (final sync (final create st)) →
          g ∈ (drain [] (sdk_ListGroups sdk st)).1 ∧
          ¬ kept s (google.GetGroups (google s) q).1
              (ToString (types.Group_DisplayName g))) as Hdel.
  { intros (g' & Hin & [= <-])%delete_calls_listed.
    destruct (groupsToDelete_spec (drain [] (sdk_ListGroups sdk st)).1
                googleGroupsIndex [] groupsIndex) as [Hmarked _].
    fold r in Hmarked. rewrite Hmarked in Hin. simpl in Hin.
    apply list_elem_of_filter in Hin as [Hnone Hin]. split; [done|].
    intros Hkept. assert (is_Some (googleGroupsIndex
                                     !! ToString (types.Group_DisplayName g)))
      as [? ?]; [|congruence].
    apply Hggi. by right. }
  destruct (result sync (final create st)) as [[err|]|msg];
    (intros [[=]|[[=]|Hc]%elem_of_cons]%elem_of_cons);
    repeat (apply elem_of_app in Hc as [Hc|Hc]); try done;
    try (by apply Hcr in Hc); try (by apply Hm in Hc); by apply Hdel.
Qed.

(** X16. With a runtime that visits entries of the map it ranges over,
    [SyncGroups] reconciles memberships only between a listed source group
    whose email is off the ignore list and a target group of that name: each
    listing of source members is for such a source group, and each listing of
    target members and each addition is for a target group whose display name
    such a source group carries. *)
Theorem memberships_synced_for_kept_groups (s : syncGSuite) (q : string)
    (usersSyncResult : UserSyncResult) (st : St) (c : Call) :
  visits_entries range →
  c ∈ trace (SyncGroups sdk identityStoreId range s q usersSyncResult) st →
  match c with
  | GoogleGetGroupMembersCall gg =>
      gg ∈ (google.GetGroups (google s) q).1 ∧
      (admin.Group_Email gg ∉ config.IgnoreGroups (cfg s))
  | GetGroupMembersCall g | AddUserToGroupCall _ g =>
      kept s (google.GetGroups (google s) q).1
        (ToString (types.Group_DisplayName g))
  | _ => True
  end.
Proof.
  intros Hrange. unfold trace. rewrite SyncGroups_cases. cbv zeta.
  destruct (drain [] (sdk_ListGroups sdk st)).2.
  { by intros [->|[]%elem_of_nil]%elem_of_cons. }
  destruct (google.GetGroups (google s) q).2.
  { by intros [->|[->|[]%elem_of_nil]%elem_of_cons]%elem_of_cons. }
  set (create := SyncGroups_googleGroups sdk s _ _ _).
  pose proof (emits_googleGroups sdk (λ c, isCreateGroup c = true) s
                (google.GetGroups (google s) q).1 ∅
                (SyncGroups_awsGroups (drain [] (sdk_ListGroups sdk st)).1 ∅)
                (λ _ _ _, eq_refl) st) as Hcr.
  fold create in Hcr. rewrite Forall_forall in Hcr.
  destruct (result create st) as [[googleGroupsIndex groupsIndex]|msg]
    eqn:Hres.
  2:{ intros [->|[->|Hc%Hcr]%elem_of_cons]%elem_of_cons; [done|done|].
      by destruct c. }
  set (sync := SyncGroups_memberships sdk identityStoreId range s _ _ _).
  set (r := SyncGroups_groupsToDelete _ _ _ _).
  pose proof (emits_delete sdk (λ c, isDeleteGroup c = true) r.1
                (λ _, eq_refl) (final sync (final create st))) as Hd.
  rewrite Forall_forall in Hd.
  assert (c ∈ trace sync (final create st) →
          match c with
          | GoogleGetGroupMembersCall gg =>
              gg ∈ (google.GetGroups (google s) q).1 ∧
              (admin.Group_Email gg ∉ config.IgnoreGroups (cfg s))
          | GetGroupMembersCall g | AddUserToGroupCall _ g =>
              kept s (google.GetGroups (google s) q).1
                (ToString (types.Group_DisplayName g))
          | _ => True
          end) as Hsync.
  { intros (k & g & st' & Hin%Hrange & Hc)%memberships_calls.
    destruct (surviving_groups_kept _ _ _ _ _ _ _ _ Hres Hin)
      as (Hname & gg & Hgg & Hlisted & Hign & Hggname).
    rewrite Hname, Hgg in Hc.
    apply SyncMembershipsForGroup_calls in Hc.
    destruct c; try done.
    - rewrite Hc, Hname. by exists gg.
    - rewrite Hc, Hname. by exists gg.
    - rewrite Hc. by split. }
  destruct (result sync (final create st)) as [[err|]|msg];
    (intros [->|[->|Hc]%elem_of_cons]%elem_of_cons; [done|done|]);
    repeat (apply elem_of_app in Hc as [Hc|Hc]); try (by apply Hsync);
    try (by apply Hcr in Hc; destruct c); by apply Hd in Hc; destruct c.
Qed.

(** ** The deletion pass and the start of a run *)

Lemma RemoveUsers_cons u usersList st :
  RemoveUsers sdk (u :: usersList) st
  = match sdk_DeleteUser sdk (types.UserId u) st with
    | (Some err, st1) => (Ok (Some err), st1, [DeleteUserCall u])
    | (None, st1) =>
        (result (RemoveUsers sdk usersList) st1,
         final (RemoveUsers sdk usersList) st1,
         DeleteUserCall u :: trace (RemoveUsers sdk usersList) st1)
    end.
Proof.
  simpl. rewrite run_bind. unfold aws_DeleteUser.
  rewrite result_call, final_call, trace_call.
  by destruct (sdk_DeleteUser sdk (types.UserId u) st) as [[err|] st1].
Qed.

(** X17. [RemoveUsers] deletes the users of its list in order and stops at
    the first failure: some first [n] deletions succeed; if that is the whole
    list it returns no error, otherwise the next deletion fails, its error is
    returned, and no user after it is deleted. *)
Theorem RemoveUsers_stops_at_first_error (usersList : list types.User)
    (st : St) :
  ∃ n,
    result (RemoveUsers sdk (take n usersList)) st = Ok None ∧
    trace (RemoveUsers sdk (take n usersList)) st
    = DeleteUserCall <$> take n usersList ∧
    let st' := final (RemoveUsers sdk (take n usersList)) st in
    match usersList !! n with
    | None =>
        RemoveUsers sdk usersList st
        = (Ok None, st', DeleteUserCall <$> usersList)
    | Some u =>
        ∃ err,
          (sdk_DeleteUser sdk (types.UserId u) st').1 = Some err ∧
          RemoveUsers sdk usersList st
          = (Ok (Some err), (sdk_DeleteUser sdk (types.UserId u) st').2,
             DeleteUserCall <$> take (S n) usersList)
    end.
Proof.
  revert st. induction usersList as [|u rest IH]; intros st.
  { by exists 0. }
  destruct (sdk_DeleteUser sdk (types.UserId u) st) as [[err|] st1] eqn:Hd.
  - exists 0. split; [done|]. split; [done|]. simpl lookup. cbv zeta.
    change (final (RemoveUsers sdk (take 0 (u :: rest))) st) with st.
    exists err. rewrite RemoveUsers_cons, Hd. simpl. by rewrite ?take_0.
  - destruct (IH st1) as (n & Hres & Htr & Hrun). exists (S n).
    change (take (S n) (u :: rest)) with (u :: take n rest).
    unfold result, trace, final in *.
    rewrite !RemoveUsers_cons, Hd. unfold result, trace, final. simpl.
    split; [done|]. split; [by rewrite Htr|].
    cbv zeta in Hrun. destruct (rest !! n) as [v|].
    + destruct Hrun as (err & Herr & Hrun). exists err.
      split; [done|]. by rewrite Hrun.
    + by rewrite Hrun.
Qed.

(** X18. [DoSync] makes a call only after the host has given it the
    credentials (in Lambda mode the text of the configuration, else the
    content of the file of that name) and a source client built from them;
    the run is then that of the engine made of this client and the
    configuration. *)
Theorem DoSync_calls_need_client (host : Host) (c : config.Config) (st : St) :
  trace (DoSync sdk identityStoreId range host c) st ≠ [] →
  ∃ creds googleClient,
    credentials host c = inr creds ∧
    NewClient host (config.GoogleAdmin c) creds = inr googleClient ∧
    DoSync sdk identityStoreId range host c
    = DoSync_run sdk identityStoreId range
        {| google := googleClient; cfg := c |}.
Proof.
  unfold DoSync, credentials. destruct (config.IsLambda c); simpl.
  - destruct (NewClient host _ _) as [err|googleClient] eqn:Hn; [done|].
    intros _. by exists (config.GoogleCredentials c), googleClient.
  - destruct (ReadFile host _) as [b [err|]]; [done|].
    destruct (NewClient host _ _) as [err|googleClient] eqn:Hn; [done|].
    intros _. by exists b, googleClient.
Qed.

(** ** What a successful [SyncGroups] has reconciled *)

Lemma awsGroups_index_values awsGroups groupsIndex k g :
  SyncGroups_awsGroups awsGroups groupsIndex !! k = Some g →
  groupsIndex !! k = Some g ∨ g ∈ awsGroups.
Proof.
  revert groupsIndex. induction awsGroups as [|u rest IH];
    intros groupsIndex; simpl; [by left|].
  intros [Hk|Hin]%IH; [|by right; right].
  rewrite lookup_insert in Hk. case_decide; [|by left].
  injection Hk as <-. right. by left.
Qed.

Lemma SyncMembershipsForGroup_success_lists_members s googleGroup awsGroup
    usersSyncResult st :
  result (SyncMembershipsForGroup sdk identityStoreId range s googleGroup
            awsGroup usersSyncResult) st = Ok None →
  GetGroupMembersCall awsGroup
    ∈ trace (SyncMembershipsForGroup sdk identityStoreId range s googleGroup
               awsGroup usersSyncResult) st.
Proof.
  destruct googleGroup as [g|]; [|done].
  unfold result, trace. rewrite SyncMembershipsForGroup_cases. cbv zeta.
  destruct (google.GetGroupMembers (google s) g).2; [done|].
  destruct (drain [] (sdk_ListGroupMemberships sdk _ st)).2; [done|].
  destruct (SyncMembershipsForGroup_awsMembers _ _ _ _)
    as [[toDelete memberList]|msg]; [|done].
  destruct (result (SyncMembershipsForGroup_remove sdk toDelete) st)
    as [[err|]|msg]; intros _; right; by left.
Qed.

Lemma memberships_success_lists_all s (groupsIndex : list (string * types.Group))
    googleGroupsIndex usersSyncResult st k g :
  result (SyncGroups_memberships sdk identityStoreId range s groupsIndex
            googleGroupsIndex usersSyncResult) st = Ok None →
  (k, g) ∈ groupsIndex →
  GetGroupMembersCall g
    ∈ trace (SyncGroups_memberships sdk identityStoreId range s groupsIndex
               googleGroupsIndex usersSyncResult) st.
Proof.
  revert st. induction groupsIndex as [|[k0 g0] rest IH]; intros st; simpl;
    [by intros _ ?%elem_of_nil|].
  rewrite result_bind, trace_bind.
  destruct (result (SyncMembershipsForGroup _ _ _ _ _ _ _) st)
    as [[err|]|msg] eqn:Hr; [done| |done].
  intros Hres [[= -> ->]|Hin]%elem_of_cons; apply elem_of_app.
  - left. by apply SyncMembershipsForGroup_success_lists_members.
  - right. by apply IH.
Qed.

(** X19. With a runtime that visits every entry of the map it ranges over,
    a [SyncGroups] that returns no error has reconciled every matched group:
    for a listed source group whose email is off the ignore list and whose
    name a listed target group carries, it has listed the members of a listed
    target group of that name. *)
Theorem successful_SyncGroups_reconciles_matched_groups (s : syncGSuite)
    (q : string) (usersSyncResult : UserSyncResult) (st : St)
    (gg : admin.Group) (t : types.Group) :
  permutes range →
  result (SyncGroups sdk identityStoreId range s q usersSyncResult) st
  = Ok None →
  gg ∈ (google.GetGroups (google s) q).1 →
  admin.Group_Email gg ∉ config.IgnoreGroups (cfg s) →
  t ∈ (drain [] (sdk_ListGroups sdk st)).1 →
  ToString (types.Group_DisplayName t) = admin.Group_Name gg →
  ∃ g, g ∈ (drain [] (sdk_ListGroups sdk st)).1 ∧
       ToString (types.Group_DisplayName g) = admin.Group_Name gg ∧
       GetGroupMembersCall g
         ∈ trace (SyncGroups sdk identityStoreId range s q usersSyncResult)
             st.
Proof.
  intros Hperm. unfold result, trace. rewrite SyncGroups_cases. cbv zeta.
  destruct (drain [] (sdk_ListGroups sdk st)).2; [done|].
  destruct (google.GetGroups (google s) q).2; [done|].
  set (create := SyncGroups_googleGroups sdk s _ _ _).
  destruct (googleGroups_spec sdk s (google.GetGroups (google s) q).1 ∅
              (SyncGroups_awsGroups (drain [] (sdk_ListGroups sdk st)).1 ∅)
              st) as (googleGroupsIndex & groupsIndex & Hres & Hggi & Hkeyed
                      & Hpres & _).
  fold create in Hres. rewrite Hres.
  set (sync := SyncGroups_memberships sdk identityStoreId range s _ _ _).
  destruct (result sync (final create st)) as [[err|]|msg] eqn:Hsync;
    [done| |done].
  simpl. intros _ Hgg Hign Ht Hname.
  assert (is_Some (SyncGroups_awsGroups
                     (drain [] (sdk_ListGroups sdk st)).1 ∅
                     !! admin.Group_Name gg)) as [g Hg].
  { apply awsGroups_lookup. right. by exists t. }
  assert (groupsIndex !! admin.Group_Name gg = Some g) as Hg'.
  { rewrite Hpres; [done|by eexists]. }
  assert (is_Some (googleGroupsIndex !! admin.Group_Name gg)) as [gg' Hgg'].
  { apply Hggi. right. by exists gg. }
  destruct (groupsToDelete_spec (drain [] (sdk_ListGroups sdk st)).1
              googleGroupsIndex [] groupsIndex) as [_ Hidx].
  specialize (Hidx (admin.Group_Name gg)). cbv zeta in Hidx.
  destruct (decide _) as [Hmarked|_] in Hidx.
  { apply list_elem_of_fmap in Hmarked as (g' & Hn & Hin).
    apply list_elem_of_filter in Hin as [Hnone _]. congruence. }
  rewrite Hg' in Hidx.
  exists g. split; [|split].
  - apply awsGroups_index_values in Hg as [Hempty|?]; [|done].
    by rewrite lookup_empty in Hempty.
  - by apply (Hkeyed (keyed_awsGroups _ ∅ keyed_empty) _ g).
  - right. right. apply elem_of_app. right. apply elem_of_app. left.
    apply (memberships_success_lists_all _ _ _ _ _ (admin.Group_Name gg) g
             Hsync).
    rewrite (Hperm _ _). by apply elem_of_map_to_list.
Qed.

(** X20. [ignoreUser] answers whether the name is, character for character,
    an entry of the configured list of users to ignore. *)
Theorem ignoreUser_is_membership (s : syncGSuite) (name : string) :
  (ignoreUser s name = true ↔ name ∈ config.IgnoreUsers (cfg s)) ∧
  (ignoreUser s name = false ↔
   ∀ u, u ∈ config.IgnoreUsers (cfg s) → u ≠ name).
Proof.
  split; [apply ignoreUser_loop_elem|].
  rewrite ignoreUser_not_elem. split.
  - intros Hout u Hin ->. done.
  - intros Hall Hin. by apply (Hall name).
Qed.

(** ** The claims on whole runs *)

(** ** Group deletion *)

Lemma SyncGroups_deletes_only_unmatched (s : syncGSuite) (q : string)
    (usersSyncResult : UserSyncResult) (st : St) (g : types.Group) :
  DeleteGroupCall g
    ∈ trace (SyncGroups sdk identityStoreId range s q usersSyncResult) st →
  g ∈ (drain [] (sdk_ListGroups sdk st)).1 ∧
  ¬ kept s (google.GetGroups (google s) q).1
      (ToString (types.Group_DisplayName g)).
Proof.
  unfold trace. rewrite SyncGroups_cases. cbv zeta.
  destruct (drain [] (sdk_ListGroups sdk st)).2.
  { by intros [[=]|[]%elem_of_nil]%elem_of_cons. }
  destruct (google.GetGroups (google s) q).2.
  { by intros [[=]|[[=]|[]%elem_of_nil]%elem_of_cons]%elem_of_cons. }
  set (create := SyncGroups_googleGroups sdk s _ _ _).
  pose proof (emits_googleGroups sdk (λ c, isDeleteGroup c = false) s
                (google.GetGroups (google s) q).1 ∅
                (SyncGroups_awsGroups (drain [] (sdk_ListGroups sdk st)).1 ∅)
                (λ _ _ _, eq_refl) st) as Hcr.
  fold create in Hcr. rewrite Forall_forall in Hcr.
  destruct (googleGroups_spec sdk s (google.GetGroups (google s) q).1 ∅
              (SyncGroups_awsGroups (drain [] (sdk_ListGroups sdk st)).1 ∅)
              st) as (googleGroupsIndex & groupsIndex & Hres & Hggi & _).
  fold create in Hres. rewrite Hres.
  set (sync := SyncGroups_memberships sdk identityStoreId range s _ _ _).
  set (r := SyncGroups_groupsToDelete _ _ _ _).
  pose proof (emits_memberships sdk identityStoreId range
                (λ c, isDeleteGroup c = false) s (range _ r.2)
                googleGroupsIndex usersSyncResult
                (λ _, eq_refl) (λ _, eq_refl) (λ _, eq_refl)
                (λ _ _, eq_refl) (final create st)) as Hm.
  rewrite Forall_forall in Hm.
  assert (DeleteGroupCall g
            ∈ trace (SyncGroups_delete sdk r.1)
                (final sync (final create st)) →
          g ∈ (drain [] (sdk_ListGroups sdk st)).1 ∧
          ¬ kept s (google.GetGroups (google s) q).1
              (ToString (types.Group_DisplayName g))) as Hdel.
  { intros (g' & Hin & [= <-])%delete_calls_listed.
    destruct (groupsToDelete_spec (drain [] (sdk_ListGroups sdk st)).1
                googleGroupsIndex [] groupsIndex) as [Hmarked _].
    fold r in Hmarked. rewrite Hmarked in Hin. simpl in Hin.
    apply list_elem_of_filter in Hin as [Hnone Hin]. split; [done|].
    intros Hkept. assert (is_Some (googleGroupsIndex
                                     !! ToString (types.Group_DisplayName g)))
      as [? ?]; [|congruence].
    apply Hggi. by right. }
  destruct (result sync (final create st)) as [[err|]|msg];
    (intros [[=]|[[=]|Hc]%elem_of_cons]%elem_of_cons);
    repeat (apply elem_of_app in Hc as [Hc|Hc]); try done;
    try (by apply Hcr in Hc); try (by apply Hm in Hc); by apply Hdel.
Qed.


Lemma delete_success_lists_all groupsToDelete st g :
  result (SyncGroups_delete sdk groupsToDelete) st = Ok None →
  g ∈ groupsToDelete →
  DeleteGroupCall g ∈ trace (SyncGroups_delete sdk groupsToDelete) st.
Proof.
  revert st. induction groupsToDelete as [|g0 rest IH]; intros st; simpl;
    [by intros _ ?%elem_of_nil|].
  rewrite result_bind, trace_bind. unfold aws_DeleteGroup.
  rewrite trace_call, result_call, final_call.
  destruct (sdk_DeleteGroup sdk (types.GroupId g0) st) as [[err|] st'];
    simpl; [done|].
  intros Hres [->|Hin]%elem_of_cons; [by left|]. right. by apply IH.
Qed.

Lemma delete_never_panics groupsToDelete st msg :
  result (SyncGroups_delete sdk groupsToDelete) st ≠ Panic msg.
Proof.
  revert st. induction groupsToDelete as [|g0 rest IH]; intros st; simpl;
    [done|].
  rewrite result_bind. unfold aws_DeleteGroup. rewrite result_call, final_call.
  destruct (sdk_DeleteGroup sdk (types.GroupId g0) st) as [[err|] st'];
    simpl; [done|apply IH].
Qed.

Lemma SyncGroups_deletes_every_unmatched s q usersSyncResult st g :
  result (SyncGroups sdk identityStoreId range s q usersSyncResult) st
  = Ok None →
  g ∈ (drain [] (sdk_ListGroups sdk st)).1 →
  ¬ kept s (google.GetGroups (google s) q).1
      (ToString (types.Group_DisplayName g)) →
  DeleteGroupCall g
    ∈ trace (SyncGroups sdk identityStoreId range s q usersSyncResult) st.
Proof.
  unfold result, trace. rewrite SyncGroups_cases. cbv zeta.
  destruct (drain [] (sdk_ListGroups sdk st)).2; [done|].
  destruct (google.GetGroups (google s) q).2; [done|].
  set (create := SyncGroups_googleGroups sdk s _ _ _).
  destruct (googleGroups_spec sdk s (google.GetGroups (google s) q).1 ∅
              (SyncGroups_awsGroups (drain [] (sdk_ListGroups sdk st)).1 ∅)
              st) as (googleGroupsIndex & groupsIndex & Hres & Hggi & _).
  fold create in Hres. rewrite Hres.
  set (sync := SyncGroups_memberships sdk identityStoreId range s _ _ _).
  destruct (result sync (final create st)) as [[err|]|msg]; [done| |done].
  simpl. intros Hok Hin Hnk. right. right.
  apply elem_of_app. right. apply elem_of_app. right.
  apply delete_success_lists_all; [done|].
  destruct (groupsToDelete_spec (drain [] (sdk_ListGroups sdk st)).1
              googleGroupsIndex [] groupsIndex) as [Hm _].
  rewrite Hm. simpl. apply list_elem_of_filter. split; [|done].
  destruct (googleGroupsIndex !! ToString (types.Group_DisplayName g))
    eqn:Hg; [|done].
  exfalso. apply Hnk.
  destruct (proj1 (Hggi _) (mk_is_Some _ _ Hg)) as [[? Hempty]|?]; [|done].
  by rewrite lookup_empty in Hempty.
Qed.


(** ** The source group handed to membership reconciliation *)

Lemma SyncMembershipsForGroup_panic s googleGroup awsGroup usersSyncResult st
    msg :
  result (SyncMembershipsForGroup sdk identityStoreId range s
            (Some googleGroup) awsGroup usersSyncResult) st = Panic msg →
  msg = nilDeref ∧
  final (SyncMembershipsForGroup sdk identityStoreId range s
           (Some googleGroup) awsGroup usersSyncResult) st = st ∧
  GetGroupMembersCall awsGroup
    ∈ trace (SyncMembershipsForGroup sdk identityStoreId range s
               (Some googleGroup) awsGroup usersSyncResult) st ∧
  ∃ m, m ∈ (drain [] (sdk_ListGroupMemberships sdk (types.GroupId awsGroup)
                        st)).1 ∧
       notUserId m.
Proof.
  unfold result, final, trace. rewrite SyncMembershipsForGroup_cases.
  cbv zeta.
  destruct (google.GetGroupMembers (google s) googleGroup).2; [done|].
  destruct (drain [] (sdk_ListGroupMemberships sdk _ st)).2; [done|].
  destruct (SyncMembershipsForGroup_awsMembers _ _ _ _)
    as [[toDelete memberList]|msg'] eqn:Hplan.
  - destruct (remove_issues_prefix toDelete st) as (n & _ & _ & Hp).
    destruct (add_issues_prefix (range _ memberList) awsGroup
                (final (SyncMembershipsForGroup_remove sdk toDelete) st))
      as (n' & _ & _ & Hp').
    destruct (result (SyncMembershipsForGroup_remove sdk toDelete) st)
      as [[err|]|msg'] eqn:Hr; simpl;
      [done|by intros ?%Hp'|by destruct (Hp msg')].
  - apply awsMembers_panics in Hplan as (-> & m & Hm & Hbad). simpl.
    intros [= <-]. split; [done|]. split; [done|].
    split; [right; by left|]. by exists m.
Qed.

Lemma memberships_panic s (groupsIndex : list (string * types.Group))
    googleGroupsIndex usersSyncResult st msg :
  (∀ k g, (k, g) ∈ groupsIndex →
          is_Some (googleGroupsIndex
                     !! ToString (types.Group_DisplayName g))) →
  result (SyncGroups_memberships sdk identityStoreId range s groupsIndex
            googleGroupsIndex usersSyncResult) st = Panic msg →
  msg = nilDeref ∧
  ∃ g m,
    GetGroupMembersCall g
      ∈ trace (SyncGroups_memberships sdk identityStoreId range s
                 groupsIndex googleGroupsIndex usersSyncResult) st ∧
    m ∈ (drain [] (sdk_ListGroupMemberships sdk (types.GroupId g)
                     (final (SyncGroups_memberships sdk identityStoreId range
                               s groupsIndex googleGroupsIndex
                               usersSyncResult) st))).1 ∧
    notUserId m.
Proof.
  revert st. induction groupsIndex as [|[k0 g0] rest IH]; intros st Hall;
    simpl; [done|].
  rewrite result_bind, trace_bind, final_bind.
  destruct (Hall k0 g0) as [gg Hgg]; [by left|]. rewrite Hgg.
  destruct (result (SyncMembershipsForGroup _ _ _ _ _ _ _) st)
    as [[err|]|msg'] eqn:Hr; [done| |].
  - intros Hp.
    destruct (IH _ (λ k g Hin, Hall k g (list_elem_of_further _ _ _ Hin)) Hp)
      as (-> & g & m & Hc & Hm & Hbad).
    split; [done|]. exists g, m. split; [|done]. apply elem_of_app. by right.
  - intros [= <-].
    apply SyncMembershipsForGroup_panic in Hr as (-> & Hf & Hc & m & Hm & Hbad).
    split; [done|]. exists g0, m. rewrite Hf. split; [|done].
    apply elem_of_app. by left.
Qed.

(** C4, as the code has it. Handed no source group,
    [SyncMembershipsForGroup] panics before it makes a call.  With a runtime
    that visits entries of the map it ranges over, a run of [SyncGroups]
    never hands it none: when the two listings succeed, the membership calls
    of the run are those of [SyncGroups_memberships] over the working index
    as the deletion loop left it, and every group of that index has, under
    its display name, a listed source group whose email is off the ignore
    list.  So a run of [SyncGroups] panics only in a listing of target
    members that holds a member id that is not a user id. *)
Theorem source_group_never_nil (s : syncGSuite) (q : string)
    (usersSyncResult : UserSyncResult) (st : St) :
  visits_entries range →
  (∀ awsGroup usersSyncResult' st',
     SyncMembershipsForGroup sdk identityStoreId range s None awsGroup
       usersSyncResult' st' = (Panic nilDeref, st', [])) ∧
  (∃ googleGroupsIndex groupsIndex,
     let create :=
       SyncGroups_googleGroups sdk s (google.GetGroups (google s) q).1 ∅
         (SyncGroups_awsGroups (drain [] (sdk_ListGroups sdk st)).1 ∅) in
     let r :=
       SyncGroups_groupsToDelete (drain [] (sdk_ListGroups sdk st)).1
         googleGroupsIndex [] groupsIndex in
     let sync :=
       SyncGroups_memberships sdk identityStoreId range s (range _ r.2)
         googleGroupsIndex usersSyncResult in
     result create st = Ok (googleGroupsIndex, groupsIndex) ∧
     ((drain [] (sdk_ListGroups sdk st)).2 = None →
      (google.GetGroups (google s) q).2 = None →
      trace (SyncGroups sdk identityStoreId range s q usersSyncResult) st
      = GetGroupsCall :: GoogleGetGroupsCall q ::
          trace create st ++ trace sync (final create st) ++
          match result sync (final create st) with
          | Ok None =>
              trace (SyncGroups_delete sdk r.1)
                (final sync (final create st))
          | _ => []
          end) ∧
     (∀ k g, (k, g) ∈ range _ r.2 →
             ∃ gg, googleGroupsIndex !! ToString (types.Group_DisplayName g)
                   = Some gg ∧
                   gg ∈ (google.GetGroups (google s) q).1 ∧
                   (admin.Group_Email gg ∉ config.IgnoreGroups (cfg s)))) ∧
  (∀ msg,
     result (SyncGroups sdk identityStoreId range s q usersSyncResult) st
     = Panic msg →
     msg = nilDeref ∧
     ∃ g m,
       GetGroupMembersCall g
         ∈ trace (SyncGroups sdk identityStoreId range s q usersSyncResult)
             st ∧
       m ∈ (drain [] (sdk_ListGroupMemberships sdk (types.GroupId g)
                        (final (SyncGroups sdk identityStoreId range s q
                                  usersSyncResult) st))).1 ∧
       notUserId m).
Proof.
  intros Hrange. split; [done|].
  destruct (googleGroups_spec sdk s (google.GetGroups (google s) q).1 ∅
              (SyncGroups_awsGroups (drain [] (sdk_ListGroups sdk st)).1 ∅)
              st) as (googleGroupsIndex & groupsIndex & Hres & _).
  assert (∀ k g,
            (k, g) ∈ range _ (SyncGroups_groupsToDelete
                                (drain [] (sdk_ListGroups sdk st)).1
                                googleGroupsIndex [] groupsIndex).2 →
            ∃ gg, googleGroupsIndex !! ToString (types.Group_DisplayName g)
                  = Some gg ∧
                  gg ∈ (google.GetGroups (google s) q).1 ∧
                  (admin.Group_Email gg ∉ config.IgnoreGroups (cfg s)))
    as Hall.
  { intros k g Hin%Hrange.
    destruct (surviving_groups_kept _ _ _ _ _ _ _ _ Hres Hin)
      as (Hname & gg & Hgg & Hlisted & Hign & _).
    exists gg. by rewrite Hname. }
  split.
  - exists googleGroupsIndex, groupsIndex. cbv zeta.
    split; [done|]. split; [|done]. intros Ha Hg.
    unfold trace at 1. rewrite SyncGroups_cases. cbv zeta.
    rewrite Ha, Hg, Hres.
    destruct (result (SyncGroups_memberships _ _ _ _ _ _ _) _)
      as [[err|]|msg]; simpl; by rewrite ?app_nil_r.
  - intros msg. unfold result at 1, trace at 1, final at 1.
    rewrite SyncGroups_cases. cbv zeta.
    destruct (drain [] (sdk_ListGroups sdk st)).2; [done|].
    destruct (google.GetGroups (google s) q).2; [done|].
    rewrite Hres.
    destruct (result (SyncGroups_memberships _ _ _ _ _ _ _) _)
      as [[err|]|msg'] eqn:Hs; simpl.
    + done.
    + intros Hp. by apply delete_never_panics in Hp.
    + intros [= <-].
      apply memberships_panic in Hs as (-> & g & m & Hc & Hm & Hbad).
      2:{ intros k g Hin. destruct (Hall k g Hin) as (gg & Hgg & _).
          by eexists. }
      split; [done|]. exists g, m. split; [|done].
      right. right. apply elem_of_app. by right.
Qed.

(** ** The ignore list of groups in a run *)

Lemma SyncGroups_creations s q usersSyncResult st name description :
  CreateGroupCall name description
    ∈ trace (SyncGroups sdk identityStoreId range s q usersSyncResult) st →
  CreateGroupCall name description
    ∈ trace (SyncGroups_googleGroups sdk s (google.GetGroups (google s) q).1
               ∅ (SyncGroups_awsGroups (drain [] (sdk_ListGroups sdk st)).1
                    ∅)) st.
Proof.
  unfold trace. rewrite SyncGroups_cases. cbv zeta.
  destruct (drain [] (sdk_ListGroups sdk st)).2.
  { by intros [[=]|[]%elem_of_nil]%elem_of_cons. }
  destruct (google.GetGroups (google s) q).2.
  { by intros [[=]|[[=]|[]%elem_of_nil]%elem_of_cons]%elem_of_cons. }
  set (create := SyncGroups_googleGroups sdk s _ _ _).
  intros Hc.
  revert Hc.
  destruct (result create st) as [[googleGroupsIndex groupsIndex]|msg].
  2:{ by intros [[=]|[[=]|?]%elem_of_cons]%elem_of_cons. }
  set (sync := SyncGroups_memberships sdk identityStoreId range s _ _ _).
  set (r := SyncGroups_groupsToDelete _ _ _ _).
  pose proof (emits_memberships sdk identityStoreId range
                (λ c, isCreateGroup c = false) s (range _ r.2)
                googleGroupsIndex usersSyncResult
                (λ _, eq_refl) (λ _, eq_refl) (λ _, eq_refl)
                (λ _ _, eq_refl) (final create st)) as Hm.
  pose proof (emits_delete sdk (λ c, isCreateGroup c = false) r.1
                (λ _, eq_refl) (final sync (final create st))) as Hd.
  rewrite Forall_forall in Hm. rewrite Forall_forall in Hd.
  destruct (result sync (final create st)) as [[err|]|msg];
    (intros [[=]|[[=]|Hc]%elem_of_cons]%elem_of_cons);
    repeat (apply elem_of_app in Hc as [Hc|Hc]); try done;
    try (by apply Hm in Hc); by apply Hd in Hc.
Qed.

Lemma googleGroups_creates_listed s googleGroups googleGroupsIndex groupsIndex
    st c :
  c ∈ trace (SyncGroups_googleGroups sdk s googleGroups googleGroupsIndex
               groupsIndex) st →
  ∃ g, g ∈ googleGroups ∧
       (admin.Group_Email g ∉ config.IgnoreGroups (cfg s)) ∧
       c = CreateGroupCall (Some (admin.Group_Name g))
             (Some (admin.Group_Description g)) ∧
       groupsIndex !! admin.Group_Name g = None.
Proof.
  revert googleGroupsIndex groupsIndex st.
  induction googleGroups as [|g rest IH];
    intros googleGroupsIndex groupsIndex st; simpl;
    [by intros ?%elem_of_nil|].
  rewrite trace_bind. intros [Hc|Hc]%elem_of_app.
  { exists g. split; [by left|].
    assert (ignoreGroup s (admin.Group_Email g) = false) as Hign.
    { revert Hc. unfold SyncGroups_googleGroup.
      by destruct (ignoreGroup s _); [intros ?%elem_of_nil|]. }
    apply googleGroup_creates_absent in Hc as [-> ?].
    split; [by apply ignoreGroup_not_elem|done]. }
  destruct (googleGroup_spec sdk s g googleGroupsIndex groupsIndex st)
    as (groupsIndex1 & Hr & _ & Hpres & _).
  rewrite Hr in Hc. apply IH in Hc as (g' & Hin & Hign & -> & Hnone).
  exists g'. split; [by right|]. split; [done|]. split; [done|].
  destruct (groupsIndex !! admin.Group_Name g') eqn:Hg'; [|done].
  rewrite Hpres in Hnone; [congruence|by eexists].
Qed.

Lemma googleGroup_creates_when_absent s g googleGroupsIndex groupsIndex st :
  ignoreGroup s (admin.Group_Email g) = false →
  groupsIndex !! admin.Group_Name g = None →
  trace (SyncGroups_googleGroup sdk s g googleGroupsIndex groupsIndex) st
  = [CreateGroupCall (Some (admin.Group_Name g))
       (Some (admin.Group_Description g))].
Proof.
  intros Hign Hnone. unfold SyncGroups_googleGroup. rewrite Hign, Hnone.
  rewrite trace_bind. unfold aws_CreateGroup. rewrite trace_call, result_call.
  cbv beta.
  by destruct (sdk_CreateGroup sdk _ _ st) as [[err|gid] st'].
Qed.

Lemma googleGroups_creates_missing s googleGroups googleGroupsIndex groupsIndex
    st g :
  g ∈ googleGroups →
  admin.Group_Email g ∉ config.IgnoreGroups (cfg s) →
  groupsIndex !! admin.Group_Name g = None →
  ∃ description,
    CreateGroupCall (Some (admin.Group_Name g)) description
      ∈ trace (SyncGroups_googleGroups sdk s googleGroups googleGroupsIndex
                 groupsIndex) st.
Proof.
  revert googleGroupsIndex groupsIndex st.
  induction googleGroups as [|g0 rest IH];
    intros googleGroupsIndex groupsIndex st; simpl;
    [by intros ?%elem_of_nil|].
  intros Hin Hign Hnone. rewrite trace_bind.
  destruct (decide (g0 = g)) as [->|Hne].
  { exists (Some (admin.Group_Description g)). apply elem_of_app. left.
    rewrite googleGroup_creates_when_absent;
      [by left|by apply ignoreGroup_not_elem|done]. }
  apply elem_of_cons in Hin as [?|Hin]; [done|].
  destruct (googleGroup_spec sdk s g0 googleGroupsIndex groupsIndex st)
    as (groupsIndex1 & Hr & _ & _ & Horigin).
  rewrite Hr.
  destruct (groupsIndex1 !! admin.Group_Name g) eqn:Hg1.
  - destruct (Horigin (admin.Group_Name g)) as [[? ?]|[Hign0 Hname]];
      [by eexists|congruence|].
    exists (Some (admin.Group_Description g0)). apply elem_of_app. left.
    rewrite googleGroup_creates_when_absent; [|done|by rewrite <-Hname].
    rewrite Hname. by left.
  - destruct (IH (if ignoreGroup s (admin.Group_Email g0)
                  then googleGroupsIndex
                  else <[admin.Group_Name g0:=g0]> googleGroupsIndex)
                groupsIndex1 (final (SyncGroups_googleGroup sdk s g0
                                       googleGroupsIndex groupsIndex) st)
                Hin Hign Hg1) as [d Hd].
    exists d. apply elem_of_app. by right.
Qed.

(** C10, as the code has it. In a run of [SyncGroups] the ignore list is
    matched, character for character, against the email of a source group,
    and everything else goes by name.  A group created is a listed source
    group whose email is off the list, created under its name, which no
    listed target group carries; when the two listings succeed, a listed
    source group whose email is off the list and whose name no listed target
    group carries is created, whether or not its name is on the list.  A
    group deleted is a listed target group whose display name no listed
    source group with an email off the list carries; when the run returns no
    error, every such target group is deleted, though a source group on the
    list by its email carries that name. *)
Theorem group_ignore_keys_on_email (s : syncGSuite) (q : string)
    (usersSyncResult : UserSyncResult) (st : St) :
  (∀ name, ignoreGroup s name = true ↔ name ∈ config.IgnoreGroups (cfg s)) ∧
  (∀ name description,
     CreateGroupCall name description
       ∈ trace (SyncGroups sdk identityStoreId range s q usersSyncResult) st →
     ∃ g, g ∈ (google.GetGroups (google s) q).1 ∧
          (admin.Group_Email g ∉ config.IgnoreGroups (cfg s)) ∧
          name = Some (admin.Group_Name g) ∧
          description = Some (admin.Group_Description g) ∧
          ∀ t, t ∈ (drain [] (sdk_ListGroups sdk st)).1 →
               ToString (types.Group_DisplayName t) ≠ admin.Group_Name g) ∧
  ((drain [] (sdk_ListGroups sdk st)).2 = None →
   (google.GetGroups (google s) q).2 = None →
   ∀ g, g ∈ (google.GetGroups (google s) q).1 →
        admin.Group_Email g ∉ config.IgnoreGroups (cfg s) →
        (∀ t, t ∈ (drain [] (sdk_ListGroups sdk st)).1 →
              ToString (types.Group_DisplayName t) ≠ admin.Group_Name g) →
        ∃ description,
          CreateGroupCall (Some (admin.Group_Name g)) description
            ∈ trace (SyncGroups sdk identityStoreId range s q
                       usersSyncResult) st) ∧
  (∀ t, DeleteGroupCall t
          ∈ trace (SyncGroups sdk identityStoreId range s q usersSyncResult)
              st →
        t ∈ (drain [] (sdk_ListGroups sdk st)).1 ∧
        ¬ kept s (google.GetGroups (google s) q).1
            (ToString (types.Group_DisplayName t))) ∧
  (result (SyncGroups sdk identityStoreId range s q usersSyncResult) st
   = Ok None →
   ∀ t, t ∈ (drain [] (sdk_ListGroups sdk st)).1 →
        ¬ kept s (google.GetGroups (google s) q).1
            (ToString (types.Group_DisplayName t)) →
        DeleteGroupCall t
          ∈ trace (SyncGroups sdk identityStoreId range s q usersSyncResult)
              st).
Proof.
  assert (∀ k, SyncGroups_awsGroups (drain [] (sdk_ListGroups sdk st)).1 ∅
                 !! k = None ↔
               ∀ t, t ∈ (drain [] (sdk_ListGroups sdk st)).1 →
                    ToString (types.Group_DisplayName t) ≠ k) as Habsent.
  { intros k. rewrite eq_None_not_Some, awsGroups_lookup. split.
    - intros Hno t Ht Hk. apply Hno. right. by exists t.
    - intros Hall [[? Hempty]|(t & Ht & Hk)]; [|by apply (Hall t)].
      by rewrite lookup_empty in Hempty. }
  split; [apply ignoreGroup_loop_elem|]. split; [|split; [|split]].
  - intros name description Hc%SyncGroups_creations.
    apply googleGroups_creates_listed in Hc
      as (g & Hin & Hign & [= -> ->] & Hnone).
    exists g. do 4 (split; [done|]). by apply Habsent.
  - intros Ha Hg g Hin Hign Hnone%Habsent.
    destruct (googleGroups_creates_missing s _ ∅ _ st g Hin Hign Hnone)
      as [d Hd].
    exists d. unfold trace at 1. rewrite SyncGroups_cases. cbv zeta.
    rewrite Ha, Hg.
    destruct (result (SyncGroups_googleGroups _ _ _ _ _) st)
      as [[googleGroupsIndex groupsIndex]|msg].
    2:{ right. by right. }
    destruct (result (SyncGroups_memberships _ _ _ _ _ _ _) _)
      as [[err|]|msg]; simpl; right; right; apply elem_of_app; by left.
  - intros t. apply SyncGroups_deletes_only_unmatched.
  - intros Hok t. by apply SyncGroups_deletes_every_unmatched.
Qed.

(** ** The creation of a user in a run of [SyncUsers] *)

Lemma run_projections {A} (m : M St A) st o f t :
  m st = (o, f, t) → result m st = o ∧ final m st = f ∧ trace m st = t.
Proof. unfold result, final, trace. by intros ->. Qed.

Lemma awsUsers_index_origin awsUsers usersSyncResult k :
  is_Some (index (SyncUsers_awsUsers awsUsers usersSyncResult) !! k) →
  is_Some (index usersSyncResult !! k) ∨
  ∃ t, t ∈ awsUsers ∧ ToString (types.UserName t) = k.
Proof.
  revert usersSyncResult. induction awsUsers as [|u rest IH];
    intros usersSyncResult; simpl; [by left|].
  intros [Hk|(t & Ht & Hn)]%IH; [|right; exists t; split; [by right|done]].
  simpl in Hk. rewrite lookup_insert in Hk.
  case_decide; [|by left]. right. exists u. split; [by left|done].
Qed.

Lemma googleUser_other s u usersSyncResult st usersSyncResult' :
  result (SyncUsers_googleUser sdk s u usersSyncResult) st
  = Ok usersSyncResult' →
  (∀ k, k ≠ admin.PrimaryEmail u →
        index usersSyncResult' !! k = index usersSyncResult !! k) ∧
  (∀ k, is_Some (indexByUserId usersSyncResult !! k) →
        is_Some (indexByUserId usersSyncResult' !! k)).
Proof.
  unfold SyncUsers_googleUser.
  destruct (ignoreUser s (admin.PrimaryEmail u)); [by intros [= <-]|].
  destruct (index usersSyncResult !! admin.PrimaryEmail u) as [userInAWS|];
    destruct (admin.Suspended u); try (by intros [= <-]).
  unfold result, bind, aws_CreateUser, call.
  destruct (sdk_CreateUser sdk _ _ _ _ st) as [[err|uid] st']; simpl;
    intros [= <-]; [done|]. simpl. split.
  - intros k Hk. by rewrite lookup_insert_ne.
  - intros k Hk. rewrite lookup_insert. by case_decide; [eexists|].
Qed.

Lemma googleUsers_other s googleUsers usersSyncResult st usersSyncResult' :
  result (SyncUsers_googleUsers sdk s googleUsers usersSyncResult) st
  = Ok usersSyncResult' →
  (∀ k, (∀ p, p ∈ googleUsers → admin.PrimaryEmail p ≠ k) →
        index usersSyncResult' !! k = index usersSyncResult !! k) ∧
  (∀ k, is_Some (indexByUserId usersSyncResult !! k) →
        is_Some (indexByUserId usersSyncResult' !! k)).
Proof.
  revert usersSyncResult st. induction googleUsers as [|u rest IH];
    intros usersSyncResult st; simpl; [by intros [= <-]|].
  rewrite result_bind.
  destruct (googleUser_spec sdk s u usersSyncResult st) as (usr1 & Hr & _).
  rewrite Hr. intros Hres.
  destruct (googleUser_other _ _ _ _ _ Hr) as [Hi Hb].
  destruct (IH _ _ Hres) as [Hi' Hb']. split.
  - intros k Hk. rewrite Hi', Hi; [done| |].
    + intros ->. by apply (Hk u); [left|].
    + intros p Hp. apply Hk. by right.
  - intros k Hk. by apply Hb', Hb.
Qed.

Lemma googleUsers_app s pre googleUsers usersSyncResult st :
  SyncUsers_googleUsers sdk s (pre ++ googleUsers) usersSyncResult st
  = match result (SyncUsers_googleUsers sdk s pre usersSyncResult) st with
    | Ok usr1 =>
        let st1 := final (SyncUsers_googleUsers sdk s pre usersSyncResult) st
        in
        (result (SyncUsers_googleUsers sdk s googleUsers usr1) st1,
         final (SyncUsers_googleUsers sdk s googleUsers usr1) st1,
         trace (SyncUsers_googleUsers sdk s pre usersSyncResult) st ++
         trace (SyncUsers_googleUsers sdk s googleUsers usr1) st1)
    | Panic msg =>
        (Panic msg, final (SyncUsers_googleUsers sdk s pre usersSyncResult) st,
         trace (SyncUsers_googleUsers sdk s pre usersSyncResult) st)
    end.
Proof.
  revert usersSyncResult st. induction pre as [|p pre IH];
    intros usersSyncResult st.
  { simpl. apply run_eta. }
  simpl app. simpl SyncUsers_googleUsers.
  rewrite run_bind, result_bind, final_bind, trace_bind.
  destruct (result (SyncUsers_googleUser sdk s p usersSyncResult) st)
    as [usr1|msg]; [|by rewrite app_nil_r].
  pose proof (IH usr1
                (final (SyncUsers_googleUser sdk s p usersSyncResult) st))
    as Hrun.
  destruct (result (SyncUsers_googleUsers sdk s pre usr1) _) as [usr2|msg];
    cbv zeta in Hrun; apply run_projections in Hrun as (-> & -> & ->);
    simpl; by rewrite ?app_assoc.
Qed.

(** C8. A run of [SyncUsers] whose three listings succeed reaches a source
    user that is not on the ignore list, is not suspended, and whose email no
    listed target user has as username and no earlier listed source user has
    as email.  The pass over the earlier source users leaves the index
    without that username.  The user requested for creation then has the
    email as username, the given and family names joined by one space as
    display name, one email (primary, of type work, the username) and one
    external id (the source id, issuer Google).  The run makes that call
    after those of the earlier source users.  On success the returned user,
    with the id the store assigned, is put in both maps; on failure the
    result is left as it was; either way the run goes on with the remaining
    source users, and what the maps hold after this step the returned maps
    still hold: [index] every entry, [indexByUserId] every key. *)
Theorem new_user_construction_and_insertion (s : syncGSuite) (q : string)
    (st : St) (pre rest : list admin.User) (u : admin.User) :
  (drain [] (sdk_ListUsers sdk st)).2 = None →
  (google.GetDeletedUsers (google s)).2 = None →
  google.GetUsers (google s) q = (pre ++ u :: rest, None) →
  admin.PrimaryEmail u ∉ config.IgnoreUsers (cfg s) →
  admin.Suspended u = false →
  (∀ t, t ∈ (drain [] (sdk_ListUsers sdk st)).1 →
        ToString (types.UserName t) ≠ admin.PrimaryEmail u) →
  (∀ p, p ∈ pre → admin.PrimaryEmail p ≠ admin.PrimaryEmail u) →
  let req := userToAdd u in
  let listed :=
    SyncUsers_gcpDeletedUsers (google.GetDeletedUsers (google s)).1
      (SyncUsers_awsUsers (drain [] (sdk_ListUsers sdk st)).1
         {| index := ∅; toDelete := []; indexByUserId := ∅ |}) in
  let st1 := final (SyncUsers_googleUsers sdk s pre listed) st in
  let created :=
    sdk_CreateUser sdk (types.DisplayName req) (types.UserName req)
      (types.User_Name req) (types.Emails req) st1 in
  types.UserName req = Some (admin.PrimaryEmail u) ∧
  types.DisplayName req
  = Some (admin.GivenName (admin.Name u) +:+ " " +:+
          admin.FamilyName (admin.Name u)) ∧
  types.Emails req
  = [ {| types.Primary := true; types.Type_ := Some "work";
         types.Value := Some (admin.PrimaryEmail u) |} ] ∧
  types.ExternalIds req
  = [ {| types.Id := Some (admin.Id u); types.Issuer := Some "Google" |} ] ∧
  ∃ before after,
    let inserted :=
      match created.1 with
      | inl err => before
      | inr uid =>
          let added :=
            {| types.UserId := uid;
               types.UserName := types.UserName req;
               types.DisplayName := types.DisplayName req;
               types.User_Name := types.User_Name req;
               types.Emails := types.Emails req;
               types.ExternalIds := types.ExternalIds req |} in
          {| index := <[admin.PrimaryEmail u := added]> (index before);
             toDelete := toDelete before;
             indexByUserId :=
               <[ToString uid := added]> (indexByUserId before) |}
      end in
    result (SyncUsers_googleUsers sdk s pre listed) st = Ok before ∧
    index before !! admin.PrimaryEmail u = None ∧
    SyncUsers_googleUser sdk s u before st1
    = (Ok inserted, created.2, [CreateUserCall req]) ∧
    trace (SyncUsers sdk s q) st
    = GetUsersCall :: GoogleGetDeletedUsersCall :: GoogleGetUsersCall q ::
        trace (SyncUsers_googleUsers sdk s pre listed) st ++
        CreateUserCall req ::
        trace (SyncUsers_googleUsers sdk s rest inserted) created.2 ∧
    result (SyncUsers_googleUsers sdk s rest inserted) created.2 = Ok after ∧
    result (SyncUsers sdk s q) st = Ok (after, None) ∧
    index inserted ⊆ index after ∧
    (∀ k, is_Some (indexByUserId inserted !! k) →
          is_Some (indexByUserId after !! k)).
Proof.
  intros Ha Hd Hg Hign Hsusp Habsent Hpre. cbv zeta.
  set (listed := SyncUsers_gcpDeletedUsers _ _).
  destruct (googleUsers_spec sdk s pre listed st)
    as (before & extra & Hbefore & _).
  assert (index before !! admin.PrimaryEmail u = None) as Hnone.
  { destruct (googleUsers_other _ _ _ _ _ Hbefore) as [Hother _].
    rewrite (Hother _ Hpre). unfold listed.
    destruct (gcpDeletedUsers_spec (google.GetDeletedUsers (google s)).1
                (SyncUsers_awsUsers (drain [] (sdk_ListUsers sdk st)).1
                   {| index := ∅; toDelete := []; indexByUserId := ∅ |}))
      as (-> & _).
    apply eq_None_not_Some.
    intros [[? Hempty]|(t & Ht & Hn)]%awsUsers_index_origin;
      [simpl in Hempty; by rewrite lookup_empty in Hempty|
       by apply (Habsent t)]. }
  destruct (googleUser_creates_new sdk s u rest before
              (final (SyncUsers_googleUsers sdk s pre listed) st)
              Hign Hsusp Hnone) as (F1 & F2 & F3 & F4 & Hbody & _).
  cbv zeta in Hbody.
  do 4 (split; [done|]).
  set (st1 := final (SyncUsers_googleUsers sdk s pre listed) st) in *.
  set (created := sdk_CreateUser sdk _ _ _ _ st1) in *.
  set (inserted := match created.1 with inl _ => _ | inr _ => _ end) in *.
  destruct (googleUsers_spec sdk s rest inserted created.2)
    as (after & extra' & Hafter & Hsub & _).
  destruct (googleUsers_other _ _ _ _ _ Hafter) as [_ Hids].
  exists before, after. do 3 (split; [done|]).
  destruct (run_projections _ _ _ _ _ Hbody) as (Hrb & Hfb & Htb).
  assert (SyncUsers_googleUsers sdk s (pre ++ u :: rest) listed st
          = (Ok after, final (SyncUsers_googleUsers sdk s rest inserted)
                         created.2,
             trace (SyncUsers_googleUsers sdk s pre listed) st ++
             CreateUserCall (userToAdd u) ::
             trace (SyncUsers_googleUsers sdk s rest inserted) created.2))
    as Hloop.
  { rewrite googleUsers_app, Hbefore. cbv zeta. fold st1.
    simpl SyncUsers_googleUsers.
    rewrite result_bind, final_bind, trace_bind, Hrb, Hfb, Htb, Hafter.
    done. }
  destruct (run_projections _ _ _ _ _ Hloop) as (Hrl & _ & Htl).
  split; [|split; [done|split; [|done]]].
  - unfold trace at 1. rewrite SyncUsers_cases. cbv zeta.
    rewrite Ha, Hd, Hg. simpl snd. simpl fst. fold listed.
    by rewrite Htl.
  - unfold result at 1. rewrite SyncUsers_cases. cbv zeta.
    rewrite Ha, Hd, Hg. simpl snd. simpl fst. fold listed.
    by rewrite Hrl.
Qed.

End Coverage.

(** ** internal/config/secrets.go *)

(** X21. An error that [getSecret] returns is that of the service or that of
    the decoder of a binary secret, and the string returned with it is
    empty. *)
Theorem getSecret_error_gives_empty (std : secrets.Encoding)
    (s : secrets.Secrets) (secretKey v : string) (err : error) :
  secrets.getSecret std s secretKey = Ok (v, Some err) →
  v = EmptyString ∧
  (secrets.svc s secretKey "AWSCURRENT" = inl err ∨
   ∃ r, secrets.svc s secretKey "AWSCURRENT" = inr r ∧
        secrets.SecretString r = None ∧
        (secrets.Decode std
           (secrets.make
              (secrets.DecodedLen std (String.length (secrets.SecretBinary r))))
           (secrets.SecretBinary r)).1.2 = Some err).
Proof.
  unfold secrets.getSecret.
  destruct (secrets.svc s secretKey "AWSCURRENT") as [e|r].
  { intros [= <- <-]. split; [done|by left]. }
  destruct (secrets.SecretString r) eqn:Hs; [done|].
  destruct (secrets.Decode std _ _) as [[l [e|]] b] eqn:Hd.
  - intros [= <- <-]. split; [done|]. right. exists r.
    split; [done|]. split; [done|]. by rewrite Hd.
  - by destruct (secrets.slice_to b l).
Qed.

(** X22. [getSecret] panics exactly when the secret has no string, the
    decoder of its binary value reports no error and reports more bytes than
    the buffer it leaves holds.  Otherwise it returns; a binary secret then
    has the length the decoder reported. *)
Theorem getSecret_panics_iff (std : secrets.Encoding) (s : secrets.Secrets)
    (secretKey : string) :
  ((∃ msg, secrets.getSecret std s secretKey = Panic msg) ↔
   ∃ r, secrets.svc s secretKey "AWSCURRENT" = inr r ∧
        secrets.SecretString r = None ∧
        let d :=
          secrets.Decode std
            (secrets.make
               (secrets.DecodedLen std
                  (String.length (secrets.SecretBinary r))))
            (secrets.SecretBinary r) in
        d.1.2 = None ∧ String.length d.2 < d.1.1) ∧
  (∀ r v,
     secrets.svc s secretKey "AWSCURRENT" = inr r →
     secrets.SecretString r = None →
     secrets.getSecret std s secretKey = Ok (v, None) →
     String.length v
     = (secrets.Decode std
          (secrets.make
             (secrets.DecodedLen std (String.length (secrets.SecretBinary r))))
          (secrets.SecretBinary r)).1.1).
Proof.
  unfold secrets.getSecret.
  destruct (secrets.svc s secretKey "AWSCURRENT") as [e|r].
  { split; [|done]. split; [by intros [? ?]|by intros (? & ? & _)]. }
  destruct (secrets.SecretString r) eqn:Hs.
  { split; [|by intros ? ? [= <-]; rewrite Hs].
    split; [by intros [? ?]|]. intros (r' & [= <-] & ? & _). congruence. }
  destruct (secrets.Decode std _ _) as [[l [e|]] b] eqn:Hd.
  { split; [|done]. split; [by intros [? ?]|].
    intros (r' & [= <-] & _ & Hn & _). revert Hn. by rewrite Hd. }
  unfold secrets.slice_to.
  destruct (decide (l ≤ String.length b)) as [Hle|Hgt].
  - split.
    + split; [by intros [? ?]|].
      intros (r' & [= <-] & _ & _ & Hlt). revert Hlt. rewrite Hd. simpl. lia.
    + intros r' v [= <-] _ [= <-]. rewrite Hd. simpl.
      clear Hd. revert l Hle. induction b as [|a b IH]; intros [|l] Hle;
        simpl in *; try done; try lia.
      f_equal. destruct l as [|l].
      * by destruct b.
      * apply IH. lia.
  - split; [|done]. split; [|by eexists].
    intros _. exists r. split; [done|]. split; [done|]. rewrite Hd. simpl.
    split; [done|lia].
Qed.

(** * The statements on concrete directories *)

Import scenario.

Lemma memstore_range_visits_entries : visits_entries memstore.range.
Proof. intros A m k v Hin. by apply elem_of_map_to_list in Hin. Qed.

(** C4, as stated, fails: handed no source group, membership reconciliation
    of a target group with one member panics and makes no call. *)
Lemma nil_source_group_panics :
  SyncMembershipsForGroup memstore.sdk None memstore.range (ignoring [] [])
    None (group "g-1" "Eng")
    {| index := {[ "a@x.com" := user "u-1" "a@x.com" ]}; toDelete := [];
       indexByUserId := {[ "u-1" := user "u-1" "a@x.com" ]} |}
    (store [user "u-1" "a@x.com"] [group "g-1" "Eng"]
       [membership "m-1" "g-1" "u-1"] [])
  = (Panic nilDeref,
     store [user "u-1" "a@x.com"] [group "g-1" "Eng"]
       [membership "m-1" "g-1" "u-1"] [],
     []).
Proof. reflexivity. Qed.

(** C5, on the code. A target membership whose member id is not of the
    user-id kind: the type assertion fails, the error is logged, and the nil
    pointer is dereferenced; the reconciliation panics after the two
    listings, with no membership removed. *)
Theorem cast_mismatch_panics :
  SyncMembershipsForGroup memstore.sdk None memstore.range (ignoring [] [])
    (Some (ggroup "Eng" "eng@x.com")) (group "g-1" "Eng")
    {| index := {[ "a@x.com" := user "u-1" "a@x.com" ]}; toDelete := [];
       indexByUserId := {[ "u-1" := user "u-1" "a@x.com" ]} |}
    (store [user "u-1" "a@x.com"] [group "g-1" "Eng"]
       [ {| types.Membership_GroupId := Some "g-1";
            types.IdentityStoreId := None;
            types.Membership_MemberId :=
              Some (types.UnknownUnionMember "MemberGroupId");
            types.MembershipId := Some "m-1" |} ] [])
  = (Panic nilDeref,
     store [user "u-1" "a@x.com"] [group "g-1" "Eng"]
       [ {| types.Membership_GroupId := Some "g-1";
            types.IdentityStoreId := None;
            types.Membership_MemberId :=
              Some (types.UnknownUnionMember "MemberGroupId");
            types.MembershipId := Some "m-1" |} ] [],
     [GoogleGetGroupMembersCall (ggroup "Eng" "eng@x.com");
      GetGroupMembersCall (group "g-1" "Eng")]).
Proof. reflexivity. Qed.

Lemma deletion_after_full_pass_witness :
  trace (DoSync memstore.sdk None memstore.range
           (host (source [guser "a@x.com" false] [] [ggroup "Eng" "eng@x.com"]
                    (λ _, [])))
           (config [] []))
    (store [user "u-1" "a@x.com"] [group "g-1" "Eng"]
       [membership "m-1" "g-1" "u-1"] [])
  = [GetUsersCall; GoogleGetDeletedUsersCall; GoogleGetUsersCall EmptyString;
     GetGroupsCall; GoogleGetGroupsCall EmptyString;
     GoogleGetGroupMembersCall (ggroup "Eng" "eng@x.com");
     GetGroupMembersCall (group "g-1" "Eng");
     RemoveGroupMembershipCall (membership "m-1" "g-1" "u-1");
     DeleteUserCall (user "u-1" "a@x.com")] ∧
  7 < 8.
Proof.
  split; [reflexivity|].
  apply (proj1 (deletion_after_full_pass memstore.sdk None memstore.range
                  (host (source [guser "a@x.com" false] []
                           [ggroup "Eng" "eng@x.com"] (λ _, [])))
                  (config [] [])
                  (store [user "u-1" "a@x.com"] [group "g-1" "Eng"]
                     [membership "m-1" "g-1" "u-1"] []))
           8 7 (user "u-1" "a@x.com")
           (RemoveGroupMembershipCall (membership "m-1" "g-1" "u-1")));
    reflexivity.
Defined.

(** C2, as stated, fails: the user a@x.com and the group Eng (by name and by
    email) are on the ignore lists; a tombstone names the user, and both are
    deleted from the target. *)
Lemma ignored_entities_are_deleted :
  mutations
    (trace (DoSync_run memstore.sdk None memstore.range
              {| google := source [guser "a@x.com" false] []
                             [ggroup "Eng" "eng@x.com"] (λ _, []);
                 cfg := config ["a@x.com"] ["Eng"; "eng@x.com"] |})
       (store [user "u-1" "a@x.com"] [group "g-1" "Eng"] [] []))
  = [DeleteGroupCall (group "g-1" "Eng");
     DeleteUserCall (user "u-1" "a@x.com")].
Proof. reflexivity. Qed.

Lemma ignore_list_exclusion_witness :
  (∀ u, CreateUserCall u
          ∈ trace (DoSync_run memstore.sdk None memstore.range
                     {| google := source [] [guser "a@x.com" false;
                                              guser "b@x.com" false]
                                    [ggroup "Eng" "eng@x.com";
                                     ggroup "Ops" "ops@x.com"] (λ _, []);
                        cfg := config ["a@x.com"] ["eng@x.com"] |})
              (store [] [] [] ["u-1"; "g-1"]) →
        types.UserName u ≠ Some "a@x.com") ∧
  trace (DoSync_run memstore.sdk None memstore.range
           {| google := source [] [guser "a@x.com" false;
                                    guser "b@x.com" false]
                          [ggroup "Eng" "eng@x.com";
                           ggroup "Ops" "ops@x.com"] (λ _, []);
              cfg := config ["a@x.com"] ["eng@x.com"] |})
    (store [] [] [] ["u-1"; "g-1"])
  = [GetUsersCall; GoogleGetDeletedUsersCall; GoogleGetUsersCall EmptyString;
     CreateUserCall (userToAdd (guser "b@x.com" false));
     GetGroupsCall; GoogleGetGroupsCall EmptyString;
     CreateGroupCall (Some "Ops") (Some EmptyString);
     GoogleGetGroupMembersCall (ggroup "Ops" "ops@x.com");
     GetGroupMembersCall
       {| types.GroupId := Some "g-1";
          types.Group_DisplayName := Some "Ops";
          types.Description := Some EmptyString |}].
Proof.
  split; [|reflexivity].
  refine (proj1 (proj1 (ignore_list_exclusion memstore.sdk None memstore.range
                  {| google := source [] [guser "a@x.com" false;
                                           guser "b@x.com" false]
                                 [ggroup "Eng" "eng@x.com";
                                  ggroup "Ops" "ops@x.com"] (λ _, []);
                     cfg := config ["a@x.com"] ["eng@x.com"] |}
                  (store [] [] [] ["u-1"; "g-1"])) "a@x.com" _)).
  apply (bool_decide_unpack _). vm_compute. exact I.
Defined.

(** C9, as stated, fails: the username is on the ignore list, so the pass
    over the active source users skips its suspended entry; the target user
    is marked once, by the tombstone, and deleted once. *)
Lemma ignored_user_is_pending_once :
  ∃ usersSyncResult,
    result (SyncUsers memstore.sdk
              {| google := source [guser "a@x.com" false]
                             [guser "a@x.com" true] [] (λ _, []);
                 cfg := config ["a@x.com"] [] |} EmptyString)
      (store [user "u-1" "a@x.com"] [] [] [])
    = Ok (usersSyncResult, None) ∧
    toDelete usersSyncResult = [user "u-1" "a@x.com"] ∧
    trace (DoSync_run memstore.sdk None memstore.range
             {| google := source [guser "a@x.com" false]
                            [guser "a@x.com" true] [] (λ _, []);
                cfg := config ["a@x.com"] [] |})
      (store [user "u-1" "a@x.com"] [] [] [])
    = [GetUsersCall; GoogleGetDeletedUsersCall; GoogleGetUsersCall EmptyString;
       GetGroupsCall; GoogleGetGroupsCall EmptyString;
       DeleteUserCall (user "u-1" "a@x.com")].
Proof. eexists. split; [reflexivity|]. split; reflexivity. Qed.

Lemma duplicate_pending_deletion_witness :
  ∃ i j,
    i < j ∧
    trace (DoSync_run memstore.sdk None memstore.range
             {| google := source [guser "a@x.com" false]
                            [guser "a@x.com" true] [] (λ _, []);
                cfg := config [] [] |})
      (store [user "u-1" "a@x.com"] [] [] []) !! i
    = Some (DeleteUserCall (user "u-1" "a@x.com")) ∧
    trace (DoSync_run memstore.sdk None memstore.range
             {| google := source [guser "a@x.com" false]
                            [guser "a@x.com" true] [] (λ _, []);
                cfg := config [] [] |})
      (store [user "u-1" "a@x.com"] [] [] []) !! j
    = Some (DeleteUserCall (user "u-1" "a@x.com")).
Proof.
  destruct (duplicate_pending_deletion memstore.sdk None memstore.range
              {| google := source [guser "a@x.com" false]
                             [guser "a@x.com" true] [] (λ _, []);
                 cfg := config [] [] |}
              (store [user "u-1" "a@x.com"] [] [] [])
              [user "u-1" "a@x.com"] [guser "a@x.com" false]
              [guser "a@x.com" true] (guser "a@x.com" false)
              (guser "a@x.com" true) (user "u-1" "a@x.com"))
    as (usersSyncResult & i & j & Husers & Hlt & Hi & Hj & Hrun).
  - reflexivity.
  - reflexivity.
  - reflexivity.
  - by left.
  - by left.
  - reflexivity.
  - reflexivity.
  - apply not_elem_of_nil.
  - reflexivity.
  - vm_compute in Husers. injection Husers as <-.
    destruct j as [|[|j]]; [lia| |discriminate Hj].
    destruct Hrun as (n & Hn1 & Hn2); [reflexivity|reflexivity|].
    exists (n + i), (n + 1). split; [lia|]. by split.
Defined.

(** C1, as stated, fails: the store refuses the creation of the one source
    user, so the run leaves the target as it found it; the run that follows
    is presented the same snapshots and calls [CreateUser] again. *)
Lemma identical_snapshots_second_run_mutates :
  ¬ idempotent_on_identical_snapshots memstore.sdk None memstore.range
      (host (source [] [guser "a@x.com" false] [] (λ _, [])))
      (config [] []) (store [] [] [] []).
Proof.
  unfold idempotent_on_identical_snapshots. cbv zeta.
  change (final _ (store [] [] [] [])) with (store [] [] [] []).
  intros Hall.
  specialize (Hall (same_target_refl memstore.sdk (store [] [] [] []))).
  by vm_compute in Hall.
Qed.

Lemma memstore_range_permutes : permutes memstore.range.
Proof. by intros A m. Qed.

Lemma memstore_reversed_permutes : permutes memstore.reversed.
Proof. intros A m. apply reverse_Permutation. Qed.

Lemma quiet_run_stays_quiet_witness :
  mutations
    (trace (DoSync memstore.sdk None memstore.reversed
              (host (source [] [guser "a@x.com" false; guser "b@x.com" false]
                       [ggroup "Eng" "eng@x.com"; ggroup "Ops" "ops@x.com"]
                       (λ _, [ {| admin.Member_Email := "a@x.com" |};
                               {| admin.Member_Email := "b@x.com" |} ])))
              (config [] []))
       (store [user "u-1" "a@x.com"; user "u-2" "b@x.com"]
          [group "g-1" "Eng"; group "g-2" "Ops"]
          [membership "m-1" "g-1" "u-1"; membership "m-2" "g-1" "u-2";
           membership "m-3" "g-2" "u-2"; membership "m-4" "g-2" "u-1"]
          ["x-1"])) = [] ∧
  result (DoSync memstore.sdk None memstore.reversed
            (host (source [] [guser "a@x.com" false; guser "b@x.com" false]
                     [ggroup "Eng" "eng@x.com"; ggroup "Ops" "ops@x.com"]
                     (λ _, [ {| admin.Member_Email := "a@x.com" |};
                             {| admin.Member_Email := "b@x.com" |} ])))
            (config [] []))
    (store [user "u-1" "a@x.com"; user "u-2" "b@x.com"]
       [group "g-1" "Eng"; group "g-2" "Ops"]
       [membership "m-1" "g-1" "u-1"; membership "m-2" "g-1" "u-2";
        membership "m-3" "g-2" "u-2"; membership "m-4" "g-2" "u-1"]
       ["x-1"]) = Ok None.
Proof.
  apply (quiet_run_stays_quiet memstore.sdk None memstore.range
           memstore.reversed _ _
           (store [user "u-1" "a@x.com"; user "u-2" "b@x.com"]
              [group "g-1" "Eng"; group "g-2" "Ops"]
              [membership "m-1" "g-1" "u-1"; membership "m-2" "g-1" "u-2";
               membership "m-3" "g-2" "u-2"; membership "m-4" "g-2" "u-1"]
              [])).
  - exact memstore_range_permutes.
  - exact memstore_reversed_permutes.
  - by repeat split.
  - reflexivity.
  - reflexivity.
Defined.

Lemma removals_precede_additions_witness :
  trace (SyncMembershipsForGroup memstore.sdk None memstore.range
           {| google := source [] [] [ggroup "Eng" "eng@x.com"]
                          (λ _, [ {| admin.Member_Email := "b@x.com" |} ]);
              cfg := config [] [] |}
           (Some (ggroup "Eng" "eng@x.com")) (group "g-1" "Eng")
           {| index := {[ "a@x.com" := user "u-1" "a@x.com";
                          "b@x.com" := user "u-2" "b@x.com" ]};
              toDelete := [];
              indexByUserId := {[ "u-1" := user "u-1" "a@x.com";
                                  "u-2" := user "u-2" "b@x.com" ]} |})
    (store [user "u-1" "a@x.com"; user "u-2" "b@x.com"] [group "g-1" "Eng"]
       [membership "m-1" "g-1" "u-1"] ["m-2"])
  = [GoogleGetGroupMembersCall (ggroup "Eng" "eng@x.com");
     GetGroupMembersCall (group "g-1" "Eng");
     RemoveGroupMembershipCall (membership "m-1" "g-1" "u-1");
     AddUserToGroupCall (user "u-2" "b@x.com") (group "g-1" "Eng")] ∧
  2 < 3.
Proof.
  split; [reflexivity|].
  apply (removals_precede_additions memstore.sdk None memstore.range
           {| google := source [] [] [ggroup "Eng" "eng@x.com"]
                          (λ _, [ {| admin.Member_Email := "b@x.com" |} ]);
              cfg := config [] [] |}
           (Some (ggroup "Eng" "eng@x.com")) (group "g-1" "Eng")
           {| index := {[ "a@x.com" := user "u-1" "a@x.com";
                          "b@x.com" := user "u-2" "b@x.com" ]};
              toDelete := [];
              indexByUserId := {[ "u-1" := user "u-1" "a@x.com";
                                  "u-2" := user "u-2" "b@x.com" ]} |}
           (store [user "u-1" "a@x.com"; user "u-2" "b@x.com"]
              [group "g-1" "Eng"] [membership "m-1" "g-1" "u-1"] ["m-2"])
           2 3 (membership "m-1" "g-1" "u-1") (user "u-2" "b@x.com")
           (group "g-1" "Eng")); reflexivity.
Defined.

Lemma two_users_consistent :
  consistent
    {| index := {[ "a@x.com" := user "u-1" "a@x.com";
                   "b@x.com" := user "u-2" "b@x.com" ]};
       toDelete := [];
       indexByUserId := {[ "u-1" := user "u-1" "a@x.com";
                           "u-2" := user "u-2" "b@x.com" ]} |}.
Proof.
  intros e u. simpl. rewrite lookup_insert. case_decide as Ha.
  { intros [= <-]. subst e. by eexists. }
  rewrite lookup_singleton. case_decide as Hb; [|done].
  intros [= <-]. subst e. by eexists.
Qed.

(** One member leaves and one joins the group Eng: after each of the four
    calls the store holds no (group, member) pair twice. *)
Lemma no_duplicate_membership_arises_example (n : nat) :
  NoDup
    (memstore.pairs
       (memstore.after
          (take n
             (trace (SyncMembershipsForGroup memstore.sdk None memstore.range
                       {| google :=
                            source [] [] [ggroup "Eng" "eng@x.com"]
                              (λ _, [ {| admin.Member_Email := "b@x.com" |} ]);
                          cfg := config [] [] |}
                       (Some (ggroup "Eng" "eng@x.com")) (group "g-1" "Eng")
                       {| index := {[ "a@x.com" := user "u-1" "a@x.com";
                                      "b@x.com" := user "u-2" "b@x.com" ]};
                          toDelete := [];
                          indexByUserId :=
                            {[ "u-1" := user "u-1" "a@x.com";
                               "u-2" := user "u-2" "b@x.com" ]} |})
                (store [user "u-1" "a@x.com"; user "u-2" "b@x.com"]
                   [group "g-1" "Eng"] [membership "m-1" "g-1" "u-1"]
                   ["m-2"])))
          (store [user "u-1" "a@x.com"; user "u-2" "b@x.com"]
             [group "g-1" "Eng"] [membership "m-1" "g-1" "u-1"] ["m-2"]))).
Proof.
  apply no_duplicate_membership_arises.
  - exact memstore_range_permutes.
  - exact two_users_consistent.
  - apply (bool_decide_unpack _). vm_compute. exact I.
Qed.

(** A source user that a tombstone names and the active listing holds, absent
    from the target: the run creates it, and the run that follows, on the
    store the first one left, deletes it. *)
Lemma recreated_user_flaps :
  mutations
    (trace (DoSync memstore.sdk None memstore.range
              (host (source [guser "a@x.com" false] [guser "a@x.com" false]
                       [] (λ _, [])))
              (config [] []))
       (store [] [] [] ["u-1"]))
  = [CreateUserCall (userToAdd (guser "a@x.com" false))] ∧
  ∃ u,
    mutations
      (trace (DoSync memstore.sdk None memstore.range
                (host (source [guser "a@x.com" false] [guser "a@x.com" false]
                         [] (λ _, [])))
                (config [] []))
         (final (DoSync memstore.sdk None memstore.range
                   (host (source [guser "a@x.com" false]
                            [guser "a@x.com" false] [] (λ _, [])))
                   (config [] []))
            (store [] [] [] ["u-1"])))
    = [DeleteUserCall u] ∧
    types.UserName u = Some "a@x.com".
Proof. split; [reflexivity|]. eexists. split; reflexivity. Qed.

(** ** Further statements on concrete directories *)

(** The source lists b@x.com, the target holds a@x.com: b@x.com is created,
    under a username the target listing does not hold. *)
Lemma listed_username_never_created_witness :
  ToString (types.UserName (userToAdd (guser "b@x.com" false)))
  ≠ ToString (types.UserName (user "u-1" "a@x.com")).
Proof.
  apply (listed_username_never_created memstore.sdk
           {| google := source [] [guser "b@x.com" false] [] (λ _, []);
              cfg := config [] [] |}
           EmptyString (store [user "u-1" "a@x.com"] [] [] ["u-2"])).
  - apply (list_elem_of_lookup_2 _ 3). reflexivity.
  - apply (list_elem_of_lookup_2 _ 0). reflexivity.
Defined.

(** A tombstone names a@x.com, which the target holds: the run deletes it,
    after [SyncUsers] marked it and [SyncGroups] returned no error. *)
Lemma only_marked_users_deleted_witness :
  ∃ usersSyncResult,
    result (SyncUsers memstore.sdk
              {| google := source [guser "a@x.com" false] [] [] (λ _, []);
                 cfg := config [] [] |} EmptyString)
      (store [user "u-1" "a@x.com"] [] [] [])
    = Ok (usersSyncResult, None) ∧
    user "u-1" "a@x.com" ∈ toDelete usersSyncResult.
Proof.
  destruct (only_marked_users_deleted memstore.sdk None memstore.range
              {| google := source [guser "a@x.com" false] [] [] (λ _, []);
                 cfg := config [] [] |}
              (store [user "u-1" "a@x.com"] [] [] [])
              (user "u-1" "a@x.com"))
    as [(usersSyncResult & Husers & _ & Hin) _].
  - apply (list_elem_of_lookup_2 _ 5). reflexivity.
  - by exists usersSyncResult.
Defined.

(** The listing of the tombstones fails: the run returns that error after
    two listings and leaves the target as it was. *)
Lemma SyncUsers_error_aborts_run_witness :
  DoSync_run memstore.sdk None memstore.range
    {| google :=
         {| google.GetUsers := λ _, ([], None);
            google.GetDeletedUsers := ([], Some (Err "quota"));
            google.GetGroups := λ _, ([], None);
            google.GetGroupMembers := λ _, ([], None) |};
       cfg := config [] [] |}
    (store [user "u-1" "a@x.com"] [] [] [])
  = (Ok (Some (Err "quota")), store [user "u-1" "a@x.com"] [] [] [],
     [GetUsersCall; GoogleGetDeletedUsersCall]).
Proof.
  edestruct (SyncUsers_error_aborts_run memstore.sdk None memstore.range
               {| google :=
                    {| google.GetUsers := λ _, ([], None);
                       google.GetDeletedUsers := ([], Some (Err "quota"));
                       google.GetGroups := λ _, ([], None);
                       google.GetGroupMembers := λ _, ([], None) |};
                  cfg := config [] [] |}
               (store [user "u-1" "a@x.com"] [] [] []))
    as [Hrun _]; [reflexivity|].
  exact Hrun.
Defined.

(** The group has the member a@x.com, the source wants b@x.com: the plan
    removes the one membership and adds b@x.com. *)
Lemma reconciliation_plan_witness :
  ({[ "b@x.com" := user "u-2" "b@x.com" ]} : gmap string types.User)
    !! "b@x.com" = Some (user "u-2" "b@x.com") ↔
  ({[ "a@x.com" := user "u-1" "a@x.com";
      "b@x.com" := user "u-2" "b@x.com" ]} : gmap string types.User)
    !! "b@x.com" = Some (user "u-2" "b@x.com") ∧
  "b@x.com" ∈ admin.Member_Email <$> [ {| admin.Member_Email := "b@x.com" |} ] ∧
  ∀ m, m ∈ [membership "m-1" "g-1" "u-1"] →
       resolved
         {| index := {[ "a@x.com" := user "u-1" "a@x.com";
                        "b@x.com" := user "u-2" "b@x.com" ]};
            toDelete := [];
            indexByUserId := {[ "u-1" := user "u-1" "a@x.com";
                                "u-2" := user "u-2" "b@x.com" ]} |} m
       ≠ Some "b@x.com".
Proof.
  refine (proj1 (reconciliation_plan
                   {| index := {[ "a@x.com" := user "u-1" "a@x.com";
                                  "b@x.com" := user "u-2" "b@x.com" ]};
                      toDelete := [];
                      indexByUserId := {[ "u-1" := user "u-1" "a@x.com";
                                          "u-2" := user "u-2" "b@x.com" ]} |}
                   [ {| admin.Member_Email := "b@x.com" |} ]
                   [membership "m-1" "g-1" "u-1"]
                   [membership "m-1" "g-1" "u-1"]
                   {[ "b@x.com" := user "u-2" "b@x.com" ]} _)
            "b@x.com" (user "u-2" "b@x.com")).
  reflexivity.
Defined.

(** The addition of b@x.com to the group Eng is planned: b@x.com is a listed
    source member, and the one listed membership resolves to a@x.com. *)
Lemma membership_calls_are_planned_witness :
  group "g-1" "Eng" = group "g-1" "Eng" ∧
  ∃ k,
    ({[ "a@x.com" := user "u-1" "a@x.com";
        "b@x.com" := user "u-2" "b@x.com" ]} : gmap string types.User) !! k
    = Some (user "u-2" "b@x.com") ∧
    k ∈ admin.Member_Email <$> [ {| admin.Member_Email := "b@x.com" |} ] ∧
    ∀ m, m ∈ [membership "m-1" "g-1" "u-1"] →
         resolved
           {| index := {[ "a@x.com" := user "u-1" "a@x.com";
                          "b@x.com" := user "u-2" "b@x.com" ]};
              toDelete := [];
              indexByUserId := {[ "u-1" := user "u-1" "a@x.com";
                                  "u-2" := user "u-2" "b@x.com" ]} |} m
         ≠ Some k.
Proof.
  refine (membership_calls_are_planned memstore.sdk None memstore.range
            {| google := source [] [] [ggroup "Eng" "eng@x.com"]
                           (λ _, [ {| admin.Member_Email := "b@x.com" |} ]);
               cfg := config [] [] |}
            (ggroup "Eng" "eng@x.com") (group "g-1" "Eng")
            {| index := {[ "a@x.com" := user "u-1" "a@x.com";
                           "b@x.com" := user "u-2" "b@x.com" ]};
               toDelete := [];
               indexByUserId := {[ "u-1" := user "u-1" "a@x.com";
                                   "u-2" := user "u-2" "b@x.com" ]} |}
            (store [user "u-1" "a@x.com"; user "u-2" "b@x.com"]
               [group "g-1" "Eng"] [membership "m-1" "g-1" "u-1"] ["m-2"])
            (AddUserToGroupCall (user "u-2" "b@x.com") (group "g-1" "Eng"))
            memstore_range_visits_entries _).
  apply (list_elem_of_lookup_2 _ 3). reflexivity.
Defined.

(** The same reconciliation returns no error: it made the two listings, the
    one removal and the one addition of the plan. *)
Lemma successful_sync_issues_whole_plan_witness :
  ∃ g toDelete memberList,
    Some (ggroup "Eng" "eng@x.com") = Some g ∧
    SyncMembershipsForGroup_awsMembers [membership "m-1" "g-1" "u-1"]
      {| index := {[ "a@x.com" := user "u-1" "a@x.com";
                     "b@x.com" := user "u-2" "b@x.com" ]};
         toDelete := [];
         indexByUserId := {[ "u-1" := user "u-1" "a@x.com";
                             "u-2" := user "u-2" "b@x.com" ]} |} []
      {[ "b@x.com" := user "u-2" "b@x.com" ]}
    = Ok (toDelete, memberList) ∧
    trace (SyncMembershipsForGroup memstore.sdk None memstore.range
             {| google := source [] [] [ggroup "Eng" "eng@x.com"]
                            (λ _, [ {| admin.Member_Email := "b@x.com" |} ]);
                cfg := config [] [] |}
             (Some (ggroup "Eng" "eng@x.com")) (group "g-1" "Eng")
             {| index := {[ "a@x.com" := user "u-1" "a@x.com";
                            "b@x.com" := user "u-2" "b@x.com" ]};
                toDelete := [];
                indexByUserId := {[ "u-1" := user "u-1" "a@x.com";
                                    "u-2" := user "u-2" "b@x.com" ]} |})
      (store [user "u-1" "a@x.com"; user "u-2" "b@x.com"] [group "g-1" "Eng"]
         [membership "m-1" "g-1" "u-1"] ["m-2"])
    = GoogleGetGroupMembersCall g :: GetGroupMembersCall (group "g-1" "Eng") ::
        (RemoveGroupMembershipCall <$> toDelete) ++
        ((λ e, AddUserToGroupCall e.2 (group "g-1" "Eng"))
           <$> memstore.range _ memberList).
Proof.
  refine (successful_sync_issues_whole_plan memstore.sdk None memstore.range
            {| google := source [] [] [ggroup "Eng" "eng@x.com"]
                           (λ _, [ {| admin.Member_Email := "b@x.com" |} ]);
               cfg := config [] [] |}
            (Some (ggroup "Eng" "eng@x.com")) (group "g-1" "Eng")
            {| index := {[ "a@x.com" := user "u-1" "a@x.com";
                           "b@x.com" := user "u-2" "b@x.com" ]};
               toDelete := [];
               indexByUserId := {[ "u-1" := user "u-1" "a@x.com";
                                   "u-2" := user "u-2" "b@x.com" ]} |}
            (store [user "u-1" "a@x.com"; user "u-2" "b@x.com"]
               [group "g-1" "Eng"] [membership "m-1" "g-1" "u-1"] ["m-2"])
            _).
  reflexivity.
Defined.

(** The source lists the group Ops, the target holds Eng: Ops is created,
    under a name the target listing does not hold. *)
Lemma listed_group_name_never_created_witness :
  ToString (Some "Ops") ≠ ToString (types.Group_DisplayName (group "g-1" "Eng")).
Proof.
  apply (listed_group_name_never_created memstore.sdk None memstore.range
           {| google := source [] [] [ggroup "Ops" "ops@x.com"] (λ _, []);
              cfg := config [] [] |}
           EmptyString no_users (store [] [group "g-1" "Eng"] [] ["g-2"])
           (Some "Ops") (Some EmptyString)).
  - apply (list_elem_of_lookup_2 _ 2). reflexivity.
  - apply (list_elem_of_lookup_2 _ 0). reflexivity.
Defined.

(** The target holds the group Old, the source lists none: Old is deleted; it
    is listed, and no source group carries its name. *)
Lemma only_unmatched_groups_deleted_witness :
  group "g-1" "Old" ∈ [group "g-1" "Old"] ∧
  ¬ kept (ignoring [] []) [] "Old".
Proof.
  apply (only_unmatched_groups_deleted memstore.sdk None memstore.range
           (ignoring [] []) EmptyString no_users
           (store [] [group "g-1" "Old"] [] []) (group "g-1" "Old")).
  apply (list_elem_of_lookup_2 _ 2). reflexivity.
Defined.

(** The members of the target group Eng are listed: the source lists a group
    of that name whose email is off the ignore list. *)
Lemma memberships_synced_for_kept_groups_witness :
  kept {| google := source [] [] [ggroup "Eng" "eng@x.com"] (λ _, []);
          cfg := config [] ["ops@x.com"] |}
    [ggroup "Eng" "eng@x.com"] "Eng".
Proof.
  refine (memberships_synced_for_kept_groups memstore.sdk None memstore.range
            {| google := source [] [] [ggroup "Eng" "eng@x.com"] (λ _, []);
               cfg := config [] ["ops@x.com"] |}
            EmptyString no_users (store [] [group "g-1" "Eng"] [] [])
            (GetGroupMembersCall (group "g-1" "Eng"))
            memstore_range_visits_entries _).
  apply (list_elem_of_lookup_2 _ 3). reflexivity.
Defined.

(** In Lambda mode the host builds the source client from the text of the
    configuration; the run lists the users of the target. *)
Lemma DoSync_calls_need_client_witness :
  ∃ creds googleClient,
    credentials (host (source [] [] [] (λ _, []))) (config [] [])
    = inr creds ∧
    NewClient (host (source [] [] [] (λ _, [])))
      (config.GoogleAdmin (config [] [])) creds = inr googleClient ∧
    DoSync memstore.sdk None memstore.range
      (host (source [] [] [] (λ _, []))) (config [] [])
    = DoSync_run memstore.sdk None memstore.range
        {| google := googleClient; cfg := config [] [] |}.
Proof.
  apply (DoSync_calls_need_client memstore.sdk None memstore.range
           (host (source [] [] [] (λ _, []))) (config [] [])
           (store [] [] [] [])).
  intros Hnil. vm_compute in Hnil. discriminate Hnil.
Defined.

(** A binary secret that the decoder rejects: the error is the decoder's and
    the string is empty. *)
Lemma getSecret_error_gives_empty_witness :
  secrets.getSecret
    {| secrets.DecodedLen := λ n, n;
       secrets.Decode := λ dst src, ((0, Some (Err "illegal base64 data")), dst) |}
    {| secrets.svc := λ _ _,
         inr {| secrets.SecretString := None; secrets.SecretBinary := "!" |} |}
    "SSOSyncGoogleAdminEmail"
  = Ok (EmptyString, Some (Err "illegal base64 data")) ∧
  EmptyString = EmptyString.
Proof.
  split; [reflexivity|].
  apply (getSecret_error_gives_empty
           {| secrets.DecodedLen := λ n, n;
              secrets.Decode :=
                λ dst src, ((0, Some (Err "illegal base64 data")), dst) |}
           {| secrets.svc := λ _ _,
                inr {| secrets.SecretString := None;
                       secrets.SecretBinary := "!" |} |}
           "SSOSyncGoogleAdminEmail" EmptyString
           (Err "illegal base64 data")).
  reflexivity.
Defined.

(** The source lists the group Eng and the target holds a group of that
    name: the run of [SyncGroups] returns no error and has listed its
    members. *)
Lemma successful_SyncGroups_reconciles_matched_groups_witness :
  ∃ g, g ∈ [group "g-1" "Eng"] ∧
       ToString (types.Group_DisplayName g) = "Eng" ∧
       GetGroupMembersCall g
         ∈ trace (SyncGroups memstore.sdk None memstore.range
                    {| google := source [] [] [ggroup "Eng" "eng@x.com"]
                                   (λ _, []);
                       cfg := config [] ["ops@x.com"] |}
                    EmptyString no_users)
             (store [] [group "g-1" "Eng"] [] []).
Proof.
  apply (successful_SyncGroups_reconciles_matched_groups memstore.sdk None
           memstore.range
           {| google := source [] [] [ggroup "Eng" "eng@x.com"] (λ _, []);
              cfg := config [] ["ops@x.com"] |}
           EmptyString no_users (store [] [group "g-1" "Eng"] [] [])
           (ggroup "Eng" "eng@x.com") (group "g-1" "Eng")).
  - exact memstore_range_permutes.
  - reflexivity.
  - by left.
  - apply (bool_decide_unpack _). vm_compute. exact I.
  - by left.
  - reflexivity.
Defined.

(** ** The claims on whole runs, on concrete directories *)

(** The group Eng is on the ignore list by its name, the group Ops by its
    email: Eng is created, and the target group Ops is deleted. *)
Lemma group_ignore_keys_on_email_witness :
  (∃ description,
     CreateGroupCall (Some "Eng") description
       ∈ trace (SyncGroups memstore.sdk None memstore.range
                  {| google := source [] [] [ggroup "Eng" "eng@x.com";
                                              ggroup "Ops" "ops@x.com"]
                                 (λ _, []);
                     cfg := config [] ["Eng"; "ops@x.com"] |}
                  EmptyString no_users)
           (store [] [group "g-2" "Ops"] [] ["g-1"])) ∧
  DeleteGroupCall (group "g-2" "Ops")
    ∈ trace (SyncGroups memstore.sdk None memstore.range
               {| google := source [] [] [ggroup "Eng" "eng@x.com";
                                           ggroup "Ops" "ops@x.com"]
                              (λ _, []);
                  cfg := config [] ["Eng"; "ops@x.com"] |}
               EmptyString no_users)
        (store [] [group "g-2" "Ops"] [] ["g-1"]).
Proof.
  destruct (group_ignore_keys_on_email memstore.sdk None memstore.range
              {| google := source [] [] [ggroup "Eng" "eng@x.com";
                                          ggroup "Ops" "ops@x.com"]
                             (λ _, []);
                 cfg := config [] ["Eng"; "ops@x.com"] |}
              EmptyString no_users (store [] [group "g-2" "Ops"] [] ["g-1"]))
    as (_ & _ & Hcreate & _ & Hdelete).
  split.
  - apply (Hcreate eq_refl eq_refl (ggroup "Eng" "eng@x.com")).
    + by left.
    + apply (bool_decide_unpack _). vm_compute. exact I.
    + by intros t [->|[]%elem_of_nil]%elem_of_cons.
  - apply (Hdelete eq_refl); [by left|].
    intros (g & [->|[->|[]%elem_of_nil]%elem_of_cons]%elem_of_cons
              & Hign & Hname); [done|].
    apply Hign. right. by left.
Defined.


(** Of the target groups Eng, Ops and Old, only Eng has a source group with
    an email off the ignore list; with the new group New it is what the
    membership loop visits, each with its source group. *)
Lemma source_group_never_nil_witness :
  ∃ googleGroupsIndex groupsIndex,
    result (SyncGroups_googleGroups memstore.sdk
              {| google := source [] [] [ggroup "Eng" "eng@x.com";
                                          ggroup "Ops" "ops@x.com";
                                          ggroup "New" "new@x.com"]
                             (λ _, []);
                 cfg := config [] ["ops@x.com"] |}
              [ggroup "Eng" "eng@x.com"; ggroup "Ops" "ops@x.com";
               ggroup "New" "new@x.com"] ∅
              (SyncGroups_awsGroups
                 [group "g-1" "Eng"; group "g-2" "Ops"; group "g-3" "Old"] ∅))
      (store [] [group "g-1" "Eng"; group "g-2" "Ops"; group "g-3" "Old"]
         [] ["g-4"])
    = Ok (googleGroupsIndex, groupsIndex) ∧
    ∀ k g,
      (k, g) ∈ memstore.range _
                 (SyncGroups_groupsToDelete
                    [group "g-1" "Eng"; group "g-2" "Ops"; group "g-3" "Old"]
                    googleGroupsIndex [] groupsIndex).2 →
      ∃ gg, googleGroupsIndex !! ToString (types.Group_DisplayName g)
            = Some gg ∧
            gg ∈ [ggroup "Eng" "eng@x.com"; ggroup "Ops" "ops@x.com";
                  ggroup "New" "new@x.com"] ∧
            (admin.Group_Email gg ∉ ["ops@x.com"]).
Proof.
  destruct (source_group_never_nil memstore.sdk None memstore.range
              {| google := source [] [] [ggroup "Eng" "eng@x.com";
                                          ggroup "Ops" "ops@x.com";
                                          ggroup "New" "new@x.com"]
                             (λ _, []);
                 cfg := config [] ["ops@x.com"] |}
              EmptyString no_users
              (store [] [group "g-1" "Eng"; group "g-2" "Ops";
                         group "g-3" "Old"] [] ["g-4"])
              memstore_range_visits_entries)
    as (_ & (googleGroupsIndex & groupsIndex & Hrun) & _).
  cbv zeta in Hrun. destruct Hrun as (Hres & _ & Hall).
  exists googleGroupsIndex, groupsIndex. split; [exact Hres|exact Hall].
Defined.

(** The target holds a@x.com, the source lists a@x.com and then b@x.com:
    b@x.com is created, and the index [SyncUsers] returns holds it, with the
    id the store assigned. *)
Lemma new_user_construction_and_insertion_witness :
  ∃ after added,
    result (SyncUsers memstore.sdk
              {| google := source [] [guser "a@x.com" false;
                                       guser "b@x.com" false] [] (λ _, []);
                 cfg := config [] [] |} EmptyString)
      (store [user "u-1" "a@x.com"] [] [] ["u-2"])
    = Ok (after, None) ∧
    index after !! "b@x.com" = Some added ∧
    types.UserId added = Some "u-2" ∧
    types.DisplayName added = Some "Ada Lovelace".
Proof.
  destruct (new_user_construction_and_insertion memstore.sdk
              {| google := source [] [guser "a@x.com" false;
                                       guser "b@x.com" false] [] (λ _, []);
                 cfg := config [] [] |} EmptyString
              (store [user "u-1" "a@x.com"] [] [] ["u-2"])
              [guser "a@x.com" false] [] (guser "b@x.com" false))
    as (_ & _ & _ & _ & before & after & Hrun).
  - reflexivity.
  - reflexivity.
  - reflexivity.
  - apply not_elem_of_nil.
  - reflexivity.
  - by intros t [->|[]%elem_of_nil]%elem_of_cons.
  - by intros p [->|[]%elem_of_nil]%elem_of_cons.
  - cbv zeta in Hrun.
    destruct Hrun as (Hbefore & _ & _ & _ & _ & Hres & Hsub & _).
    vm_compute in Hbefore. injection Hbefore as <-.
    exists after. eexists. split; [exact Hres|].
    split; [|split]; [refine (lookup_weaken _ _ _ _ _ Hsub)|..];
      reflexivity.
Defined.

(** The target holds a@x.com and the source lists nothing: both indexes
    [SyncUsers] returns are keyed. *)
Lemma SyncUsers_indexes_keyed_witness :
  (∀ k u, ({[ "a@x.com" := user "u-1" "a@x.com" ]} : gmap string types.User)
            !! k = Some u →
          ToString (types.UserName u) = k) ∧
  (∀ k u, ({[ "u-1" := user "u-1" "a@x.com" ]} : gmap string types.User)
            !! k = Some u →
          ToString (types.UserId u) = k).
Proof.
  refine (SyncUsers_indexes_keyed memstore.sdk (ignoring [] []) EmptyString
            (store [user "u-1" "a@x.com"] [] [] [])
            {| index := {[ "a@x.com" := user "u-1" "a@x.com" ]};
               toDelete := [];
               indexByUserId := {[ "u-1" := user "u-1" "a@x.com" ]} |}
            None _).
  reflexivity.
Defined.
